(** * derezzolution/platform: runners, workers and service shutdown

    A shallow embedding of [service/runner.go] and of the shutdown part of
    [service/service.go], and the properties of the specification proved
    (or refuted) on it.

    - Part A: [time.Duration] arithmetic and the start delay of a worker
      ([StartNewWorker], lines 60-67 of runner.go).
    - Part B: the Runner as a transition system over its goroutines
      ([StartNewWorker], [Stop], [countNewWorker], [parkWorker], [run]).
    - Part C: [Service.RunWithCleanUp] and [countNTotalWorkers] as a
      sequential program that leaves a trace of calls.
    - Part D: the constructor [NewServiceWithOptions] with the flags
      (flags.go), the configuration (config.go) and the version
      (version.go), as a sequential program of the same kind; the work
      function of the example runner. *)

From Stdlib Require Import ZArith List String Bool Lia.
From Stdlib Require Import QArith Qround Qpower Lqa SpecFloat.
From Stdlib Require Import Ascii DecimalString DecimalZ DecimalPos.
Import ListNotations.

Open Scope Z_scope.

(* ================================================================== *)
(** * Part A: durations, float64 and the start delay                   *)
(* ================================================================== *)

(** Go's [int64] (and [int] on 64-bit targets): two's complement
    wrap-around of a mathematical integer. *)
Definition wrap64 (z : Z) : Z := (z + 2 ^ 63) mod 2 ^ 64 - 2 ^ 63.

Definition MinInt64 : Z := - 2 ^ 63.
Definition MaxInt64 : Z := 2 ^ 63 - 1.

Definition in_int64 (z : Z) : Prop := MinInt64 <= z <= MaxInt64.

(** [time.Duration] is an [int64] count of nanoseconds. *)
Definition Duration := Z.

Definition Second : Duration := 1000000000.

(** ** float64

    A finite float64 is modelled by the rational it denotes; an operation
    returns the exact result rounded to the nearest float64, ties to even
    (IEEE 754 binary64: 53 bits of precision, smallest exponent -1074).
    Every value that the start delay computes is below 2^34, so the
    overflow to infinity of binary64 is never reached. *)
Definition F64 := Q.

Definition pow2 (e : Z) : Q :=
  if 0 <=? e then inject_Z (2 ^ e) else / inject_Z (2 ^ (- e)).

(** [ilog2 x] is the exponent of the binade of [x > 0]:
    [2^(ilog2 x) <= x < 2^(ilog2 x + 1)]. *)
Definition ilog2 (x : Q) : Z :=
  if Qle_bool 1 x then Z.log2 (Qfloor x)
  else - Z.log2_up (Qceiling (/ x)).

(** Round a non-negative rational to the nearest integer, ties to even. *)
Definition rne (y : Q) : Z :=
  let fl := Qfloor y in
  match (y - inject_Z fl ?= 1 # 2)%Q with
  | Lt => fl
  | Eq => if Z.even fl then fl else fl + 1
  | Gt => fl + 1
  end.

Definition f64_prec : Z := 53.
Definition f64_emin : Z := -1074.

(** The exponent of the unit in the last place of the float64 nearest
    to [x > 0]. *)
Definition ulp_exp (x : Q) : Z := Z.max (ilog2 x - (f64_prec - 1)) f64_emin.

Definition round64_pos (x : Q) : Q :=
  let E := ulp_exp x in (inject_Z (rne (x / pow2 E)) * pow2 E)%Q.

Definition round64 (x : Q) : F64 :=
  match (x ?= 0)%Q with
  | Eq => 0%Q
  | Gt => round64_pos x
  | Lt => (- round64_pos (- x))%Q
  end.

(** [x] is a float64: an integer of at most 53 bits times a power of two
    that is at least the smallest one. *)
Definition is_float64 (x : Q) : Prop :=
  exists m E : Z,
    Z.abs m < 2 ^ f64_prec /\ f64_emin <= E /\ (x == inject_Z m * pow2 E)%Q.

Definition float64_of_int (n : Z) : F64 := round64 (inject_Z n).
Definition fadd (x y : F64) : F64 := round64 (x + y).
Definition fmul (x y : F64) : F64 := round64 (x * y).
Definition fdiv (x y : F64) : F64 := round64 (x / y).

(** Conversion of a float64 to an integer discards the fraction
    (truncation toward zero). *)
Definition Qtrunc (x : Q) : Z :=
  if Qle_bool 0 x then Qfloor x else Qceiling x.

Definition int64_of_float (x : F64) : Z := wrap64 (Qtrunc x).

Definition fgt0 (x : F64) : bool :=
  match (x ?= 0)%Q with Gt => true | _ => false end.

(** [func (d Duration) Seconds() float64] of package time:
    [sec := d / Second; nsec := d % Second;
     return float64(sec) + float64(nsec)/1e9]. *)
Definition Seconds (d : Duration) : F64 :=
  let sec := Z.quot d Second in
  let nsec := Z.rem d Second in
  fadd (float64_of_int sec)
       (fdiv (float64_of_int nsec) (float64_of_int 1000000000)).

Record RunnerConfig := {
  InitDelayDuration : Duration;
  InitDelayJitterDuration : Duration;
  MaximumCleanUpDuration : Duration;
  Name : string;
  WorkerSleepDuration : Duration
}.

(** The value that runner.go lines 63-66 add to [startDelay] when the
    branch is taken: [time.Duration(j.Seconds()*rand.Float64()) *
    time.Second]; [f] is the value drawn by [rand.Float64()]. *)
Definition jitterDelay (j : Duration) (f : F64) : Duration :=
  wrap64 (int64_of_float (fmul (Seconds j) f) * Second).

(** What is added to the start delay on top of the baseline and the
    initial delay: nothing when the branch is skipped. *)
Definition addedJitter (j : Duration) (f : F64) : Duration :=
  if fgt0 (Seconds j) then jitterDelay j f else 0.

(** [startDelay] of [StartNewWorker], runner.go lines 60-67. *)
Definition startDelay (c : RunnerConfig) (f : F64) : Duration :=
  let startDelay := wrap64 (1 * Second) in
  let startDelay := wrap64 (startDelay + InitDelayDuration c) in
  if fgt0 (Seconds (InitDelayJitterDuration c))
  then wrap64 (startDelay + jitterDelay (InitDelayJitterDuration c) f)
  else startDelay.

(** A value that [rand.Float64()] can return: a float64 in [0, 1). *)
Definition is_random_draw (f : F64) : Prop :=
  is_float64 f /\ (0 <= f)%Q /\ (f < 1)%Q.

(** Executable versions of the two predicates above. *)
Definition is_float64b (x : Q) : bool := Qeq_bool (round64 x) x.

Definition is_random_drawb (f : F64) : bool :=
  is_float64b f && Qle_bool 0 f && negb (Qle_bool 1 f).

(* ================================================================== *)
(** * Part B: the Runner and its goroutines                            *)
(* ================================================================== *)

(** The runner is shared by the goroutines of its workers and by the
    threads that call [StartNewWorker] and [Stop].  Each of them is a
    program counter over the lines of runner.go; a step does one
    access to the shared runner (a lock, an unlock, a read or a write
    of a field, an operation of the wait group or of the channel, a
    line of the log) or ends a sleep.  Steps interleave freely and the
    clock moves on by ticks of any length, so that a thread may always
    be late but never early.

    Conventions: [int] is the 64-bit integer of the usual targets; the
    counter of the [sync.WaitGroup] is an unbounded integer; the
    unsynchronized read of [isStopping] at line 79 sees the current
    value of the flag; a call of [time.Sleep] or [time.After] takes its
    start time in the step that precedes it; the work function itself
    does not touch the runner. *)

(** Go's [error] values of this package: the two errors that [Stop]
    builds with [fmt.Errorf], and whatever a work function or a clean-up
    function returns.  A possibly nil [error] is an [option error]. *)
Inductive error : Type :=
| ErrAlreadyStopping
    (* "runner is already in the process of stopping, stop request ignored" *)
| ErrWaitGroupTimeout (d : Duration)
    (* "wait group did not empty within %.0f seconds", d.Seconds() *)
| ErrOther (msg : string).

(** [type Runner struct]: [mutex] is [true] while the [sync.Mutex] is
    locked, [wg] is the counter of the [sync.WaitGroup]. *)
Record Runner := {
  mutex : bool;
  config : RunnerConfig;
  isStopping : bool;
  nWorkers : Z;
  wg : Z
}.

Definition set_mutex (b : bool) (r : Runner) : Runner :=
  {| mutex := b; config := config r; isStopping := isStopping r;
     nWorkers := nWorkers r; wg := wg r |}.

Definition set_isStopping (b : bool) (r : Runner) : Runner :=
  {| mutex := mutex r; config := config r; isStopping := b;
     nWorkers := nWorkers r; wg := wg r |}.

Definition set_nWorkers (n : Z) (r : Runner) : Runner :=
  {| mutex := mutex r; config := config r; isStopping := isStopping r;
     nWorkers := n; wg := wg r |}.

Definition set_wg (n : Z) (r : Runner) : Runner :=
  {| mutex := mutex r; config := config r; isStopping := isStopping r;
     nWorkers := nWorkers r; wg := n |}.

(** [NewRunner], without the registration in the service (Part C). *)
Definition NewRunner (c : RunnerConfig) : Runner :=
  {| mutex := false; config := c; isStopping := false;
     nWorkers := 0; wg := 0 |}.

(** The lines that the runner writes with [Logf]. *)
Inductive LogMsg : Type :=
| LogStartingNewWorker (startDelay : Duration)
| LogNewWorkerStarted
| LogError (e : error)
| LogAlreadyStopping
| LogStoppingRunner (n : Z)
| LogWaitgroupEmpty
| LogErrorStopping (e : error)
| LogWorkerStopped (n : Z).

(** Program points of the goroutine that [StartNewWorker] starts
    (runner.go lines 59-90). *)
Inductive WorkerPc : Type :=
| W_Init                      (* line 60: start delay not yet computed *)
| W_StartSleep (wake : Z)     (* line 71: in time.Sleep(startDelay) *)
| W_Loop                      (* line 75: about to call r.run: wg.Add(1) *)
| W_Work                      (* line 160: inside worker() *)
| W_Done (e : option error)   (* line 159: deferred wg.Done() pending *)
| W_Ran (e : option error)    (* line 76: if err != nil { Logf } *)
| W_Check                     (* line 79: if r.isStopping *)
| W_ParkLock                  (* line 149: r.mutex.Lock() *)
| W_ParkDec                   (* line 151: r.nWorkers-- *)
| W_ParkLog                   (* line 152: if r.nWorkers > 0 { Logf } *)
| W_ParkUnlock                (* line 150: deferred r.mutex.Unlock() *)
| W_ParkSleep (wake : Z)      (* line 85: in time.Sleep(MaximumCleanUpDuration) *)
| W_Sleep (wake : Z)          (* line 88: in time.Sleep(WorkerSleepDuration) *)
| W_Exit.                     (* line 86: break, the goroutine ends *)

(** Program points of a call of [Stop] (runner.go lines 93-122). *)
Inductive StopPc : Type :=
| S_Lock                      (* line 94: r.mutex.Lock() *)
| S_Check                     (* line 95: if r.isStopping *)
| S_Already                   (* lines 96-99: build err, Logf, return err *)
| S_Set                       (* line 101: r.isStopping = true *)
| S_Unlock                    (* line 102: r.mutex.Unlock() *)
| S_Log                       (* line 104: Logf("stopping runner ...") *)
| S_Go                        (* lines 106-111: make(chan), go func() *)
| S_After                     (* line 116: time.After(MaximumCleanUpDuration) *)
| S_Select (deadline : Z)     (* line 113: select *)
| S_TimedOut                  (* lines 117-120: build err, Logf, return err *)
| S_Returned (e : option error).

(** Program points of the goroutine of lines 107-111. *)
Inductive WaiterPc : Type :=
| Wt_None                     (* not started yet *)
| Wt_Wait                     (* line 108: r.wg.Wait() *)
| Wt_Log                      (* line 109: Logf("waitgroup empty") *)
| Wt_Send                     (* line 110: c <- struct{}{} *)
| Wt_Exit.

(** Program points of a call of [StartNewWorker] (lines 57-58, 142-146). *)
Inductive StartPc : Type :=
| N_Lock                      (* line 143: r.mutex.Lock() *)
| N_Inc                       (* line 145: r.nWorkers++ *)
| N_Unlock                    (* line 144: deferred r.mutex.Unlock() *)
| N_Go                        (* line 59: go func() *)
| N_Returned.

(** A thread of control that works on the runner.  A call of [Stop]
    carries the goroutine it starts and the channel [c] they share
    ([c = true]: the buffer of capacity one holds a value). *)
Inductive Thread : Type :=
| TWorker (pc : WorkerPc)
| TStop (pc : StopPc) (waiter : WaiterPc) (c : bool)
| TStart (pc : StartPc).

(** What the code does not decide: the result with which a work
    function returns, the value drawn by [rand.Float64()], and the case
    that [select] takes. *)
Inductive Choice : Type :=
| ChNone
| ChWorkReturns (e : option error)
| ChDraw (f : F64)
| ChRecv
| ChTimeout.

Definition StepResult : Type :=
  (Runner * Thread * list LogMsg * list Thread)%type.

Definition worker_step (now : Z) (r : Runner) (pc : WorkerPc) (ch : Choice)
  : option StepResult :=
  match pc with
  | W_Init =>
      match ch with
      | ChDraw f =>
          if is_random_drawb f then
            let d := startDelay (config r) f in
            Some (r, TWorker (W_StartSleep (now + d)),
                  [LogStartingNewWorker d], [])
          else None
      | _ => None
      end
  | W_StartSleep wake =>
      if wake <=? now
      then Some (r, TWorker W_Loop, [LogNewWorkerStarted], [])
      else None
  | W_Loop => Some (set_wg (wg r + 1) r, TWorker W_Work, [], [])
  | W_Work =>
      match ch with
      | ChWorkReturns e => Some (r, TWorker (W_Done e), [], [])
      | _ => None
      end
  | W_Done e => Some (set_wg (wg r - 1) r, TWorker (W_Ran e), [], [])
  | W_Ran e =>
      match e with
      | Some err => Some (r, TWorker W_Check, [LogError err], [])
      | None => Some (r, TWorker W_Check, [], [])
      end
  | W_Check =>
      if isStopping r
      then Some (r, TWorker W_ParkLock, [], [])
      else Some (r, TWorker (W_Sleep (now + WorkerSleepDuration (config r))),
                 [], [])
  | W_ParkLock =>
      if mutex r then None
      else Some (set_mutex true r, TWorker W_ParkDec, [], [])
  | W_ParkDec =>
      Some (set_nWorkers (wrap64 (nWorkers r - 1)) r, TWorker W_ParkLog, [], [])
  | W_ParkLog =>
      if 0 <? nWorkers r
      then Some (r, TWorker W_ParkUnlock, [LogWorkerStopped (nWorkers r)], [])
      else Some (r, TWorker W_ParkUnlock, [], [])
  | W_ParkUnlock =>
      Some (set_mutex false r,
            TWorker (W_ParkSleep (now + MaximumCleanUpDuration (config r))),
            [], [])
  | W_ParkSleep wake =>
      if wake <=? now then Some (r, TWorker W_Exit, [], []) else None
  | W_Sleep wake =>
      if wake <=? now then Some (r, TWorker W_Loop, [], []) else None
  | W_Exit => None
  end.

Definition stop_step (now : Z) (r : Runner) (pc : StopPc) (w : WaiterPc)
  (c : bool) (ch : Choice) : option StepResult :=
  match pc with
  | S_Lock =>
      if mutex r then None
      else Some (set_mutex true r, TStop S_Check w c, [], [])
  | S_Check =>
      if isStopping r
      then Some (r, TStop S_Already w c, [], [])
      else Some (r, TStop S_Set w c, [], [])
  | S_Already =>
      Some (r, TStop (S_Returned (Some ErrAlreadyStopping)) w c,
            [LogAlreadyStopping], [])
  | S_Set => Some (set_isStopping true r, TStop S_Unlock w c, [], [])
  | S_Unlock => Some (set_mutex false r, TStop S_Log w c, [], [])
  | S_Log => Some (r, TStop S_Go w c, [LogStoppingRunner (nWorkers r)], [])
  | S_Go => Some (r, TStop S_After Wt_Wait false, [], [])
  | S_After =>
      Some (r, TStop (S_Select (now + MaximumCleanUpDuration (config r))) w c,
            [], [])
  | S_Select deadline =>
      match ch with
      | ChRecv =>
          if c then Some (r, TStop (S_Returned None) w false, [], [])
          else None
      | ChTimeout =>
          if deadline <=? now then Some (r, TStop S_TimedOut w c, [], [])
          else None
      | _ => None
      end
  | S_TimedOut =>
      let err := ErrWaitGroupTimeout (MaximumCleanUpDuration (config r)) in
      Some (r, TStop (S_Returned (Some err)) w c, [LogErrorStopping err], [])
  | S_Returned _ => None
  end.

(** The goroutine of lines 107-111, next to the call that started it. *)
Definition waiter_step (r : Runner) (pc : StopPc) (w : WaiterPc) (c : bool)
  : option StepResult :=
  match w with
  | Wt_None => None
  | Wt_Wait =>
      if wg r =? 0 then Some (r, TStop pc Wt_Log c, [], []) else None
  | Wt_Log => Some (r, TStop pc Wt_Send c, [LogWaitgroupEmpty], [])
  | Wt_Send =>
      if c then None else Some (r, TStop pc Wt_Exit true, [], [])
  | Wt_Exit => None
  end.

Definition start_step (r : Runner) (pc : StartPc) : option StepResult :=
  match pc with
  | N_Lock =>
      if mutex r then None else Some (set_mutex true r, TStart N_Inc, [], [])
  | N_Inc =>
      Some (set_nWorkers (wrap64 (nWorkers r + 1)) r, TStart N_Unlock, [], [])
  | N_Unlock => Some (set_mutex false r, TStart N_Go, [], [])
  | N_Go => Some (r, TStart N_Returned, [], [TWorker W_Init])
  | N_Returned => None
  end.

Definition thread_step (now : Z) (r : Runner) (t : Thread) (ch : Choice)
  : option StepResult :=
  match t with
  | TWorker pc => worker_step now r pc ch
  | TStop pc w c => stop_step now r pc w c ch
  | TStart pc => start_step r pc
  end.

(** The runner, the clock (nanoseconds), the threads at work on the
    runner (a thread keeps its index for ever) and the log. *)
Record State := {
  runner : Runner;
  now : Z;
  threads : list Thread;
  logs : list LogMsg
}.

Fixpoint set_nth {A : Type} (i : nat) (x : A) (l : list A) : list A :=
  match l, i with
  | [], _ => []
  | _ :: l', O => x :: l'
  | y :: l', S i' => y :: set_nth i' x l'
  end.

(** One move of the system: thread [i] takes a step, the goroutine of
    the [Stop] call [i] takes a step, time passes, or the host program
    calls [Stop] or [StartNewWorker] from a new thread. *)
Inductive Action : Type :=
| ActThread (i : nat) (ch : Choice)
| ActWaiter (i : nat)
| ActTick (dt : Z)
| ActCallStop
| ActCallStartNewWorker.

Definition commit (s : State) (i : nat) (res : option StepResult)
  : option State :=
  match res with
  | Some (r', t', out, new) =>
      Some {| runner := r'; now := now s;
              threads := set_nth i t' (threads s) ++ new;
              logs := logs s ++ out |}
  | None => None
  end.

Definition do_action (s : State) (a : Action) : option State :=
  match a with
  | ActThread i ch =>
      match nth_error (threads s) i with
      | Some t => commit s i (thread_step (now s) (runner s) t ch)
      | None => None
      end
  | ActWaiter i =>
      match nth_error (threads s) i with
      | Some (TStop pc w c) => commit s i (waiter_step (runner s) pc w c)
      | _ => None
      end
  | ActTick dt =>
      if 0 <=? dt
      then Some {| runner := runner s; now := now s + dt;
                   threads := threads s; logs := logs s |}
      else None
  | ActCallStop =>
      Some {| runner := runner s; now := now s;
              threads := threads s ++ [TStop S_Lock Wt_None false];
              logs := logs s |}
  | ActCallStartNewWorker =>
      Some {| runner := runner s; now := now s;
              threads := threads s ++ [TStart N_Lock];
              logs := logs s |}
  end.

Fixpoint run (s : State) (acts : list Action) : option State :=
  match acts with
  | [] => Some s
  | a :: acts' =>
      match do_action s a with
      | Some s' => run s' acts'
      | None => None
      end
  end.

(** The states visited by a schedule, the first one included. *)
Fixpoint visited (s : State) (acts : list Action) : list State :=
  s ::
  match acts with
  | [] => []
  | a :: acts' =>
      match do_action s a with
      | Some s' => visited s' acts'
      | None => []
      end
  end.

Definition step (s s' : State) : Prop := exists a, do_action s a = Some s'.

Definition reaches (s s' : State) : Prop := exists acts, run s acts = Some s'.

Definition init_state (c : RunnerConfig) : State :=
  {| runner := NewRunner c; now := 0; threads := []; logs := [] |}.

Definition reachable (s : State) : Prop := exists c, reaches (init_state c) s.

(** A thread that holds the mutex: it has passed a [Lock] and not yet
    the [Unlock] of its critical section. *)
Definition holds_mutex (t : Thread) : bool :=
  match t with
  | TWorker (W_ParkDec | W_ParkLog | W_ParkUnlock) => true
  | TStop (S_Check | S_Already | S_Set | S_Unlock) _ _ => true
  | TStart (N_Inc | N_Unlock) => true
  | _ => false
  end.

(** A thread that is about to acquire the mutex. *)
Definition wants_mutex (t : Thread) : bool :=
  match t with
  | TWorker W_ParkLock => true
  | TStop S_Lock _ _ => true
  | TStart N_Lock => true
  | _ => false
  end.

(** A worker that the counter [nWorkers] accounts for: [StartNewWorker]
    has counted it and [parkWorker] has not yet taken it off. *)
Definition counted (t : Thread) : bool :=
  match t with
  | TStart (N_Unlock | N_Go) => true
  | TWorker (W_ParkLog | W_ParkUnlock | W_ParkSleep _ | W_Exit) => false
  | TWorker _ => true
  | _ => false
  end.

Definition count_if {A : Type} (p : A -> bool) (l : list A) : Z :=
  Z.of_nat (List.length (filter p l)).

(** A work-function invocation in flight: between [wg.Add(1)] and
    [wg.Done()]. *)
Definition in_flight (t : Thread) : bool :=
  match t with
  | TWorker (W_Work | W_Done _) => true
  | _ => false
  end.

(* ================================================================== *)
(** * Part C: the Service and its shutdown sequence                    *)
(* ================================================================== *)

(** [type Service struct]: the runners in registration order and the
    interrupt listeners (a listener is named by a number).  A runner is
    the [*Runner] at its index. *)
Record Service := {
  runners : list Runner;
  interruptListeners : list nat
}.

Definition installRunner (s : Service) (r : Runner) : Service :=
  {| runners := runners s ++ [r];
     interruptListeners := interruptListeners s |}.

Definition AddInterruptListener (s : Service) (listener : nat) : Service :=
  {| runners := runners s;
     interruptListeners := interruptListeners s ++ [listener] |}.

(** [countNTotalWorkers]: the loop of lines 184-186 adds up the
    [nWorkers] of the runners in an [int]. *)
Definition countNTotalWorkers (s : Service) : Z :=
  fold_left (fun nTotalWorkers r => wrap64 (nTotalWorkers + nWorkers r))
            (runners s) 0.

Inductive Signal : Type := SIGINT | SIGTERM.

Inductive ServiceLog : Type :=
| LogCannotRun                               (* line 132 *)
| LogReceivedSignal (sig : Signal) (nListeners nRunners : Z)   (* line 140 *)
| LogTerminating.                            (* line 170 *)

(** What the main goroutine does, in the order in which it does it. *)
Inductive Event : Type :=
| EvLog (l : ServiceLog)
| EvSignalNotify                             (* line 138 *)
| EvSignalReceived (sig : Signal)            (* line 139 *)
| EvGoListener (listener : nat)              (* line 151 *)
| EvStopCall (i : nat)                       (* line 158, the call *)
| EvStopReturn (i : nat) (e : option error)  (* line 158, its return *)
| EvCleanUpCall                              (* line 163, the call *)
| EvCleanUpReturn (e : option error)         (* line 163, its return *)
| EvExit (code : Z).                         (* os.Exit *)

(** What the rest of the world does to the main goroutine: the signal
    that arrives (none: the process waits for ever), what the call of
    [Stop] on the runner at an index returns (nothing: the call never
    returns) and what the clean-up function returns. *)
Record World := {
  signal : option Signal;
  stopReturns : nat -> option (option error);
  cleanUpReturns : option (option error)
}.

(** How a piece of the main goroutine ends: it goes on with a value,
    the process exits, or it blocks for ever. *)
Inductive Outcome (A : Type) : Type :=
| Continue (a : A)
| Exited (code : Z)
| Blocked.

Arguments Continue {A} a.
Arguments Exited {A} code.
Arguments Blocked {A}.

(** A piece of the main goroutine: from the events so far to its
    outcome and the events then. *)
Definition Proc (A : Type) : Type := list Event -> Outcome A * list Event.

Definition ret {A : Type} (a : A) : Proc A := fun tr => (Continue a, tr).

Definition bind {A B : Type} (m : Proc A) (k : A -> Proc B) : Proc B :=
  fun tr =>
    match m tr with
    | (Continue a, tr') => k a tr'
    | (Exited code, tr') => (Exited code, tr')
    | (Blocked, tr') => (Blocked, tr')
    end.

Notation "x <- m ;; k" := (bind m (fun x => k))
  (at level 61, m at next level, right associativity).
Notation "m ;;; k" := (bind m (fun _ => k))
  (at level 61, right associativity).

Definition emit (e : Event) : Proc unit := fun tr => (Continue tt, tr ++ [e]).

Definition osExit {A : Type} (code : Z) : Proc A :=
  fun tr => (Exited code, tr ++ [EvExit code]).

Definition block {A : Type} : Proc A := fun tr => (Blocked, tr).

Definition logPrintf (l : ServiceLog) : Proc unit := emit (EvLog l).

(** [sig := <-signalChannel] *)
Definition receiveSignal (w : World) : Proc Signal :=
  match signal w with
  | Some sig => emit (EvSignalReceived sig) ;;; ret sig
  | None => block
  end.

(** [s.runners[i].Stop()] seen from the caller. *)
Definition callStop (w : World) (i : nat) : Proc (option error) :=
  emit (EvStopCall i) ;;;
  match stopReturns w i with
  | Some e => emit (EvStopReturn i e) ;;; ret e
  | None => block
  end.

(** [cleanUpFunc()] seen from the caller. *)
Definition callCleanUp (w : World) : Proc (option error) :=
  emit EvCleanUpCall ;;;
  match cleanUpReturns w with
  | Some e => emit (EvCleanUpReturn e) ;;; ret e
  | None => block
  end.

(** Lines 150-152: [go s.interruptListeners[i]()] for [i] going up. *)
Fixpoint goListeners (ls : list nat) : Proc unit :=
  match ls with
  | [] => ret tt
  | l :: ls' => emit (EvGoListener l) ;;; goListeners ls'
  end.

(** Lines 157-162: [for i := len(s.runners) - 1; i >= 0; i--]; the
    argument [k] is [i + 1]. *)
Fixpoint stopRunners (w : World) (k : nat) (err : option error)
  : Proc (option error) :=
  match k with
  | O => ret err
  | S i =>
      runnerErr <- callStop w i ;;
      stopRunners w i (match runnerErr with Some _ => runnerErr | None => err end)
  end.

(** [RunWithCleanUp], service.go lines 121-175. *)
Definition RunWithCleanUp (w : World) (s : Service) : Proc unit :=
  (if (0 <? Z.of_nat (List.length (runners s))) && (countNTotalWorkers s <? 1)
   then logPrintf LogCannotRun ;;; osExit 1
   else ret tt) ;;;
  emit EvSignalNotify ;;;
  sig <- receiveSignal w ;;
  logPrintf (LogReceivedSignal sig
               (Z.of_nat (List.length (interruptListeners s)))
               (Z.of_nat (List.length (runners s)))) ;;;
  goListeners (interruptListeners s) ;;;
  err <- stopRunners w (List.length (runners s)) None ;;
  cleanUpErr <- callCleanUp w ;;
  let err := match cleanUpErr with Some _ => cleanUpErr | None => err end in
  logPrintf LogTerminating ;;;
  match err with
  | Some _ => osExit 1
  | None => osExit 0
  end.

(** [Run]: [RunWithCleanUp] with a clean-up function that returns nil. *)
Definition Run (w : World) (s : Service) : Proc unit :=
  RunWithCleanUp
    {| signal := signal w; stopReturns := stopReturns w;
       cleanUpReturns := Some None |} s.

(** The events of the shutdown sequence proper. *)
Definition is_shutdown_event (e : Event) : bool :=
  match e with
  | EvStopCall _ | EvStopReturn _ _ | EvCleanUpCall | EvCleanUpReturn _ => true
  | _ => false
  end.

(** The shutdown sequence in the words of the specification: the runners
    are stopped one after the other in the given order, each call
    returning before the next is made; a call that never returns ends
    the sequence; then [tail] follows. *)
Fixpoint stopsThen (w : World) (order : list nat) (tail : list Event)
  : list Event :=
  match order with
  | [] => tail
  | i :: rest =>
      EvStopCall i ::
      match stopReturns w i with
      | Some e => EvStopReturn i e :: stopsThen w rest tail
      | None => []
      end
  end.

Definition cleanUpSpec (w : World) : list Event :=
  EvCleanUpCall ::
  match cleanUpReturns w with
  | Some e => [EvCleanUpReturn e]
  | None => []
  end.

(** Reverse registration order of [n] runners: [n-1, ..., 1, 0]. *)
Definition reverseOrder (n : nat) : list nat := rev (seq 0 n).

Definition shutdownSpec (w : World) (n : nat) : list Event :=
  stopsThen w (reverseOrder n) (cleanUpSpec w).

(** The mathematical total of the worker counts of the runners. *)
Definition totalWorkers (s : Service) : Z :=
  fold_right Z.add 0 (map nWorkers (runners s)).

Definition is_error (e : option error) : bool :=
  match e with Some _ => true | None => false end.

(** Some call of [Stop] on the runners [0 .. n-1] returned an error. *)
Definition anyStopError (e : nat -> option error) (n : nat) : bool :=
  existsb (fun i => is_error (e i)) (seq 0 n).

(** The startup check of lines 131-134 lets the service run. *)
Definition startupCheckPasses (s : Service) : bool :=
  negb ((0 <? Z.of_nat (List.length (runners s)))
        && (countNTotalWorkers s <? 1)).

Definition svc3 : Service :=
  let c := {| InitDelayDuration := 0; InitDelayJitterDuration := 0;
              MaximumCleanUpDuration := 30 * Second; Name := "r";
              WorkerSleepDuration := 2 * Second |} in
  {| runners := [set_nWorkers 1 (NewRunner c); set_nWorkers 1 (NewRunner c);
                 set_nWorkers 1 (NewRunner c)];
     interruptListeners := [7%nat] |}.

Definition world3 : World :=
  {| signal := Some SIGTERM;
     stopReturns := fun i =>
       match i with
       | 1%nat => Some (Some (ErrWaitGroupTimeout (30 * Second)))
       | _ => Some None
       end;
     cleanUpReturns := Some None |}.

(** A piece of the main goroutine only adds events to those so far. *)
Definition extends {A : Type} (m : Proc A) : Prop :=
  forall tr, exists tr', snd (m tr) = tr ++ tr'.

Definition svc_empty_runner : Service :=
  {| runners := [NewRunner {| InitDelayDuration := 0;
                              InitDelayJitterDuration := 0;
                              MaximumCleanUpDuration := 30 * Second;
                              Name := "r0"; WorkerSleepDuration := 0 |}];
     interruptListeners := [] |}.

Definition world_quiet : World :=
  {| signal := None; stopReturns := fun _ => Some None;
     cleanUpReturns := Some None |}.

(** A configuration with a negative jitter bound, and one without
    jitter (the zero value of the field). *)
Definition negativeJitterConfig : RunnerConfig :=
  {| InitDelayDuration := 0;
     InitDelayJitterDuration := - Second;
     MaximumCleanUpDuration := 30 * Second;
     Name := "negative";
     WorkerSleepDuration := 2 * Second |}.

Definition noJitterConfig : RunnerConfig :=
  {| InitDelayDuration := 10 * Second;
     InitDelayJitterDuration := 0;
     MaximumCleanUpDuration := 30 * Second;
     Name := "plain";
     WorkerSleepDuration := 2 * Second |}.

(** ** Schedules, invariants and sample runs of the Runner *)

(** The shape of a move: a step of thread [i], a step of the goroutine
    of the [Stop] call [i], a tick, or a new call. *)
Inductive move (s : State) : State -> Prop :=
| move_thread (i : nat) (ch : Choice) (t t' : Thread) (r' : Runner)
    (out : list LogMsg) (new : list Thread) :
    nth_error (threads s) i = Some t ->
    thread_step (now s) (runner s) t ch = Some (r', t', out, new) ->
    move s {| runner := r'; now := now s;
              threads := set_nth i t' (threads s) ++ new;
              logs := logs s ++ out |}
| move_waiter (i : nat) (pc : StopPc) (w : WaiterPc) (c : bool) (t' : Thread)
    (r' : Runner) (out : list LogMsg) (new : list Thread) :
    nth_error (threads s) i = Some (TStop pc w c) ->
    waiter_step (runner s) pc w c = Some (r', t', out, new) ->
    move s {| runner := r'; now := now s;
              threads := set_nth i t' (threads s) ++ new;
              logs := logs s ++ out |}
| move_tick (dt : Z) :
    0 <= dt ->
    move s {| runner := runner s; now := now s + dt;
              threads := threads s; logs := logs s |}
| move_call (t : Thread) :
    t = TStop S_Lock Wt_None false \/ t = TStart N_Lock ->
    move s {| runner := runner s; now := now s;
              threads := threads s ++ [t]; logs := logs s |}.

Definition holders (s : State) : Z := count_if holds_mutex (threads s).

(** At most one thread is in a critical section, and only while the
    mutex is locked. *)
Definition mutex_ok (s : State) : Prop :=
  holders s <= Z.b2z (mutex (runner s)).

(** The mutex is locked and no thread is in a critical section: no
    thread will ever unlock it. *)
Definition orphaned (s : State) : Prop :=
  mutex (runner s) = true /\ holders s = 0.

Definition returned_already (t : Thread) : bool :=
  match t with
  | TStop (S_Returned (Some ErrAlreadyStopping)) _ _ => true
  | _ => false
  end.

(** The configuration of [runners.NewExampleRunner]. *)
Definition exampleConfig : RunnerConfig :=
  {| InitDelayDuration := 10 * Second;
     InitDelayJitterDuration := 10 * Second;
     MaximumCleanUpDuration := 30 * Second;
     Name := "Example[r0]";
     WorkerSleepDuration := 2 * Second |}.

Definition steps_of (i : nat) (n : nat) : list Action :=
  repeat (ActThread i ChNone) n.

(** A call of [Stop] by thread [i] in which the wait group is found
    empty at once: lines 94-95, 101-111, then the goroutine of lines
    107-111, then [case <-c]. *)
Definition stop_at_once (i : nat) : list Action :=
  steps_of i 7 ++ [ActWaiter i; ActWaiter i; ActWaiter i; ActThread i ChRecv].

(** A call of [StartNewWorker] by thread [i]: lines 143-146, 59. *)
Definition start_worker (i : nat) : list Action := steps_of i 4.

Definition state_after (c : RunnerConfig) (acts : list Action) : State :=
  match run (init_state c) acts with
  | Some s => s
  | None => init_state c
  end.

(** [Stop] has been called once on a runner without workers and has
    returned; a second call has just been made (thread 1). *)
Definition sched_second_stop : list Action :=
  ActCallStop :: stop_at_once 0 ++ [ActCallStop].

Definition state_second_stop : State :=
  Eval vm_compute in state_after exampleConfig sched_second_stop.

(** The second call has returned; a third call is made (thread 2). *)
Definition sched_third_stop : list Action :=
  sched_second_stop ++ steps_of 1 3 ++ [ActCallStop].

Definition state_third_stop : State :=
  Eval vm_compute in state_after exampleConfig sched_third_stop.

(** [StartNewWorker] has been called and has returned, the worker
    (thread 1) has drawn its start delay and sleeps. *)
Definition sched_worker_started : list Action :=
  ActCallStartNewWorker :: start_worker 0 ++ [ActThread 1 (ChDraw (1 # 2))].

Definition state_worker_started : State :=
  Eval vm_compute in state_after exampleConfig sched_worker_started.

Definition sched_stop_idle_worker : list Action :=
  ActCallStop :: stop_at_once 2.

Definition state_stopped_idle_worker : State :=
  Eval vm_compute in
    match run state_worker_started sched_stop_idle_worker with
    | Some s => s
    | None => state_worker_started
    end.

(** A worker that has gone past the test of line 79 into the branch
    that parks it. *)
Definition past_check (t : Thread) : bool :=
  match t with
  | TWorker (W_ParkLock | W_ParkDec | W_ParkLog | W_ParkUnlock
            | W_ParkSleep _ | W_Exit) => true
  | _ => false
  end.

Definition count_ok (s : State) : Prop :=
  nWorkers (runner s) = wrap64 (count_if counted (threads s)).

Definition park_ok (s : State) : Prop :=
  isStopping (runner s) = false -> count_if past_check (threads s) = 0.





(** One turn of the loop of lines 74-89 by worker [i] while the runner
    is not stopping: [r.run(worker)] (lines 158-160), the work function
    returns [e], lines 76-79, the sleep of line 88 during [dt]. *)
Definition iteration (i : nat) (e : option error) (dt : Z) : list Action :=
  [ActThread i ChNone; ActThread i (ChWorkReturns e); ActThread i ChNone;
   ActThread i ChNone; ActThread i ChNone; ActTick dt; ActThread i ChNone].

Fixpoint iterations (n : nat) (i : nat) (e : option error) (dt : Z)
  : list Action :=
  match n with
  | O => []
  | S n' => iteration i e dt ++ iterations n' i e dt
  end.

Definition error_log (e : option error) : list LogMsg :=
  match e with
  | Some err => [LogError err]
  | None => []
  end.

(** The state [s] with thread [i], the runner, the log and the clock
    replaced. *)
Definition with_thread (s : State) (i : nat) (t : Thread) (r : Runner)
  (lg : list LogMsg) (nw : Z) : State :=
  {| runner := r; now := nw; threads := set_nth i t (threads s); logs := lg |}.

(** What holds in every state of a turn of the loop: the counter and
    the flag are those of the start, and no thread has come or gone. *)
Definition loop_keeps (s st : State) : Prop :=
  nWorkers (runner st) = nWorkers (runner s) /\
  isStopping (runner st) = isStopping (runner s) /\
  List.length (threads st) = List.length (threads s).

(** The worker (thread 1) of [state_worker_started] has slept its start
    delay and is at the top of its loop. *)
Definition state_worker_looping : State :=
  Eval vm_compute in
    match run state_worker_started [ActTick (16 * Second); ActThread 1 ChNone]
    with
    | Some s => s
    | None => state_worker_started
    end.

Definition wg_ok (s : State) : Prop :=
  wg (runner s) = count_if in_flight (threads s).

(** ** The float64 model against the IEEE 754 specification of the
    Standard Library

    [SpecFloat] gives binary64 operations on sign, mantissa and
    exponent; the start delay is computed a second time with them. *)
Definition SF2Q (x : spec_float) : Q :=
  match x with
  | S754_finite s m e =>
      ((if s then - inject_Z (Zpos m) else inject_Z (Zpos m)) * pow2 e)%Q
  | _ => 0%Q
  end.

Definition sf_of_int (n : Z) : spec_float := binary_normalize 53 1024 n 0 false.

Definition Seconds_sf (d : Duration) : spec_float :=
  SFadd 53 1024 (sf_of_int (Z.quot d Second))
        (SFdiv 53 1024 (sf_of_int (Z.rem d Second)) (sf_of_int 1000000000)).

Definition jitterDelay_sf (j : Duration) (f : spec_float) : Duration :=
  wrap64 (wrap64 (Qtrunc (SF2Q (SFmul 53 1024 (Seconds_sf j) f))) * Second).

Definition sample_durations : list Duration :=
  [1; 999999999; 1000000000; 1500000000; 1999999999; 10000000000;
   86400000000000; 9007199254740993; 9223372036854775807].

(** 0, 1/2, the largest float64 below 1, 0.1, 2^-53 and 2/3. *)
Definition sample_draws : list spec_float :=
  [S754_zero false;
   S754_finite false 4503599627370496 (-53);
   S754_finite false 9007199254740991 (-53);
   S754_finite false 7205759403792794 (-56);
   S754_finite false 4503599627370496 (-105);
   S754_finite false 6004799503160661 (-53)].

(** A call of [Stop] at the assignment of line 101. *)
Definition at_set (t : Thread) : bool :=
  match t with
  | TStop S_Set _ _ => true
  | _ => false
  end.

(** A call of [Stop] that has set the flag: it is past line 101, or
    has returned nil or the timeout error. *)
Definition past_set (t : Thread) : bool :=
  match t with
  | TStop (S_Unlock | S_Log | S_Go | S_After | S_Select _ | S_TimedOut
          | S_Returned None | S_Returned (Some (ErrWaitGroupTimeout _))) _ _ =>
      true
  | _ => false
  end.

(** A call of [Stop] that has found the flag unset at line 95. *)
Definition effective (t : Thread) : bool := at_set t || past_set t.

Definition stop_once_ok (s : State) : Prop :=
  count_if at_set (threads s) + count_if past_set (threads s) <= 1 /\
  (isStopping (runner s) = false -> count_if past_set (threads s) = 0) /\
  (isStopping (runner s) = true -> count_if at_set (threads s) = 0).

(** The errors that a call of [Stop] on a runner of configuration [c]
    can return. *)
Definition stop_error_ok (c : RunnerConfig) (e : option error) : Prop :=
  e = None \/ e = Some ErrAlreadyStopping \/
  e = Some (ErrWaitGroupTimeout (MaximumCleanUpDuration c)).

Definition stop_results_ok (s : State) : Prop :=
  forall i e w c,
    nth_error (threads s) i = Some (TStop (S_Returned e) w c) ->
    stop_error_ok (config (runner s)) e.

Definition deadlines_ok (s : State) : Prop :=
  forall i deadline w c,
    nth_error (threads s) i = Some (TStop (S_Select deadline) w c) ->
    deadline <= now s + MaximumCleanUpDuration (config (runner s)).

(** A call of [Stop] (thread 2) on the runner with one sleeping worker
    has reached its [select]. *)
Definition state_in_select : State :=
  Eval vm_compute in
    match run state_worker_started (ActCallStop :: steps_of 2 7) with
    | Some s => s
    | None => state_worker_started
    end.

(** A call of [Stop] (thread 2) has just been made on the runner with
    one sleeping worker. *)
Definition state_stop_called : State :=
  Eval vm_compute in
    match run state_worker_started [ActCallStop] with
    | Some s => s
    | None => state_worker_started
    end.

(** Go's [NewRunner(service, config)], runner.go lines 48-55: the new
    runner is installed in the service. *)
Definition NewRunnerIn (s : Service) (c : RunnerConfig) : Service :=
  installRunner s (NewRunner c).

Definition is_listener_event (e : Event) : bool :=
  match e with
  | EvGoListener _ => true
  | _ => false
  end.

(** A call of [Stop] on a runner at index [i] or above, or its return. *)
Definition stop_event_from (i : nat) (e : Event) : bool :=
  match e with
  | EvStopCall j | EvStopReturn j _ => (i <=? j)%nat
  | _ => false
  end.

(** A piece of the main goroutine adds only events that satisfy [p]. *)
Definition adds {A : Type} (p : Event -> bool) (m : Proc A) : Prop :=
  forall tr, exists tr', snd (m tr) = tr ++ tr' /\ forallb p tr' = true.

Definition world_hang : World :=
  {| signal := Some SIGINT;
     stopReturns := fun i =>
       match i with
       | 1%nat => None
       | _ => Some None
       end;
     cleanUpReturns := Some None |}.

(** A call of [StartNewWorker] that has returned, and a worker
    goroutine. *)
Definition start_returned (t : Thread) : bool :=
  match t with
  | TStart N_Returned => true
  | _ => false
  end.

Definition is_worker (t : Thread) : bool :=
  match t with
  | TWorker _ => true
  | _ => false
  end.

(** Every call of [StartNewWorker] that has returned has left one worker
    goroutine, and there is no other worker goroutine. *)
Definition spawn_ok (s : State) : Prop :=
  count_if start_returned (threads s) = count_if is_worker (threads s).

(** A runner on which [StartNewWorker] has returned at least once and
    [Stop] has not yet set the flag. *)
Definition started (s : State) : Prop :=
  reachable s /\ isStopping (runner s) = false /\
  Z.of_nat (List.length (threads s)) <= MaxInt64 /\
  1 <= count_if start_returned (threads s).

(** ** runners.ExampleRunner *)

(** The configuration that [NewExampleRunner(s, id)] gives its runner. *)
Definition exampleRunnerConfig (id : string) : RunnerConfig :=
  {| InitDelayDuration := 10 * Second;
     InitDelayJitterDuration := 10 * Second;
     MaximumCleanUpDuration := 30 * Second;
     Name := "Example[" ++ id ++ "]";
     WorkerSleepDuration := 2 * Second |}.

(** [busyWork := (int)(5 * rand.Float64())] of [ExampleRunner.work]; [f]
    is the value drawn by [rand.Float64()]. *)
Definition busyWork (f : F64) : Z :=
  int64_of_float (fmul (float64_of_int 5) f).

(** [time.Duration(busyWork) * time.Second], the time that [work]
    sleeps. *)
Definition busySleep (f : F64) : Duration := wrap64 (busyWork f * Second).

(** [ExampleRunner.work]: how long the invocation takes and what it
    returns. *)
Definition work (f : F64) : Duration * option error := (busySleep f, None).

(* ================================================================== *)
(** * Part D: configuration, version, flags and the constructor        *)
(* ================================================================== *)

(** The constructor [NewServiceWithOptions] (service.go lines 42-98) and
    what it calls, as a sequential program that leaves a trace like the
    one of Part C.  What the program reads from outside (the command
    line, the environment, the files, the JSON library, the objects that
    the consumer of the package passes in) is given by a [Host] and by
    the arguments. *)

(** What [fmt.Println] is given: a string, or the [*debug.BuildInfo] of
    flags.go line 63 (the nil pointer is [None]). *)
Inductive Line : Type :=
| LineText (s : string)
| LineBuild (build : option string).

Inductive StartupLog : Type :=
| LogVersionWarning (err : error)            (* service.go line 63 *)
| LogPlatformConfigError (err : error)       (* service.go line 72 *)
| LogAdditionalConfigError (err : error)     (* service.go line 83 *)
| LogBanner                                  (* service.go line 93 *)
| LogVersionSummary (program hash : string)  (* version.go line 57 *)
| LogConfigSummary                           (* config.go line 42 *)
| LogConfigEnvironment (env : string)        (* config.go line 43 *)
| LogConfigVerbose (verbose : bool).         (* config.go line 44 *)

Inductive StartupEvent : Type :=
| SFlagParse                                 (* flag.Parse() *)
| SFlaggerParse                              (* options.AdditionalFlagger.Parse() *)
| SLogSetFlags (timestamp : bool)            (* log.SetFlags *)
| SLog (l : StartupLog)                      (* log.Printf *)
| SPrintln (l : Line)                        (* fmt.Println *)
| SConfigurerLoad                            (* options.AdditionalConfigurer.Load() *)
| SConfigurerReadProperty (queryPath : string)
                                             (* configurer.ReadProperty *)
| SFlaggerRun                                (* flagger.Run() *)
| SPanic                                     (* a method called on a nil interface *)
| SExit (code : Z).                          (* os.Exit *)

Definition Startup (A : Type) : Type :=
  list StartupEvent -> Outcome A * list StartupEvent.

Definition sret {A : Type} (a : A) : Startup A := fun tr => (Continue a, tr).

Definition sbind {A B : Type} (m : Startup A) (k : A -> Startup B)
  : Startup B :=
  fun tr =>
    match m tr with
    | (Continue a, tr') => k a tr'
    | (Exited code, tr') => (Exited code, tr')
    | (Blocked, tr') => (Blocked, tr')
    end.

Notation "x <~ m ;; k" := (sbind m (fun x => k))
  (at level 61, m at next level, right associativity).
Notation "m ~~ k" := (sbind m (fun _ => k))
  (at level 61, right associativity).

Definition semit (e : StartupEvent) : Startup unit :=
  fun tr => (Continue tt, tr ++ [e]).

Definition sExit {A : Type} (code : Z) : Startup A :=
  fun tr => (Exited code, tr ++ [SExit code]).

(** A method call on a nil interface value panics; the runtime then ends
    the process with status 2. *)
Definition sPanic {A : Type} : Startup A :=
  fun tr => (Exited 2, tr ++ [SPanic]).

Definition slog (l : StartupLog) : Startup unit := semit (SLog l).
Definition println (l : Line) : Startup unit := semit (SPrintln l).

(** ** config/config.go *)

(** [type Configurer interface] as the constructor uses an additional
    configurer: what its [Load] returns and what its [ReadProperty]
    returns for a query path. *)
Record Configurer := {
  configurerLoad : option error;
  configurerReadProperty : string -> string * option error
}.

(** [type Config struct] *)
Record Config := {
  Env : string;
  LogFile : string;
  VerboseLogging : bool
}.

(** [&config.Config{}] *)
Definition Config_zero : Config := {| Env := ""; LogFile := ""; VerboseLogging := false |}.

(** [func (c *Config) Validate() error] *)
Definition Config_Validate (c : Config) : option error := None.

(** [func (c *Config) LogSummary()] *)
Definition Config_LogSummary (c : Config) : Startup unit :=
  slog LogConfigSummary ~~
  slog (LogConfigEnvironment (Env c)) ~~
  slog (LogConfigVerbose (VerboseLogging c)).

Section LoadConfig.

(** [LoadConfig(c Configurer)] works on the struct behind the
    interface: [decodeJson filename c] gives the struct after the file
    [filename] has been decoded into it and the error of [decodeJson]
    (config.go lines 121-137), [Validate] is the method of the
    struct. *)
Variable Cfg : Type.
Variable decodeJson : string -> Cfg -> Cfg * option error.
Variable Validate : Cfg -> option error.

(** [goEnv] is [os.Getenv("GO_ENV")]. *)
Definition LoadConfig (goEnv : string) (c : Cfg) : Cfg * option error :=
  let env := if (String.length goEnv <? 1)%nat then "development"%string
             else goEnv in
  let '(c, err) :=
    if String.eqb env "development"
    then decodeJson "config-production.json" c
    else (c, None) in
  match err with
  | Some e => (c, Some e)
  | None =>
      let '(c, err) := decodeJson ("config-" ++ env ++ ".json")%string c in
      match err with
      | Some e => (c, Some e)
      | None => (c, Validate c)
      end
  end.

End LoadConfig.

(** ** service/version.go *)

(** [type Build struct] *)
Record Build := {
  BuildNumber : Z;
  Hash : string;
  ShortHash : string
}.

Definition Build_zero : Build := {| BuildNumber := 0; Hash := ""; ShortHash := "" |}.

(** [fmt.Sprintf("%d", n)] for an [int]. *)
Definition sprintf_d (n : Z) : string := NilEmpty.string_of_int (Z.to_int n).

(** [func (b *Build) BuildHash() string]:
    [fmt.Sprintf("%d-%s", b.BuildNumber, b.ShortHash)]. *)
Definition BuildHash (b : Build) : string :=
  (sprintf_d (BuildNumber b) ++ "-" ++ ShortHash b)%string.

(** [type Version struct]; the build time is kept as its text, and the
    field [Build] is [Version_Build] here. *)
Record Version := {
  Version_Build : Build;
  BuildTime : string;
  Pipeline : string;
  Resources : Build
}.

(** [&Version{}] *)
Definition Version_zero : Version :=
  {| Version_Build := Build_zero; BuildTime := ""; Pipeline := "";
     Resources := Build_zero |}.

(** [func (v *Version) VersionHash() string] *)
Definition VersionHash (v : Version) : string :=
  BuildHash (Version_Build v).

(** [func (v *Version) LogSummary()]; [program] is
    [filepath.Base(os.Args[0])]. *)
Definition Version_LogSummary (program : string) (v : Version)
  : Startup unit :=
  slog (LogVersionSummary program (VersionHash v)).

(** [func (v *Version) ToJson() (string, error)]; [marshal] is
    [json.Marshal]. *)
Definition ToJson (marshal : Version -> string + error) (v : Version)
  : string * option error :=
  match marshal v with
  | inr err => (""%string, Some err)
  | inl jsonBytes => (jsonBytes, None)
  end.

(** [NewVersion(packageFS *embed.FS)]: [packageFS] is [None] for the nil
    pointer and otherwise its [ReadFile]; [decode] is the JSON decoder
    applied to a fresh [Version]. *)
Definition NewVersion (decode : string -> Version + error)
  (packageFS : option (string -> string + error))
  : Version * option error :=
  match packageFS with
  | None => (Version_zero, Some (ErrOther "packageFS is not defined"))
  | Some readFile =>
      match readFile "version.json"%string with
      | inr err => (Version_zero, Some err)
      | inl versionJson =>
          match decode versionJson with
          | inr err => (Version_zero, Some err)
          | inl ret => (ret, None)
          end
      end
  end.

(** ** What the constructor reads from outside *)

Record Host := {
  (** the values of the four flags after [flag.Parse()] *)
  buildInfoFlag : bool;
  doesShowTimestampFlag : bool;
  propertyFlag : string;
  versionFlag : bool;
  (** [filepath.Base(os.Args[0])] and [os.Getenv("GO_ENV")] *)
  program : string;
  goEnv : string;
  (** [decodeJson] on a [*config.Config] *)
  decodeConfig : string -> Config -> Config * option error;
  (** [ReadConfigProperty] on a [*config.Config]: the value, or the
      error with which it returns the empty string (config.go lines
      84-119) *)
  readConfigProperty : Config -> string -> string + error;
  (** the JSON decoder and encoder on a [Version] *)
  decodeVersion : string -> Version + error;
  marshalVersion : Version -> string + error;
  (** [debug.ReadBuildInfo()]: the build information when the second
      result is true, [None] (a nil pointer) when it is false *)
  readBuildInfo : option string
}.

(** [func (c *Config) Load() error] and [ReadProperty]. *)
Definition Config_Load (h : Host) (c : Config) : Config * option error :=
  LoadConfig Config (decodeConfig h) Config_Validate (goEnv h) c.

Definition Config_ReadProperty (h : Host) (c : Config) (queryPath : string)
  : string * option error :=
  match readConfigProperty h c queryPath with
  | inl value => (value, None)
  | inr err => (""%string, Some err)
  end.

(** ** service/flags.go *)

(** [type Flagger interface] as the constructor uses an additional
    flagger: [Parse] returns; [Run] ends the process with a status or
    returns ([None]). *)
Record Flagger := {
  flaggerRun : option Z
}.

(** [type Flags struct]; the field [Version] is [Flags_Version] here. *)
Record Flags := {
  BuildInfo : bool;
  DoesShowTimestamp : bool;
  Property : string;
  Flags_Version : bool
}.

(** [NewFlags] followed by [Parse]. *)
Definition Flags_Parse (h : Host) : Flags :=
  {| BuildInfo := buildInfoFlag h;
     DoesShowTimestamp := doesShowTimestampFlag h;
     Property := propertyFlag h;
     Flags_Version := versionFlag h |}.

(** [func (f *Flags) HasProperty() bool] *)
Definition HasProperty (f : Flags) : bool := (0 <? String.length (Property f))%nat.

(** [func (f *Flags) Run()], lines 56-75; [v] is [f.service.Version]. *)
Definition Flags_Run (h : Host) (f : Flags) (v : Version) : Startup unit :=
  (if BuildInfo f then
     let build := readBuildInfo h in
     let err := match build with Some _ => true | None => false end in
     (if err then
        println (LineText "unable to read build info from debug runtime") ~~
        sExit 1
      else sret tt) ~~
     println (LineBuild build) ~~
     sExit 0
   else sret tt) ~~
  (if Flags_Version f then
     let '(json, err) := ToJson (marshalVersion h) v in
     (if is_error err then
        println (LineText "{}") ~~
        sExit 1
      else sret tt) ~~
     println (LineText json) ~~
     sExit 0
   else sret tt).

(** [func (f *Flags) RunWithConfigurer(configurer config.Configurer)],
    lines 79-100; [c] is [f.service.Config]. *)
Definition RunWithConfigurer (h : Host) (f : Flags) (c : Config)
  (configurer : option Configurer) : Startup unit :=
  if HasProperty f then
    let '(value, err) := Config_ReadProperty h c (Property f) in
    (if is_error err
        && match configurer with None => true | Some _ => false end
     then println (LineText value) ~~ sExit 1
     else sret tt) ~~
    (if negb (is_error err)
     then println (LineText value) ~~ sExit 0
     else sret tt) ~~
    match configurer with
    | None => sPanic
    | Some cf =>
        semit (SConfigurerReadProperty (Property f)) ~~
        let '(value, err) := configurerReadProperty cf (Property f) in
        println (LineText value) ~~
        (if is_error err then sExit 1 else sret tt) ~~
        sExit 0
    end
  else sret tt.

(** [func (f *Flags) RunWithFlagger(flagger Flagger)] *)
Definition RunWithFlagger (flagger : option Flagger) : Startup unit :=
  match flagger with
  | Some fl =>
      semit SFlaggerRun ~~
      match flaggerRun fl with
      | Some code => sExit code
      | None => sret tt
      end
  | None => sret tt
  end.

(** ** service/service.go: the constructor *)

(** [type ServiceOptions struct] *)
Record ServiceOptions := {
  AdditionalConfigurer : option Configurer;
  AdditionalFlagger : option Flagger
}.

(** The [*Service] that the constructor returns: the three fields that
    it sets, and the runners and interrupt listeners of Part C. *)
Record NewServiceResult := {
  serviceConfig : Config;
  serviceFlags : Flags;
  serviceVersion : Version;
  service : Service
}.

(** [NewServiceWithOptions], service.go lines 42-98. *)
Definition NewServiceWithOptions (h : Host)
  (packageFS : option (string -> string + error)) (options : ServiceOptions)
  : Startup NewServiceResult :=
  semit SFlagParse ~~
  let f := Flags_Parse h in
  (match AdditionalFlagger options with
   | Some _ => semit SFlaggerParse
   | None => sret tt
   end) ~~
  (if DoesShowTimestamp f
   then semit (SLogSetFlags true)
   else semit (SLogSetFlags false)) ~~
  let '(v, err) := NewVersion (decodeVersion h) packageFS in
  (match err with
   | Some e => if negb (HasProperty f)
               then slog (LogVersionWarning e)
               else sret tt
   | None => sret tt
   end) ~~
  let '(c, err) := Config_Load h Config_zero in
  (match err with
   | Some e =>
       (if negb (HasProperty f)
        then slog (LogPlatformConfigError e)
        else sret tt) ~~
       sExit 1
   | None => sret tt
   end) ~~
  (match AdditionalConfigurer options with
   | Some cf =>
       semit SConfigurerLoad ~~
       match configurerLoad cf with
       | Some e =>
           (if negb (HasProperty f)
            then slog (LogAdditionalConfigError e)
            else sret tt) ~~
           sExit 1
       | None => sret tt
       end
   | None => sret tt
   end) ~~
  Flags_Run h f v ~~
  RunWithConfigurer h f c (AdditionalConfigurer options) ~~
  RunWithFlagger (AdditionalFlagger options) ~~
  slog LogBanner ~~
  Version_LogSummary (program h) v ~~
  Config_LogSummary c ~~
  sret {| serviceConfig := c; serviceFlags := f; serviceVersion := v;
          service := {| runners := []; interruptListeners := [] |} |}.

(** [NewService(packageFS)] *)
Definition NewService (h : Host)
  (packageFS : option (string -> string + error)) : Startup NewServiceResult :=
  NewServiceWithOptions h packageFS
    {| AdditionalConfigurer := None; AdditionalFlagger := None |}.

(** A piece of startup adds only events that satisfy [p]; if it ends the
    process the status satisfies [q], if it returns the value satisfies
    [r]. *)
Definition runs {A : Type} (p : StartupEvent -> bool) (q : Z -> bool)
  (r : A -> bool) (m : Startup A) : Prop :=
  forall tr, exists tr',
    snd (m tr) = tr ++ tr' /\ forallb p tr' = true /\
    match fst (m tr) with
    | Continue a => r a = true
    | Exited code => q code = true
    | Blocked => False
    end.

(** Startup events that are no log line; those that neither print a line
    nor call into an object of the consumer; those that do not print
    build information. *)
Definition is_log_event (e : StartupEvent) : bool :=
  match e with
  | SLog _ => true
  | _ => false
  end.

Definition serves_nothing (e : StartupEvent) : bool :=
  match e with
  | SPrintln _ | SConfigurerLoad | SConfigurerReadProperty _ | SFlaggerRun
  | SPanic => false
  | _ => true
  end.

Definition prints_no_build (e : StartupEvent) : bool :=
  match e with
  | SPrintln (LineBuild (Some _)) => false
  | _ => true
  end.

Definition zero_or_one (code : Z) : bool := (code =? 0) || (code =? 1).

(** A host for the examples: only the production configuration is in
    place, the property [env] can be read from it, and the runtime has
    build information but no version file. *)
Definition host_example (env : string) (flags : bool * bool * string * bool)
  : Host :=
  let '(buildInfo, showTimestamp, property, version) := flags in
  {| buildInfoFlag := buildInfo;
     doesShowTimestampFlag := showTimestamp;
     propertyFlag := property;
     versionFlag := version;
     program := "platform";
     goEnv := env;
     decodeConfig := fun filename c =>
       if String.eqb filename "config-production.json"
       then ({| Env := "production"; LogFile := LogFile c;
                VerboseLogging := VerboseLogging c |}, None)
       else (c, Some (ErrOther "no such file"));
     readConfigProperty := fun c queryPath =>
       if String.eqb queryPath "env" then inl (Env c)
       else inr (ErrOther "unable to find value");
     decodeVersion := fun _ => inr (ErrOther "unexpected end of JSON input");
     marshalVersion := fun _ => inl "{}"%string;
     readBuildInfo := Some "go1.22"%string |}.

Definition no_options : ServiceOptions :=
  {| AdditionalConfigurer := None; AdditionalFlagger := None |}.

(** The lines that a startup trace prints and the log lines that it
    writes, in order. *)
Definition printed (tr : list StartupEvent) : list Line :=
  flat_map (fun e => match e with SPrintln l => [l] | _ => [] end) tr.

Definition logged (tr : list StartupEvent) : list StartupLog :=
  flat_map (fun e => match e with SLog l => [l] | _ => [] end) tr.

(** What lets the constructor return: no one-shot flag is set, the
    configurations load, and the [Run] of an additional flagger
    returns. *)
Definition starts (h : Host) (options : ServiceOptions) : Prop :=
  buildInfoFlag h = false /\ versionFlag h = false /\
  propertyFlag h = ""%string /\
  snd (Config_Load h Config_zero) = None /\
  (forall cf, AdditionalConfigurer options = Some cf ->
              configurerLoad cf = None) /\
  (forall fl, AdditionalFlagger options = Some fl -> flaggerRun fl = None).

Definition any_event (e : StartupEvent) : bool := true.
Definition any_status (code : Z) : bool := true.

(** An additional configurer for the examples: it knows the property
    [port] and nothing else. *)
Definition configurer_example : Configurer :=
  {| configurerLoad := None;
     configurerReadProperty := fun queryPath =>
       if String.eqb queryPath "port" then ("8080"%string, None)
       else (""%string, Some (ErrOther "unable to find value")) |}.

Definition is_digit (a : ascii) : bool :=
  let n := nat_of_ascii a in (48 <=? n)%nat && (n <=? 57)%nat.

Fixpoint all_digits (s : string) : bool :=
  match s with
  | EmptyString => true
  | String a s' => is_digit a && all_digits s'
  end.





(* ================================================================== *)
(** * Properties                                                       *)
(* ================================================================== *)

(** ** Part C: the Service *)

Lemma wrap64_id (z : Z) : in_int64 z -> wrap64 z = z.
Proof.
  unfold in_int64, MinInt64, MaxInt64, wrap64. intros H.
  rewrite Z.mod_small; lia.
Qed.

Lemma wrap64_range (z : Z) : in_int64 (wrap64 z).
Proof.
  unfold in_int64, MinInt64, MaxInt64, wrap64.
  pose proof (Z.mod_pos_bound (z + 2 ^ 63) (2 ^ 64) ltac:(lia)). lia.
Qed.

Lemma fold_count_acc (l : list Runner) (acc : Z) :
  (forall r, In r l -> 0 <= nWorkers r) ->
  0 <= acc ->
  acc + fold_right Z.add 0 (map nWorkers l) <= MaxInt64 ->
  fold_left (fun n r => wrap64 (n + nWorkers r)) l acc
  = acc + fold_right Z.add 0 (map nWorkers l).
Proof.
  revert acc. induction l as [|r l IH]; intros acc Hpos Hacc Hmax; simpl in *.
  - lia.
  - assert (Hr : 0 <= nWorkers r) by (apply Hpos; now left).
    assert (Hl : 0 <= fold_right Z.add 0 (map nWorkers l)).
    { clear - Hpos. induction l as [|x l IH]; simpl; [lia|].
      assert (0 <= nWorkers x) by (apply Hpos; right; now left).
      assert (0 <= fold_right Z.add 0 (map nWorkers l)).
      { apply IH. intros y [Hy|Hy]; apply Hpos; [now left | right; now right]. }
      lia. }
    rewrite wrap64_id by (unfold in_int64, MinInt64, MaxInt64 in *; lia).
    rewrite IH; [lia | | lia | lia].
    intros y Hy. apply Hpos. now right.
Qed.

(** When no addition overflows, the loop of [countNTotalWorkers]
    computes the total of the worker counts. *)
Lemma countNTotalWorkers_total (s : Service) :
  (forall r, In r (runners s) -> 0 <= nWorkers r) ->
  totalWorkers s <= MaxInt64 ->
  countNTotalWorkers s = totalWorkers s.
Proof.
  intros Hpos Hmax. unfold countNTotalWorkers, totalWorkers in *.
  rewrite fold_count_acc; auto; lia.
Qed.

(** Runners created one after the other are registered in that order:
    the runner created first has the index 0. *)
Lemma installRunner_order (s : Service) (rs : list Runner) :
  runners (fold_left installRunner rs s) = runners s ++ rs.
Proof.
  revert s. induction rs as [|r rs IH]; intros s; simpl.
  - now rewrite app_nil_r.
  - rewrite IH. simpl. now rewrite <- app_assoc.
Qed.

Lemma goListeners_trace (ls : list nat) (tr : list Event) :
  goListeners ls tr = (Continue tt, tr ++ map EvGoListener ls).
Proof.
  revert tr. induction ls as [|l ls IH]; intros tr; simpl.
  - unfold ret. now rewrite app_nil_r.
  - unfold bind, emit. rewrite IH. now rewrite <- app_assoc.
Qed.

Lemma reverseOrder_S (n : nat) : reverseOrder (S n) = n :: reverseOrder n.
Proof.
  unfold reverseOrder. rewrite seq_S, rev_app_distr. reflexivity.
Qed.

Lemma filter_snoc_shutdown (tr : list Event) (e : Event) :
  filter is_shutdown_event (tr ++ [e])
  = filter is_shutdown_event tr ++ (if is_shutdown_event e then [e] else []).
Proof. rewrite filter_app. reflexivity. Qed.

(** The shutdown events of the loop over the runners followed by any
    continuation whose own shutdown events are [tail]. *)
Lemma stopRunners_then (w : World) (K : option error -> Proc unit)
  (tail : list Event) :
  (forall err tr,
      filter is_shutdown_event (snd (K err tr))
      = filter is_shutdown_event tr ++ tail) ->
  forall k err tr,
    filter is_shutdown_event (snd (bind (stopRunners w k err) K tr))
    = filter is_shutdown_event tr ++ stopsThen w (reverseOrder k) tail.
Proof.
  intros HK. induction k as [|i IH]; intros err tr.
  - simpl. unfold bind, ret. apply HK.
  - rewrite reverseOrder_S. simpl.
    unfold bind in IH. unfold bind, callStop, bind, emit.
    destruct (stopReturns w i) as [e|] eqn:He.
    + unfold bind, emit, ret.
      rewrite IH, !filter_snoc_shutdown. simpl.
      rewrite <- !app_assoc. reflexivity.
    + unfold block. simpl. rewrite filter_snoc_shutdown. reflexivity.
Qed.

(** When every call of [Stop] returns, the loop ends with the last
    error seen, and there is one exactly when a call returned one. *)
Lemma stopRunners_returns (w : World) (e : nat -> option error) :
  forall k err tr,
    (forall i, (i < k)%nat -> stopReturns w i = Some (e i)) ->
    exists err' tr',
      stopRunners w k err tr = (Continue err', tr') /\
      is_error err' = is_error err || anyStopError e k.
Proof.
  induction k as [|i IH]; intros err tr H.
  - exists err, tr. split; [reflexivity|]. unfold anyStopError. simpl.
    now rewrite orb_false_r.
  - simpl. unfold bind, callStop, bind, emit.
    rewrite (H i) by lia. unfold bind, emit, ret.
    destruct (IH (match e i with Some _ => e i | None => err end)
                 ((tr ++ [EvStopCall i]) ++ [EvStopReturn i (e i)]))
      as (err' & tr' & Hrun & Herr).
    { intros j Hj. apply H. lia. }
    exists err', tr'. split; [exact Hrun|].
    rewrite Herr. unfold anyStopError. rewrite seq_S, existsb_app. simpl.
    destruct (e i), (is_error err),
      (existsb (fun j => is_error (e j)) (seq 0 i)); reflexivity.
Qed.

Lemma startup_passes (w : World) (s : Service) (K : Proc unit) (tr : list Event) :
  startupCheckPasses s = true ->
  bind (if (0 <? Z.of_nat (List.length (runners s)))
           && (countNTotalWorkers s <? 1)
        then logPrintf LogCannotRun ;;; osExit 1
        else ret tt) (fun _ => K) tr = K tr.
Proof.
  unfold startupCheckPasses. intros H.
  destruct ((0 <? Z.of_nat (List.length (runners s)))
            && (countNTotalWorkers s <? 1)); [discriminate|].
  reflexivity.
Qed.

(** C2. After the termination signal the runners are stopped in reverse
    registration order, one call of [Stop] returning before the next is
    made, and the clean-up function is called only after the last of
    them has returned: the calls and returns that the main goroutine
    makes are those of [shutdownSpec]. *)
Theorem RunWithCleanUp_stops_in_reverse_order (w : World) (s : Service)
  (sig : Signal) :
  startupCheckPasses s = true ->
  signal w = Some sig ->
  filter is_shutdown_event (snd (RunWithCleanUp w s []))
  = shutdownSpec w (List.length (runners s)).
Proof.
  intros Hcheck Hsig. unfold RunWithCleanUp.
  rewrite (startup_passes w s _ _ Hcheck).
  unfold bind at 1. unfold emit at 1.
  unfold bind at 1. unfold receiveSignal. rewrite Hsig.
  unfold bind at 1. unfold emit at 1. unfold ret at 1.
  unfold bind at 1. unfold logPrintf at 1. unfold emit at 1.
  unfold bind at 1. rewrite goListeners_trace.
  unfold shutdownSpec.
  rewrite (stopRunners_then w _ (cleanUpSpec w)).
  - rewrite filter_app. simpl.
    replace (filter is_shutdown_event (map EvGoListener (interruptListeners s)))
      with (@nil Event); [reflexivity|].
    induction (interruptListeners s); simpl; auto.
  - intros err tr. unfold bind, callCleanUp, bind, emit, cleanUpSpec.
    destruct (cleanUpReturns w) as [c|].
    + unfold bind, emit, ret, logPrintf, emit.
      destruct c, err; unfold osExit; simpl;
        rewrite !filter_snoc_shutdown; simpl;
        rewrite ?app_nil_r, <- ?app_assoc; reflexivity.
    + unfold block. simpl. rewrite filter_snoc_shutdown. reflexivity.
Qed.

Lemma RunWithCleanUp_stops_in_reverse_order_witness :
  startupCheckPasses svc3 = true /\
  signal world3 = Some SIGTERM /\
  filter is_shutdown_event (snd (RunWithCleanUp world3 svc3 []))
  = [EvStopCall 2; EvStopReturn 2 None;
     EvStopCall 1; EvStopReturn 1 (Some (ErrWaitGroupTimeout (30 * Second)));
     EvStopCall 0; EvStopReturn 0 None;
     EvCleanUpCall; EvCleanUpReturn None].
Proof.
  split; [reflexivity|]. split; [reflexivity|].
  apply (RunWithCleanUp_stops_in_reverse_order world3 svc3 SIGTERM);
    reflexivity.
Defined.

Lemma extends_bind {A B : Type} (m : Proc A) (k : A -> Proc B) :
  extends m -> (forall a, extends (k a)) -> extends (bind m k).
Proof.
  intros Hm Hk tr. unfold bind. destruct (Hm tr) as [tr1 H1].
  destruct (m tr) as [[a|code|] tr2]; simpl in H1; subst tr2.
  - destruct (Hk a (tr ++ tr1)) as [tr3 H3]. exists (tr1 ++ tr3).
    rewrite H3. now rewrite app_assoc.
  - now exists tr1.
  - now exists tr1.
Qed.

Lemma extends_emit (e : Event) : extends (emit e).
Proof. intros tr. now exists [e]. Qed.

Lemma extends_ret {A : Type} (a : A) : extends (ret a).
Proof. intros tr. exists []. simpl. now rewrite app_nil_r. Qed.

Lemma extends_block {A : Type} : extends (@block A).
Proof. intros tr. exists []. simpl. now rewrite app_nil_r. Qed.

Lemma extends_osExit {A : Type} (code : Z) : extends (@osExit A code).
Proof. intros tr. now exists [EvExit code]. Qed.

Lemma extends_callStop (w : World) (i : nat) : extends (callStop w i).
Proof.
  unfold callStop. apply extends_bind; [apply extends_emit|]. intros _.
  destruct (stopReturns w i).
  - apply extends_bind; [apply extends_emit | intros; apply extends_ret].
  - apply extends_block.
Qed.

Lemma extends_stopRunners (w : World) (k : nat) :
  forall err, extends (stopRunners w k err).
Proof.
  induction k as [|i IH]; intros err; simpl.
  - apply extends_ret.
  - apply extends_bind; [apply extends_callStop | intros; apply IH].
Qed.

Lemma extends_shutdown (w : World) (s : Service) :
  extends (A := unit)
    (sig <- receiveSignal w ;;
     logPrintf (LogReceivedSignal sig
                  (Z.of_nat (List.length (interruptListeners s)))
                  (Z.of_nat (List.length (runners s)))) ;;;
     goListeners (interruptListeners s) ;;;
     err <- stopRunners w (List.length (runners s)) None ;;
     cleanUpErr <- callCleanUp w ;;
     let err := match cleanUpErr with Some _ => cleanUpErr | None => err end in
     logPrintf LogTerminating ;;;
     match err with
     | Some _ => osExit 1
     | None => osExit 0
     end).
Proof.
  apply extends_bind.
  { unfold receiveSignal. destruct (signal w).
    - apply extends_bind; [apply extends_emit | intros; apply extends_ret].
    - apply extends_block. }
  intros sig. apply extends_bind; [apply extends_emit|]. intros _.
  apply extends_bind.
  { intros tr. rewrite goListeners_trace. eexists. reflexivity. }
  intros _. apply extends_bind; [apply extends_stopRunners|]. intros err.
  apply extends_bind.
  { unfold callCleanUp. apply extends_bind; [apply extends_emit|]. intros _.
    destruct (cleanUpReturns w).
    - apply extends_bind; [apply extends_emit | intros; apply extends_ret].
    - apply extends_block. }
  intros cleanUpErr. cbv zeta.
  apply extends_bind; [apply extends_emit|]. intros _.
  destruct (match cleanUpErr with Some _ => cleanUpErr | None => err end);
    apply extends_osExit.
Qed.

(** C3. With at least one runner registered and a total worker count of
    zero, [RunWithCleanUp] logs and exits with status 1 at once, before
    it asks for or waits for a signal.  With no runner registered, or a
    total worker count of at least one, the check passes and the next
    thing the main goroutine does is to wait for the signal (for ever,
    if none arrives). *)
Theorem RunWithCleanUp_startup_check (w : World) (s : Service) :
  (forall r, In r (runners s) -> 0 <= nWorkers r) ->
  totalWorkers s <= MaxInt64 ->
  (runners s <> [] -> totalWorkers s = 0 ->
   RunWithCleanUp w s [] = (Exited 1, [EvLog LogCannotRun; EvExit 1])) /\
  (runners s = [] \/ 1 <= totalWorkers s ->
   startupCheckPasses s = true /\
   (exists tr, snd (RunWithCleanUp w s []) = EvSignalNotify :: tr) /\
   (signal w = None -> RunWithCleanUp w s [] = (Blocked, [EvSignalNotify]))).
Proof.
  intros Hpos Hmax.
  pose proof (countNTotalWorkers_total s Hpos Hmax) as Hcount.
  split.
  - intros Hne Hzero. unfold RunWithCleanUp.
    destruct (runners s) as [|r rs] eqn:Hr; [congruence|].
    rewrite Hcount, Hzero. reflexivity.
  - intros Hok.
    assert (Hpass : startupCheckPasses s = true).
    { unfold startupCheckPasses. rewrite Hcount.
      destruct Hok as [Hnil|Hone].
      - rewrite Hnil. reflexivity.
      - replace (totalWorkers s <? 1) with false
          by (symmetry; apply Z.ltb_ge; lia).
        now rewrite andb_false_r. }
    split; [exact Hpass|]. split.
    + unfold RunWithCleanUp. rewrite (startup_passes w s _ _ Hpass).
      unfold bind at 1. unfold emit at 1.
      destruct (extends_shutdown w s ([] ++ [EvSignalNotify])) as [tr Htr].
      exists tr. exact Htr.
    + intros Hsig. unfold RunWithCleanUp.
      rewrite (startup_passes w s _ _ Hpass).
      unfold bind at 1. unfold emit at 1.
      unfold bind at 1. unfold receiveSignal. rewrite Hsig. reflexivity.
Qed.

Lemma RunWithCleanUp_startup_check_witness :
  RunWithCleanUp world_quiet svc_empty_runner []
  = (Exited 1, [EvLog LogCannotRun; EvExit 1]) /\
  RunWithCleanUp world_quiet svc3 [] = (Blocked, [EvSignalNotify]).
Proof.
  split.
  - apply (RunWithCleanUp_startup_check world_quiet svc_empty_runner).
    + simpl. intros r [<-|[]]. simpl. lia.
    + vm_compute. discriminate.
    + discriminate.
    + reflexivity.
  - apply (RunWithCleanUp_startup_check world_quiet svc3).
    + simpl. intros r [<-|[<-|[<-|[]]]]; simpl; lia.
    + vm_compute. discriminate.
    + right. vm_compute. discriminate.
    + reflexivity.
Defined.

(** C7. When the signal has arrived, every call of [Stop] has returned
    and the clean-up function has returned, the process exits with
    status 0 if no call of [Stop] and not the clean-up function returned
    an error, and with status 1 if one of them did. *)
Theorem RunWithCleanUp_exit_status (w : World) (s : Service) (sig : Signal)
  (e : nat -> option error) (c : option error) :
  startupCheckPasses s = true ->
  signal w = Some sig ->
  (forall i, (i < List.length (runners s))%nat -> stopReturns w i = Some (e i)) ->
  cleanUpReturns w = Some c ->
  let code :=
    if anyStopError e (List.length (runners s)) || is_error c then 1 else 0 in
  exists tr, RunWithCleanUp w s [] = (Exited code, tr ++ [EvExit code]).
Proof.
  intros Hcheck Hsig Hstops Hclean code. unfold RunWithCleanUp.
  rewrite (startup_passes w s _ _ Hcheck).
  unfold bind at 1. unfold emit at 1.
  unfold bind at 1. unfold receiveSignal. rewrite Hsig.
  unfold bind at 1. unfold emit at 1. unfold ret at 1.
  unfold bind at 1. unfold logPrintf at 1. unfold emit at 1.
  unfold bind at 1. rewrite goListeners_trace.
  unfold bind at 1.
  match goal with
  | |- context [stopRunners w ?k ?err ?tr] =>
      destruct (stopRunners_returns w e k err tr Hstops)
        as (err' & tr' & Hrun & Herr)
  end.
  rewrite Hrun. unfold bind, callCleanUp, bind, emit. rewrite Hclean.
  unfold bind, emit, ret, logPrintf, emit, osExit.
  simpl in Herr. subst code. rewrite <- Herr.
  destruct c, err'; simpl; eexists; reflexivity.
Qed.

Lemma RunWithCleanUp_exit_status_witness :
  exists tr, RunWithCleanUp world3 svc3 [] = (Exited 1, tr ++ [EvExit 1]).
Proof.
  apply (RunWithCleanUp_exit_status world3 svc3 SIGTERM
           (fun i => match i with
                     | 1%nat => Some (ErrWaitGroupTimeout (30 * Second))
                     | _ => None
                     end) None).
  - reflexivity.
  - reflexivity.
  - intros [|[|[|i]]] Hi; reflexivity.
  - reflexivity.
Defined.

(** ** Part B: the Runner *)

(** *** Lists of threads *)

Lemma nth_error_set_nth_eq {A : Type} (l : list A) (i : nat) (x y : A) :
  nth_error l i = Some y -> nth_error (set_nth i x l) i = Some x.
Proof.
  revert i. induction l as [|z l IH]; intros [|i] H; simpl in *;
    try discriminate; auto.
Qed.

Lemma nth_error_set_nth_neq {A : Type} (l : list A) (i j : nat) (x : A) :
  i <> j -> nth_error (set_nth i x l) j = nth_error l j.
Proof.
  revert i j. induction l as [|z l IH]; intros [|i] [|j] H; simpl;
    try reflexivity; try congruence.
  apply IH. congruence.
Qed.

Lemma length_set_nth {A : Type} (l : list A) (i : nat) (x : A) :
  List.length (set_nth i x l) = List.length l.
Proof.
  revert i. induction l as [|z l IH]; intros [|i]; simpl; auto.
Qed.

Lemma nth_error_app_old {A : Type} (l new : list A) (i : nat) (x : A) :
  nth_error l i = Some x -> nth_error (l ++ new) i = Some x.
Proof.
  intros H. rewrite nth_error_app1; [exact H|].
  apply nth_error_Some. congruence.
Qed.

Lemma count_if_app {A : Type} (p : A -> bool) (l1 l2 : list A) :
  count_if p (l1 ++ l2) = count_if p l1 + count_if p l2.
Proof.
  unfold count_if. rewrite filter_app, length_app. lia.
Qed.

Lemma count_if_nonneg {A : Type} (p : A -> bool) (l : list A) :
  0 <= count_if p l.
Proof. unfold count_if. lia. Qed.

Lemma count_if_cons {A : Type} (p : A -> bool) (x : A) (l : list A) :
  count_if p (x :: l) = Z.b2z (p x) + count_if p l.
Proof.
  unfold count_if. simpl. destruct (p x); cbn [Z.b2z List.length]; lia.
Qed.

Lemma count_if_set_nth {A : Type} (p : A -> bool) (l : list A) (i : nat)
  (t t' : A) :
  nth_error l i = Some t ->
  count_if p (set_nth i t' l) = count_if p l - Z.b2z (p t) + Z.b2z (p t').
Proof.
  revert i. induction l as [|z l IH]; intros [|i] H; simpl in *;
    try discriminate.
  - injection H as ->. rewrite !count_if_cons. lia.
  - rewrite !count_if_cons, (IH i H). lia.
Qed.

Lemma count_if_zero_forall {A : Type} (p : A -> bool) (l : list A) :
  count_if p l = 0 ->
  forall i t, nth_error l i = Some t -> p t = false.
Proof.
  induction l as [|z l IH]; intros H [|i] t Hn; try discriminate;
    rewrite count_if_cons in H; pose proof (count_if_nonneg p l) as Hl;
    cbn [nth_error] in Hn.
  - injection Hn as ->. destruct (p t); cbn [Z.b2z] in H; [lia|reflexivity].
  - apply (IH ltac:(destruct (p z); cbn [Z.b2z] in H; lia) i t Hn).
Qed.

Lemma count_if_pos {A : Type} (p : A -> bool) (l : list A) (i : nat) (t : A) :
  nth_error l i = Some t -> p t = true -> 1 <= count_if p l.
Proof.
  intros Hn Hp. destruct (Z.eq_dec (count_if p l) 0) as [H0|H0].
  - rewrite (count_if_zero_forall p l H0 i t Hn) in Hp. discriminate.
  - pose proof (count_if_nonneg p l). lia.
Qed.

(** *** Schedules *)

Lemma run_app (s : State) (acts1 acts2 : list Action) :
  run s (acts1 ++ acts2)
  = match run s acts1 with
    | Some s' => run s' acts2
    | None => None
    end.
Proof.
  revert s. induction acts1 as [|a acts1 IH]; intros s; simpl; auto.
  destruct (do_action s a); auto.
Qed.

Lemma reaches_refl (s : State) : reaches s s.
Proof. now exists []. Qed.

Lemma reaches_trans (s1 s2 s3 : State) :
  reaches s1 s2 -> reaches s2 s3 -> reaches s1 s3.
Proof.
  intros [a1 H1] [a2 H2]. exists (a1 ++ a2). now rewrite run_app, H1.
Qed.

Lemma reaches_step (s s' : State) (a : Action) :
  do_action s a = Some s' -> reaches s s'.
Proof. intros H. exists [a]. simpl. now rewrite H. Qed.

(** A property kept by every move holds along every schedule. *)
Lemma reaches_invariant (P : State -> Prop) :
  (forall s a s', P s -> do_action s a = Some s' -> P s') ->
  forall s s', P s -> reaches s s' -> P s'.
Proof.
  intros Hstep s s' HP [acts Hrun]. revert s HP Hrun.
  induction acts as [|a acts IH]; intros s HP Hrun; simpl in Hrun.
  - now injection Hrun as <-.
  - destruct (do_action s a) as [s1|] eqn:Ha; [|discriminate].
    apply (IH s1); eauto.
Qed.

Lemma do_action_move (s s' : State) (a : Action) :
  do_action s a = Some s' -> move s s'.
Proof.
  destruct a as [i ch|i|dt| |]; simpl; intros H.
  - destruct (nth_error (threads s) i) as [t|] eqn:Hn; [|discriminate].
    unfold commit in H.
    destruct (thread_step (now s) (runner s) t ch) as [[[[r' t'] out] new]|]
      eqn:Hs; [|discriminate].
    injection H as <-. eapply move_thread; eauto.
  - destruct (nth_error (threads s) i) as [[pc|pc w c|pc]|] eqn:Hn;
      try discriminate.
    unfold commit in H.
    destruct (waiter_step (runner s) pc w c) as [[[[r' t'] out] new]|]
      eqn:Hs; [|discriminate].
    injection H as <-. eapply move_waiter; eauto.
  - destruct (0 <=? dt) eqn:Hdt; [|discriminate].
    injection H as <-. apply move_tick. now apply Z.leb_le.
  - injection H as <-. apply move_call. now left.
  - injection H as <-. apply move_call. now right.
Qed.

(** *** The mutex *)

Ltac thread_cases Hs :=
  match type of Hs with
  | thread_step _ _ ?t _ = _ =>
      destruct t as [[]|[] ? ?|[]]
  | waiter_step _ _ ?w _ = _ => destruct w
  end;
  cbn [thread_step worker_step stop_step start_step waiter_step] in Hs;
  repeat match type of Hs with
         | context [match ?x with _ => _ end] => destruct x eqn:?
         end;
  try discriminate;
  injection Hs as <- <- <- <-.

Ltac count_step Hn :=
  cbn [runner threads now logs];
  rewrite ?count_if_app, ?(count_if_set_nth _ _ _ _ _ Hn);
  cbn [count_if filter List.length Z.of_nat holds_mutex counted in_flight
       wants_mutex Z.b2z runner threads now logs
       mutex isStopping nWorkers wg config
       set_mutex set_isStopping set_nWorkers set_wg].

Lemma mutex_ok_move (s s' : State) : mutex_ok s -> move s s' -> mutex_ok s'.
Proof.
  unfold mutex_ok, holders. intros Hok Hm.
  destruct Hm as [i ch t t' r' out new Hn Hs|i pc w c t' r' out new Hn Hs
                 |dt Hdt|t Ht].
  - pose proof (count_if_pos holds_mutex _ _ _ Hn) as Hpos.
    thread_cases Hs; count_step Hn; cbn [holds_mutex] in Hpos;
      try specialize (Hpos eq_refl);
      destruct (mutex (runner s)); cbn [Z.b2z] in *;
      try discriminate; lia.
  - thread_cases Hs; count_step Hn; destruct pc; cbn [Z.b2z]; lia.
  - exact Hok.
  - cbn [runner threads]. rewrite count_if_app.
    destruct Ht as [-> | ->]; cbn; lia.
Qed.


(** Nothing ever releases an orphaned mutex, and a thread that waits
    for it stays where it is: at its call of [Lock]. *)
Lemma orphaned_move (s s' : State) :
  orphaned s -> move s s' ->
  orphaned s' /\
  forall k t, nth_error (threads s) k = Some t -> wants_mutex t = true ->
              exists t', nth_error (threads s') k = Some t' /\
                         wants_mutex t' = true.
Proof.
  unfold orphaned, holders. intros [Hlock Hnone] Hm.
  destruct Hm as [i ch t t' r' out new Hn Hs|i pc w c t' r' out new Hn Hs
                 |dt Hdt|t Ht].
  - pose proof (count_if_zero_forall holds_mutex _ Hnone _ _ Hn) as Hnot.
    assert (Hkeep : forall k u, k <> i -> nth_error (threads s) k = Some u ->
                    nth_error (set_nth i t' (threads s) ++ new) k = Some u).
    { intros k u Hk Hu. apply nth_error_app_old.
      rewrite nth_error_set_nth_neq by congruence. exact Hu. }
    thread_cases Hs; cbn [holds_mutex] in Hnot; try discriminate;
      try (rewrite Hlock in *; discriminate);
      (split;
       [ split; [exact Hlock | count_step Hn; cbn [Z.b2z]; lia]
       | intros k u Hu Hw; destruct (Nat.eq_dec k i) as [->|Hk];
         [ rewrite Hn in Hu; injection Hu as <-; discriminate
         | exists u; split; [now apply Hkeep | exact Hw] ] ]).
  - pose proof (count_if_zero_forall holds_mutex _ Hnone _ _ Hn) as Hnot.
    assert (Hkeep : forall k u, k <> i -> nth_error (threads s) k = Some u ->
                    nth_error (set_nth i t' (threads s) ++ new) k = Some u).
    { intros k u Hk Hu. apply nth_error_app_old.
      rewrite nth_error_set_nth_neq by congruence. exact Hu. }
    thread_cases Hs; destruct pc; cbn [holds_mutex] in Hnot;
      try discriminate;
      (split;
       [ split; [exact Hlock | count_step Hn; cbn [Z.b2z]; lia]
       | intros k u Hu Hw; destruct (Nat.eq_dec k i) as [->|Hk];
         [ rewrite Hn in Hu; injection Hu as <-;
           eexists; split;
           [ apply nth_error_app_old; eapply nth_error_set_nth_eq; eauto
           | exact Hw ]
         | exists u; split; [now apply Hkeep | exact Hw] ] ]).
  - split; [split; assumption|]. intros k t Hk Hw. now exists t.
  - split.
    + split; [exact Hlock|]. cbn [threads]. rewrite count_if_app.
      destruct Ht as [-> | ->]; cbn; lia.
    + intros k u Hu Hw. exists u. split; [now apply nth_error_app_old|auto].
Qed.

Lemma orphaned_reaches (s s' : State) :
  orphaned s -> reaches s s' ->
  orphaned s' /\
  forall k t, nth_error (threads s) k = Some t -> wants_mutex t = true ->
              exists t', nth_error (threads s') k = Some t' /\
                         wants_mutex t' = true.
Proof.
  intros Ho [acts Hrun]. revert s Ho Hrun.
  induction acts as [|a acts IH]; intros s Ho Hrun; simpl in Hrun.
  - injection Hrun as <-. split; [exact Ho|]. intros k t Hk Hw. now exists t.
  - destruct (do_action s a) as [s1|] eqn:Ha; [|discriminate].
    destruct (orphaned_move s s1 Ho (do_action_move _ _ _ Ha)) as [Ho1 Hk1].
    destruct (IH s1 Ho1 Hrun) as [Ho' Hk']. split; [exact Ho'|].
    intros k t Hk Hw. destruct (Hk1 k t Hk Hw) as (t1 & Hn1 & Hw1).
    exact (Hk' k t1 Hn1 Hw1).
Qed.

(** A thread that waits for a locked mutex cannot take a step. *)
Lemma locked_blocks (s : State) (k : nat) (t : Thread) (ch : Choice) :
  mutex (runner s) = true ->
  nth_error (threads s) k = Some t -> wants_mutex t = true ->
  do_action s (ActThread k ch) = None.
Proof.
  intros Hlock Hn Hw. cbn [do_action]. rewrite Hn.
  destruct t as [[]|[] w c|[]]; try discriminate Hw;
    cbn [thread_step worker_step stop_step start_step]; rewrite Hlock;
    reflexivity.
Qed.

Lemma already_orphans_move (s s' : State) :
  mutex_ok s ->
  (1 <= count_if returned_already (threads s) -> orphaned s) ->
  move s s' ->
  1 <= count_if returned_already (threads s') -> orphaned s'.
Proof.
  intros Hok Himp Hm Hcnt'.
  destruct (Z_le_dec 1 (count_if returned_already (threads s))) as [Hc|Hc].
  { exact (proj1 (orphaned_move s s' (Himp Hc) Hm)). }
  assert (Hz : count_if returned_already (threads s) = 0).
  { pose proof (count_if_nonneg returned_already (threads s)). lia. }
  clear Hc Himp. unfold mutex_ok, holders in Hok. unfold orphaned, holders.
  destruct Hm as [i ch t t' r' out new Hn Hs|i pc w c t' r' out new Hn Hs
                 |dt Hdt|t Ht]; cbn [threads runner] in *.
  - pose proof (count_if_pos holds_mutex _ _ _ Hn) as Hpos.
    rewrite count_if_app, (count_if_set_nth _ _ _ _ _ Hn), Hz in Hcnt'.
    thread_cases Hs; cbn in Hcnt'; try lia.
    specialize (Hpos eq_refl).
    destruct (mutex (runner s)); cbn [Z.b2z] in Hok; [|lia].
    split; [reflexivity|]. count_step Hn. cbn [Z.b2z]. lia.
  - rewrite count_if_app, (count_if_set_nth _ _ _ _ _ Hn), Hz in Hcnt'.
    pose proof (count_if_zero_forall returned_already _ Hz _ _ Hn) as Hnot.
    thread_cases Hs; cbn [returned_already] in Hcnt', Hnot;
      rewrite Hnot in Hcnt'; cbn in Hcnt'; lia.
  - lia.
  - rewrite count_if_app, Hz in Hcnt'.
    destruct Ht as [-> | ->]; cbn in Hcnt'; lia.
Qed.

(** Once a call of [Stop] has returned "already stopping", the mutex is
    locked and no thread is left to unlock it. *)
Lemma already_orphans (s : State) :
  reachable s ->
  1 <= count_if returned_already (threads s) -> orphaned s.
Proof.
  intros [c Hr].
  assert (H : mutex_ok s /\
              (1 <= count_if returned_already (threads s) -> orphaned s)).
  { apply (reaches_invariant
             (fun s => mutex_ok s /\
                 (1 <= count_if returned_already (threads s) -> orphaned s)))
      with (s := init_state c); [| |exact Hr].
    - intros s1 a s2 [Hok Himp] Ha. apply do_action_move in Ha. split.
      + eapply mutex_ok_move; eauto.
      + eapply already_orphans_move; eauto.
    - split; [unfold mutex_ok, holders; cbn; lia|]. cbn. lia. }
  apply H.
Qed.

Lemma do_thread_step (s : State) (i : nat) (ch : Choice) (t t' : Thread)
  (r' : Runner) (out : list LogMsg) (new : list Thread) :
  nth_error (threads s) i = Some t ->
  thread_step (now s) (runner s) t ch = Some (r', t', out, new) ->
  let s' := {| runner := r'; now := now s;
               threads := set_nth i t' (threads s) ++ new;
               logs := logs s ++ out |} in
  do_action s (ActThread i ch) = Some s' /\
  nth_error (threads s') i = Some t'.
Proof.
  intros Hn Hs s'. split.
  - cbn [do_action]. rewrite Hn, Hs. reflexivity.
  - subst s'. cbn [threads]. apply nth_error_app_old.
    eapply nth_error_set_nth_eq; eauto.
Qed.

(** C5. A call of [Stop] on a runner that is already stopping returns
    the "already stopping" error with the mutex still locked (the early
    return of lines 95-100 has no [Unlock]); and once such a call has
    returned, the mutex stays locked for ever: every thread that comes
    to acquire it (a further [Stop], [countNewWorker] in
    [StartNewWorker], [parkWorker] in a worker) can take no step and is
    still at its [Lock] however the system goes on. *)
Theorem Stop_already_stopping_leaves_mutex_locked (s : State) :
  reachable s ->
  (forall i w c,
      nth_error (threads s) i = Some (TStop S_Lock w c) ->
      isStopping (runner s) = true ->
      mutex (runner s) = false ->
      exists s1,
        run s [ActThread i ChNone; ActThread i ChNone; ActThread i ChNone]
        = Some s1 /\
        nth_error (threads s1) i
        = Some (TStop (S_Returned (Some ErrAlreadyStopping)) w c) /\
        mutex (runner s1) = true) /\
  (forall i w c,
      nth_error (threads s) i
      = Some (TStop (S_Returned (Some ErrAlreadyStopping)) w c) ->
      mutex (runner s) = true /\
      forall s' s'' k t,
        reaches s s' -> reaches s' s'' ->
        nth_error (threads s') k = Some t -> wants_mutex t = true ->
        (forall ch, do_action s' (ActThread k ch) = None) /\
        exists t', nth_error (threads s'') k = Some t' /\
                   wants_mutex t' = true).
Proof.
  intros Hreach. split.
  - intros i w c Hn Hstop Hfree.
    destruct (do_thread_step s i ChNone _
                (TStop S_Check w c) (set_mutex true (runner s)) [] [] Hn)
      as [Ha1 Hn1].
    { cbn. now rewrite Hfree. }
    set (s1 := {| runner := set_mutex true (runner s); now := now s;
                  threads := set_nth i (TStop S_Check w c) (threads s) ++ [];
                  logs := logs s ++ [] |}) in *.
    destruct (do_thread_step s1 i ChNone _
                (TStop S_Already w c) (runner s1) [] [] Hn1) as [Ha2 Hn2].
    { cbn. now rewrite Hstop. }
    set (s2 := {| runner := runner s1; now := now s1;
                  threads := set_nth i (TStop S_Already w c) (threads s1) ++ [];
                  logs := logs s1 ++ [] |}) in *.
    destruct (do_thread_step s2 i ChNone _
                (TStop (S_Returned (Some ErrAlreadyStopping)) w c)
                (runner s2) [LogAlreadyStopping] [] Hn2) as [Ha3 Hn3].
    { reflexivity. }
    eexists. split; [|split; [exact Hn3|reflexivity]].
    cbn [run]. rewrite Ha1, Ha2, Ha3. reflexivity.
  - intros i w c Hn.
    assert (Ho : orphaned s).
    { apply already_orphans; [exact Hreach|].
      eapply count_if_pos; eauto. }
    split; [apply Ho|].
    intros s' s'' k t Hr1 Hr2 Hk Hw.
    destruct (orphaned_reaches s s' Ho Hr1) as [Ho' _].
    split.
    + intros ch. eapply locked_blocks; eauto. apply Ho'.
    + exact (proj2 (orphaned_reaches s' s'' Ho' Hr2) k t Hk Hw).
Qed.

(** *** Concrete runs *)

Lemma Stop_already_stopping_leaves_mutex_locked_witness :
  reachable state_second_stop /\
  exists s1,
    run state_second_stop
        [ActThread 1 ChNone; ActThread 1 ChNone; ActThread 1 ChNone]
    = Some s1 /\
    nth_error (threads s1) 1%nat
    = Some (TStop (S_Returned (Some ErrAlreadyStopping)) Wt_None false) /\
    mutex (runner s1) = true.
Proof.
  assert (Hr : reachable state_second_stop).
  { exists exampleConfig, sched_second_stop. reflexivity. }
  split; [exact Hr|].
  apply (proj1 (Stop_already_stopping_leaves_mutex_locked
                  state_second_stop Hr) 1%nat Wt_None false);
    reflexivity.
Defined.

(** C4. [Stop] is called three times on a runner.  The first call
    returns nil.  The second call returns "already stopping" and leaves
    the counter and the flag as they were, but it changes the runner:
    the mutex, free before the call, is locked after it.  The third call
    does not return "already stopping": it can take no step at all. *)
Theorem Stop_third_call_blocks :
  run (init_state exampleConfig) sched_third_stop = Some state_third_stop /\
  nth_error (threads state_third_stop) 0%nat
  = Some (TStop (S_Returned None) Wt_Exit false) /\
  nth_error (threads state_third_stop) 1%nat
  = Some (TStop (S_Returned (Some ErrAlreadyStopping)) Wt_None false) /\
  isStopping (runner state_second_stop) = true /\
  mutex (runner state_second_stop) = false /\
  runner state_third_stop = set_mutex true (runner state_second_stop) /\
  nth_error (threads state_third_stop) 2%nat
  = Some (TStop S_Lock Wt_None false) /\
  forall ch, do_action state_third_stop (ActThread 2 ch) = None.
Proof.
  repeat split; try reflexivity.
Qed.

(** C1. A runner has one worker, which is still in its start delay when
    [Stop] is called.  [Stop] sets the flag and returns nil without any
    time having passed, although the active-worker count is 1 in every
    state of the call and the worker has neither run nor parked: the
    call waits for the wait group, which counts the invocations of the
    work function in flight, not the workers. *)
Theorem Stop_returns_nil_with_active_worker :
  run (init_state exampleConfig) sched_worker_started
  = Some state_worker_started /\
  run state_worker_started sched_stop_idle_worker
  = Some state_stopped_idle_worker /\
  isStopping (runner state_worker_started) = false /\
  isStopping (runner state_stopped_idle_worker) = true /\
  nth_error (threads state_stopped_idle_worker) 2%nat
  = Some (TStop (S_Returned None) Wt_Exit false) /\
  nth_error (threads state_stopped_idle_worker) 1%nat
  = Some (TWorker (W_StartSleep (16 * Second))) /\
  now state_stopped_idle_worker = now state_worker_started /\
  Forall (fun s => nWorkers (runner s) = 1 /\ wg (runner s) = 0)
         (visited state_worker_started sched_stop_idle_worker).
Proof.
  repeat split; try reflexivity.
  vm_compute. repeat constructor.
Qed.

(** *** The worker counter *)

Lemma wrap64_add_l (x y : Z) : wrap64 (wrap64 x + y) = wrap64 (x + y).
Proof.
  unfold wrap64.
  replace ((x + 2 ^ 63) mod 2 ^ 64 - 2 ^ 63 + y + 2 ^ 63)
    with ((x + 2 ^ 63) mod 2 ^ 64 + y) by lia.
  rewrite Zplus_mod_idemp_l. do 2 f_equal. lia.
Qed.

Lemma count_ok_move (s s' : State) : count_ok s -> move s s' -> count_ok s'.
Proof.
  unfold count_ok. intros Hok Hm.
  destruct Hm as [i ch t t' r' out new Hn Hs|i pc w c t' r' out new Hn Hs
                 |dt Hdt|t Ht].
  - thread_cases Hs; count_step Hn; rewrite ?Hok, ?wrap64_add_l;
      try (f_equal; lia).
    all: replace (wrap64 (count_if counted (threads s)) - 1)
           with (wrap64 (count_if counted (threads s)) + -1) by lia;
         rewrite wrap64_add_l; f_equal; lia.
  - thread_cases Hs; count_step Hn; rewrite Hok; f_equal; lia.
  - exact Hok.
  - cbn [runner threads]. rewrite count_if_app, Hok.
    destruct Ht as [-> | ->]; cbn; f_equal; lia.
Qed.

Lemma park_ok_move (s s' : State) : park_ok s -> move s s' -> park_ok s'.
Proof.
  unfold park_ok. intros Hok Hm.
  destruct Hm as [i ch t t' r' out new Hn Hs|i pc w c t' r' out new Hn Hs
                 |dt Hdt|t Ht].
  - pose proof (count_if_nonneg past_check (threads s)) as Hnn.
    pose proof (count_if_pos past_check _ _ _ Hn) as Hpos.
    thread_cases Hs; cbn [runner isStopping set_mutex set_isStopping
                            set_nWorkers set_wg]; intros Hst;
      try discriminate; try congruence;
      first [specialize (Hok Hst) | specialize (Hok eq_refl)];
      cbn [past_check] in Hpos;
      try (specialize (Hpos eq_refl); lia);
      cbn [threads]; rewrite count_if_app, (count_if_set_nth _ _ _ _ _ Hn);
      cbn; lia.
  - thread_cases Hs; cbn [runner isStopping]; intros Hst;
      specialize (Hok Hst);
      cbn [threads]; rewrite count_if_app, (count_if_set_nth _ _ _ _ _ Hn);
      cbn; lia.
  - exact Hok.
  - cbn [runner threads]. intros Hst. rewrite count_if_app, (Hok Hst).
    destruct Ht as [-> | ->]; cbn; lia.
Qed.

Lemma counters_reachable (s : State) :
  reachable s -> count_ok s /\ park_ok s.
Proof.
  intros [c Hr].
  apply (reaches_invariant (fun s => count_ok s /\ park_ok s))
    with (s := init_state c); [| |exact Hr].
  - intros s1 a s2 [H1 H2] Ha. apply do_action_move in Ha.
    split; [eapply count_ok_move | eapply park_ok_move]; eauto.
  - split; [reflexivity|]. intros _. reflexivity.
Qed.

(** What a move does to the thread at a given index: nothing, or a
    step of that thread, or a step of the goroutine of that [Stop]. *)
Lemma move_thread_at (s s' : State) :
  move s s' ->
  forall i t, nth_error (threads s) i = Some t ->
    nth_error (threads s') i = Some t \/
    (exists ch r' t' out new,
        thread_step (now s) (runner s) t ch = Some (r', t', out, new) /\
        nth_error (threads s') i = Some t' /\ runner s' = r') \/
    (exists pc w c r' t' out new,
        t = TStop pc w c /\
        waiter_step (runner s) pc w c = Some (r', t', out, new) /\
        nth_error (threads s') i = Some t' /\ runner s' = r').
Proof.
  intros Hm i t Hi.
  destruct Hm as [j ch u u' r' out new Hn Hs|j pc w c u' r' out new Hn Hs
                 |dt Hdt|u Hu]; cbn [threads runner].
  - destruct (Nat.eq_dec j i) as [->|Hji].
    + rewrite Hi in Hn. injection Hn as <-. right. left.
      exists ch, r', u', out, new. repeat split; auto.
      apply nth_error_app_old. eapply nth_error_set_nth_eq; eauto.
    + left. apply nth_error_app_old.
      now rewrite nth_error_set_nth_neq.
  - destruct (Nat.eq_dec j i) as [->|Hji].
    + rewrite Hi in Hn. injection Hn as ->. right. right.
      exists pc, w, c, r', u', out, new. repeat split; auto.
      apply nth_error_app_old. eapply nth_error_set_nth_eq; eauto.
    + left. apply nth_error_app_old.
      now rewrite nth_error_set_nth_neq.
  - now left.
  - left. now apply nth_error_app_old.
Qed.

Lemma nth_error_new {A : Type} (l new : list A) (j k : nat) (x u : A) :
  nth_error l k = None ->
  nth_error (set_nth j x l ++ new) k = Some u -> In u new.
Proof.
  intros Hk Hu. apply nth_error_None in Hk.
  rewrite nth_error_app2 in Hu by (rewrite length_set_nth; exact Hk).
  eapply nth_error_In; eauto.
Qed.





Lemma set_nth_set_nth {A : Type} (l : list A) (i : nat) (x y : A) :
  set_nth i x (set_nth i y l) = set_nth i x l.
Proof.
  revert i. induction l as [|z l IH]; intros [|i]; simpl; auto.
  now rewrite IH.
Qed.

Lemma set_nth_same {A : Type} (l : list A) (i : nat) (x : A) :
  nth_error l i = Some x -> set_nth i x l = l.
Proof.
  revert i. induction l as [|z l IH]; intros [|i] H; simpl in *;
    try discriminate; auto.
  - now injection H as ->.
  - now rewrite IH.
Qed.

Lemma with_thread_same (s : State) (i : nat) (t : Thread) :
  nth_error (threads s) i = Some t ->
  with_thread s i t (runner s) (logs s) (now s) = s.
Proof.
  intros H. unfold with_thread. rewrite (set_nth_same _ _ _ H).
  now destruct s.
Qed.

Lemma step_with_thread (s : State) (i : nat) (t0 t t' : Thread)
  (r r' : Runner) (lg out : list LogMsg) (nw : Z) (ch : Choice) :
  nth_error (threads s) i = Some t0 ->
  thread_step nw r t ch = Some (r', t', out, []) ->
  do_action (with_thread s i t r lg nw) (ActThread i ch)
  = Some (with_thread s i t' r' (lg ++ out) nw).
Proof.
  intros Hn Hs. unfold with_thread. cbn [do_action threads runner now].
  rewrite (nth_error_set_nth_eq _ _ _ _ Hn), Hs. unfold commit.
  cbn [threads now logs]. now rewrite app_nil_r, set_nth_set_nth.
Qed.

Lemma tick_with_thread (s : State) (i : nat) (t : Thread) (r : Runner)
  (lg : list LogMsg) (nw dt : Z) :
  0 <= dt ->
  do_action (with_thread s i t r lg nw) (ActTick dt)
  = Some (with_thread s i t r lg (nw + dt)).
Proof.
  intros H. unfold with_thread. cbn [do_action runner now threads logs].
  apply Z.leb_le in H. now rewrite H.
Qed.




(** *** The worker loop *)

Lemma set_wg_back (r : Runner) : set_wg (wg (set_wg (wg r + 1) r) - 1)
                                        (set_wg (wg r + 1) r) = r.
Proof. destruct r. unfold set_wg. cbn. f_equal. lia. Qed.

Lemma loop_keeps_with_thread (s : State) (i : nat) (t : Thread) (r : Runner)
  (lg : list LogMsg) (nw : Z) :
  nWorkers r = nWorkers (runner s) -> isStopping r = isStopping (runner s) ->
  loop_keeps s (with_thread s i t r lg nw).
Proof.
  intros H1 H2. unfold loop_keeps, with_thread. cbn [runner threads].
  now rewrite length_set_nth.
Qed.

Lemma run_iteration (s : State) (i : nat) (e : option error) :
  nth_error (threads s) i = Some (TWorker W_Loop) ->
  isStopping (runner s) = false ->
  let dt := Z.max 0 (WorkerSleepDuration (config (runner s))) in
  let s' := {| runner := runner s; now := now s + dt;
               threads := threads s; logs := logs s ++ error_log e |} in
  run s (iteration i e dt) = Some s' /\
  Forall (loop_keeps s) (visited s (iteration i e dt)).
Proof.
  intros Hn Hst dt s'.
  assert (Hs' : s' = with_thread s i (TWorker W_Loop) (runner s)
                       (logs s ++ error_log e) (now s + dt)).
  { unfold with_thread. now rewrite (set_nth_same _ _ _ Hn). }
  rewrite Hs'. clear Hs' s'.
  enough (Hgen : forall s0,
             s0 = with_thread s i (TWorker W_Loop) (runner s) (logs s) (now s) ->
             run s0 (iteration i e dt)
             = Some (with_thread s i (TWorker W_Loop) (runner s)
                       (logs s ++ error_log e) (now s + dt)) /\
             Forall (loop_keeps s) (visited s0 (iteration i e dt))).
  { apply Hgen. symmetry. now apply with_thread_same. }
  intros s0 ->.
  unfold iteration. cbn [run visited].
  rewrite (step_with_thread s i _ _ (TWorker W_Work)
             _ (set_wg (wg (runner s) + 1) (runner s)) _ [] _ _ Hn)
    by reflexivity.
  rewrite (step_with_thread s i _ _ (TWorker (W_Done e)) _ _ _ [] _ _ Hn)
    by reflexivity.
  rewrite (step_with_thread s i _ _ (TWorker (W_Ran e)) _ _ _ [] _ _ Hn)
    by reflexivity.
  rewrite set_wg_back.
  rewrite (step_with_thread s i _ _ (TWorker W_Check) _ (runner s) _
             (error_log e) _ _ Hn)
    by (now destruct e).
  rewrite (step_with_thread s i _ _
             (TWorker (W_Sleep (now s + WorkerSleepDuration (config (runner s)))))
             _ (runner s) _ [] _ _ Hn)
    by (cbn; now rewrite Hst).
  rewrite tick_with_thread by (subst dt; lia).
  rewrite (step_with_thread s i _ _ (TWorker W_Loop) _ (runner s) _ [] _ _ Hn).
  2:{ cbn. replace (_ <=? _) with true; [reflexivity|].
      symmetry. apply Z.leb_le. lia. }
  split.
  - rewrite !app_nil_r. reflexivity.
  - repeat (apply Forall_cons;
            [apply loop_keeps_with_thread; reflexivity|]).
    apply Forall_nil.
Qed.

Lemma visited_app (s : State) (acts1 acts2 : list Action) :
  visited s (acts1 ++ acts2)
  = visited s acts1 ++
    match run s acts1 with
    | Some s1 => tl (visited s1 acts2)
    | None => []
    end.
Proof.
  revert s. induction acts1 as [|a acts1 IH]; intros s.
  - cbn [app run visited]. now destruct acts2.
  - cbn [app run visited]. destruct (do_action s a) as [s1|]; [|reflexivity].
    now rewrite IH.
Qed.

Lemma Forall_tl {A : Type} (P : A -> Prop) (l : list A) :
  Forall P l -> Forall P (tl l).
Proof. intros H. destruct H; simpl; auto. Qed.

Lemma run_iterations (err : error) (i : nat) (n : nat) :
  forall s,
    nth_error (threads s) i = Some (TWorker W_Loop) ->
    isStopping (runner s) = false ->
    let dt := Z.max 0 (WorkerSleepDuration (config (runner s))) in
    run s (iterations n i (Some err) dt)
    = Some {| runner := runner s; now := now s + Z.of_nat n * dt;
              threads := threads s;
              logs := logs s ++ repeat (LogError err) n |} /\
    Forall (loop_keeps s) (visited s (iterations n i (Some err) dt)).
Proof.
  induction n as [|n IH]; intros s Hn Hst dt.
  - cbn [iterations run visited repeat]. split.
    + rewrite app_nil_r, Z.add_0_r. now destruct s.
    + constructor; [|constructor]. now unfold loop_keeps.
  - cbn [iterations].
    destruct (run_iteration s i (Some err) Hn Hst) as [Hrun Hall].
    fold dt in Hrun, Hall.
    set (s1 := {| runner := runner s; now := now s + dt; threads := threads s;
                  logs := logs s ++ error_log (Some err) |}) in *.
    destruct (IH s1 Hn Hst) as [Hrun1 Hall1]. cbn [runner s1] in Hrun1, Hall1.
    fold dt in Hrun1, Hall1.
    rewrite run_app, visited_app, Hrun, Hrun1. split.
    + cbn [s1 runner now threads logs error_log repeat].
      f_equal. f_equal; [lia|]. now rewrite <- app_assoc.
    + apply Forall_app. split; [exact Hall|]. apply Forall_tl.
      revert Hall1. apply Forall_impl. intros st H. exact H.
Qed.

(** C8. An error returned by the work function is logged, and that is
    all: the step after the return leaves the runner as it is and takes
    the worker to the test of the stopping flag, as it does after a
    return without error.  While the runner is not stopping, [N] turns
    of the loop with a work function that fails every time write [N]
    log lines, leave the runner, its counter and its threads as they
    were in every state on the way, and end with the worker at the top
    of its loop again. *)
Theorem work_errors_are_logged_and_contained (s : State) (i : nat)
  (err : error) :
  (forall e ch,
      nth_error (threads s) i = Some (TWorker (W_Ran e)) ->
      do_action s (ActThread i ch)
      = Some {| runner := runner s; now := now s;
                threads := set_nth i (TWorker W_Check) (threads s);
                logs := logs s ++ error_log e |}) /\
  (nth_error (threads s) i = Some (TWorker W_Loop) ->
   isStopping (runner s) = false ->
   forall N,
     let dt := Z.max 0 (WorkerSleepDuration (config (runner s))) in
     run s (iterations N i (Some err) dt)
     = Some {| runner := runner s; now := now s + Z.of_nat N * dt;
               threads := threads s;
               logs := logs s ++ repeat (LogError err) N |} /\
     Forall (loop_keeps s) (visited s (iterations N i (Some err) dt))).
Proof.
  split.
  - intros e ch Hn. cbn [do_action]. rewrite Hn.
    cbn [thread_step worker_step]. unfold commit.
    destruct e; cbn [threads now logs error_log]; now rewrite app_nil_r.
  - intros Hn Hst N. now apply run_iterations.
Qed.

Lemma work_errors_are_logged_and_contained_witness :
  nth_error (threads state_worker_looping) 1%nat = Some (TWorker W_Loop) /\
  isStopping (runner state_worker_looping) = false /\
  run state_worker_looping
      (iterations 3 1 (Some (ErrOther "boom")) (2 * Second))
  = Some {| runner := runner state_worker_looping;
            now := now state_worker_looping + 3 * (2 * Second);
            threads := threads state_worker_looping;
            logs := logs state_worker_looping
                    ++ repeat (LogError (ErrOther "boom")) 3 |} /\
  Forall (loop_keeps state_worker_looping)
         (visited state_worker_looping
                  (iterations 3 1 (Some (ErrOther "boom")) (2 * Second))).
Proof.
  split; [reflexivity|]. split; [reflexivity|].
  apply (proj2 (work_errors_are_logged_and_contained
                  state_worker_looping 1 (ErrOther "boom"))
               eq_refl eq_refl 3%nat).
Defined.

(** *** What [Stop] waits for *)

Lemma wg_ok_move (s s' : State) : wg_ok s -> move s s' -> wg_ok s'.
Proof.
  unfold wg_ok. intros Hok Hm.
  destruct Hm as [i ch t t' r' out new Hn Hs|i pc w c t' r' out new Hn Hs
                 |dt Hdt|t Ht].
  - thread_cases Hs; count_step Hn; lia.
  - thread_cases Hs; count_step Hn; lia.
  - exact Hok.
  - cbn [runner threads]. rewrite count_if_app, Hok.
    destruct Ht as [-> | ->]; cbn; lia.
Qed.

(** The counter of the wait group is the number of invocations of the
    work function in flight; it says nothing of the workers that sleep. *)
Lemma wg_counts_runs_in_flight (s : State) :
  reachable s -> wg (runner s) = count_if in_flight (threads s).
Proof.
  intros [c Hr]. apply (reaches_invariant wg_ok) with (s := init_state c).
  - intros s1 a s2 H1 Ha. eapply wg_ok_move; eauto using do_action_move.
  - reflexivity.
  - exact Hr.
Qed.

(** The goroutine of [Stop] gets past [r.wg.Wait()] exactly when no
    invocation of the work function is in flight. *)
Lemma Stop_waits_for_runs_in_flight (s : State) (i : nat) (pc : StopPc)
  (c : bool) :
  reachable s ->
  nth_error (threads s) i = Some (TStop pc Wt_Wait c) ->
  do_action s (ActWaiter i) <> None <->
  count_if in_flight (threads s) = 0.
Proof.
  intros Hr Hn. rewrite <- (wg_counts_runs_in_flight s Hr).
  cbn [do_action]. rewrite Hn. cbn [waiter_step].
  destruct (wg (runner s) =? 0) eqn:Hw.
  - apply Z.eqb_eq in Hw. split; [auto|]. intros _. discriminate.
  - apply Z.eqb_neq in Hw. split; [|contradiction].
    intros H. now contradiction H.
Qed.

(** The [select] of [Stop]: the deadline is the time of its entry plus
    [MaximumCleanUpDuration]; the timeout case can be taken exactly
    from the deadline on, the other case exactly when the goroutine has
    sent on [c].  So a call in [select] is never blocked once the
    deadline has passed. *)
Lemma Stop_select_cases (s : State) (i : nat) (w : WaiterPc) (c : bool) :
  (nth_error (threads s) i = Some (TStop S_After w c) ->
   forall ch,
     do_action s (ActThread i ch)
     = Some {| runner := runner s; now := now s;
               threads :=
                 set_nth i
                   (TStop (S_Select
                             (now s + MaximumCleanUpDuration (config (runner s))))
                          w c) (threads s);
               logs := logs s |}) /\
  (forall deadline,
      nth_error (threads s) i = Some (TStop (S_Select deadline) w c) ->
      (do_action s (ActThread i ChTimeout) <> None <-> deadline <= now s) /\
      (do_action s (ActThread i ChRecv) <> None <-> c = true)) /\
  (nth_error (threads s) i = Some (TStop S_TimedOut w c) ->
   forall ch,
     let err := ErrWaitGroupTimeout (MaximumCleanUpDuration (config (runner s))) in
     do_action s (ActThread i ch)
     = Some {| runner := runner s; now := now s;
               threads := set_nth i (TStop (S_Returned (Some err)) w c)
                                  (threads s);
               logs := logs s ++ [LogErrorStopping err] |}).
Proof.
  split; [|split].
  - intros Hn ch. cbn [do_action]. rewrite Hn.
    cbn [thread_step stop_step]. unfold commit.
    cbn [threads now logs]. now rewrite !app_nil_r.
  - intros deadline Hn. cbn [do_action]. rewrite Hn.
    cbn [thread_step stop_step]. split.
    + destruct (deadline <=? now s) eqn:Hd.
      * apply Z.leb_le in Hd. split; [auto|]. intros _. discriminate.
      * apply Z.leb_gt in Hd. split; [|lia]. intros H. now contradiction H.
    + destruct c; cbn [commit]; split; intros H;
        try reflexivity; try discriminate. now contradiction H.
  - intros Hn ch err. cbn [do_action]. rewrite Hn.
    cbn [thread_step stop_step]. unfold commit.
    cbn [threads now logs]. now rewrite !app_nil_r.
Qed.

Lemma waiter_with_thread (s : State) (i : nat) (t0 t' : Thread)
  (pc : StopPc) (w : WaiterPc) (c : bool)
  (r r' : Runner) (lg out : list LogMsg) (nw : Z) :
  nth_error (threads s) i = Some t0 ->
  waiter_step r pc w c = Some (r', t', out, []) ->
  do_action (with_thread s i (TStop pc w c) r lg nw) (ActWaiter i)
  = Some (with_thread s i t' r' (lg ++ out) nw).
Proof.
  intros Hn Hs. unfold with_thread. cbn [do_action threads runner now].
  rewrite (nth_error_set_nth_eq _ _ _ _ Hn), Hs. unfold commit.
  cbn [threads now logs]. now rewrite app_nil_r, set_nth_set_nth.
Qed.

(** X8. Whatever the number of workers, a call of [Stop] on a runner that
    is not stopping returns nil without any time passing when no
    invocation of the work function is in flight. *)
Lemma Stop_returns_at_once_when_idle (s : State) (i : nat) :
  nth_error (threads s) i = Some (TStop S_Lock Wt_None false) ->
  mutex (runner s) = false ->
  isStopping (runner s) = false ->
  wg (runner s) = 0 ->
  run s (stop_at_once i)
  = Some {| runner := set_isStopping true (runner s); now := now s;
            threads := set_nth i (TStop (S_Returned None) Wt_Exit false)
                               (threads s);
            logs := logs s ++ [LogStoppingRunner (nWorkers (runner s));
                               LogWaitgroupEmpty] |}.
Proof.
  intros Hn Hfree Hst Hwg.
  rewrite <- (with_thread_same s i _ Hn) at 1.
  unfold stop_at_once, steps_of. cbn [repeat app run].
  rewrite (step_with_thread s i _ _ (TStop S_Check Wt_None false) _
             (set_mutex true (runner s)) _ [] _ _ Hn)
    by (cbn; now rewrite Hfree).
  rewrite (step_with_thread s i _ _ (TStop S_Set Wt_None false) _
             (set_mutex true (runner s)) _ [] _ _ Hn)
    by (cbn; now rewrite Hst).
  rewrite (step_with_thread s i _ _ (TStop S_Unlock Wt_None false) _
             (set_isStopping true (set_mutex true (runner s))) _ [] _ _ Hn)
    by reflexivity.
  rewrite (step_with_thread s i _ _ (TStop S_Log Wt_None false) _
             (set_mutex false (set_isStopping true (set_mutex true (runner s))))
             _ [] _ _ Hn)
    by reflexivity.
  rewrite (step_with_thread s i _ _ (TStop S_Go Wt_None false) _ _ _
             [LogStoppingRunner (nWorkers (runner s))] _ _ Hn)
    by reflexivity.
  rewrite (step_with_thread s i _ _ (TStop S_After Wt_Wait false) _ _ _
             [] _ _ Hn)
    by reflexivity.
  rewrite (step_with_thread s i _ _
             (TStop (S_Select (now s + MaximumCleanUpDuration (config (runner s))))
                    Wt_Wait false) _ _ _ [] _ _ Hn)
    by reflexivity.
  rewrite (waiter_with_thread s i _
             (TStop (S_Select (now s + MaximumCleanUpDuration (config (runner s))))
                    Wt_Log false) _ _ _ _ _ _ [] _ Hn)
    by (cbn; now rewrite Hwg).
  rewrite (waiter_with_thread s i _
             (TStop (S_Select (now s + MaximumCleanUpDuration (config (runner s))))
                    Wt_Send false) _ _ _ _ _ _ [LogWaitgroupEmpty] _ Hn)
    by reflexivity.
  rewrite (waiter_with_thread s i _
             (TStop (S_Select (now s + MaximumCleanUpDuration (config (runner s))))
                    Wt_Exit true) _ _ _ _ _ _ [] _ Hn)
    by reflexivity.
  rewrite (step_with_thread s i _ _ (TStop (S_Returned None) Wt_Exit false)
             _ _ _ [] _ _ Hn)
    by reflexivity.
  unfold with_thread. f_equal. f_equal.
  - destruct (runner s) as [m cf st n w]. cbn in *. subst. reflexivity.
  - rewrite !app_nil_r, <- !app_assoc. reflexivity.
Qed.

(** ** Part A: float64 and the start delay *)

Lemma pow2_Qpower (e : Z) : (pow2 e == 2 ^ e)%Q.
Proof.
  unfold pow2. destruct (0 <=? e) eqn:He.
  - apply Z.leb_le in He. now rewrite (Zpower_Qpower 2 e He).
  - apply Z.leb_gt in He. rewrite (Zpower_Qpower 2 (- e)) by lia.
    rewrite <- Qpower_opp. now rewrite Z.opp_involutive.
Qed.

Lemma pow2_pos (e : Z) : (0 < pow2 e)%Q.
Proof. rewrite pow2_Qpower. now apply Qpower_0_lt. Qed.

Lemma pow2_add (a b : Z) : (pow2 (a + b) == pow2 a * pow2 b)%Q.
Proof. rewrite !pow2_Qpower. now apply Qpower_plus. Qed.

Lemma pow2_0 : (pow2 0 == 1)%Q.
Proof. reflexivity. Qed.

Lemma pow2_opp (a : Z) : (pow2 (- a) * pow2 a == 1)%Q.
Proof. rewrite <- pow2_add. now replace (- a + a) with 0 by lia. Qed.

Lemma pow2_nonneg_Z (e : Z) : 0 <= e -> pow2 e = inject_Z (2 ^ e).
Proof. intros H. unfold pow2. apply Z.leb_le in H. now rewrite H. Qed.

Lemma pow2_le (a b : Z) : a <= b -> (pow2 a <= pow2 b)%Q.
Proof.
  intros H. replace b with (a + (b - a)) by lia. rewrite pow2_add.
  rewrite (pow2_nonneg_Z (b - a)) by lia.
  assert (1 <= 2 ^ (b - a)).
  { pose proof (Z.pow_pos_nonneg 2 (b - a) ltac:(lia) ltac:(lia)). lia. }
  pose proof (pow2_pos a).
  assert (1 <= inject_Z (2 ^ (b - a)))%Q by (rewrite Zle_Qle in H0; exact H0).
  nra.
Qed.

Lemma pow2_lt (a b : Z) : a < b -> (pow2 a < pow2 b)%Q.
Proof.
  intros H. replace b with (a + 1 + (b - a - 1)) by lia.
  pose proof (pow2_le (a + 1) (a + 1 + (b - a - 1)) ltac:(lia)).
  rewrite (pow2_add a 1) in *. change (pow2 1) with (inject_Z 2) in *.
  pose proof (pow2_pos a). 
  assert (pow2 a < pow2 a * inject_Z 2)%Q.
  { change (inject_Z 2) with 2%Q. lra. }
  eapply Qlt_le_trans; eauto.
Qed.

Lemma pow2_lt_inv (a b : Z) : (pow2 a < pow2 b)%Q -> a < b.
Proof.
  intros H. destruct (Z_lt_le_dec a b) as [Hlt|Hge]; [exact Hlt|].
  apply pow2_le in Hge. lra.
Qed.

Lemma pow2_le_inv (a b : Z) : (pow2 a <= pow2 b)%Q -> a <= b.
Proof.
  intros H. destruct (Z_le_gt_dec a b) as [Hle|Hgt]; [exact Hle|].
  assert (b < a) as Hlt by lia. apply pow2_lt in Hlt. lra.
Qed.

Lemma Qinv_gt_1 (x : Q) : (0 < x)%Q -> (x < 1)%Q -> (1 < / x)%Q.
Proof.
  intros H0 H1. pose proof (Qinv_lt_0_compat x H0) as Hy.
  assert (Hxy : (x * / x == 1)%Q) by (apply Qmult_inv_r; lra).
  nra.
Qed.

Lemma ilog2_spec (x : Q) :
  (0 < x)%Q -> (pow2 (ilog2 x) <= x)%Q /\ (x < pow2 (ilog2 x + 1))%Q.
Proof.
  intros Hx. unfold ilog2. destruct (Qle_bool 1 x) eqn:H1.
  - apply Qle_bool_iff in H1.
    assert (Hn : 1 <= Qfloor x).
    { change 1 with (Qfloor 1). now apply Qfloor_resp_le. }
    destruct (Z.log2_spec (Qfloor x) ltac:(lia)) as [Hlo Hhi].
    pose proof (Z.log2_nonneg (Qfloor x)) as Hl.
    rewrite !pow2_nonneg_Z by lia.
    pose proof (Qfloor_le x) as Hfl. pose proof (Qlt_floor x) as Hfu.
    split.
    + rewrite Zle_Qle in Hlo. lra.
    + replace (Z.log2 (Qfloor x) + 1) with (Z.succ (Z.log2 (Qfloor x))) by lia.
      assert (Hs : Qfloor x + 1 <= 2 ^ Z.succ (Z.log2 (Qfloor x))) by lia.
      rewrite Zle_Qle in Hs. lra.
  - assert (Hlt : (x < 1)%Q).
    { apply Qnot_le_lt. intros H. apply Qle_bool_iff in H. congruence. }
    pose proof (Qinv_gt_1 x Hx Hlt) as Hy.
    assert (Hxy : (x * / x == 1)%Q) by (apply Qmult_inv_r; lra).
    set (y := (/ x)%Q) in *.
    pose proof (Qle_ceiling y) as Hc1. pose proof (Qceiling_lt y) as Hc2.
    assert (Hc : 1 < Qceiling y).
    { rewrite Zlt_Qlt. change (inject_Z 1) with 1%Q. lra. }
    destruct (Z.log2_up_spec (Qceiling y) Hc) as [Hlo Hhi].
    set (k := Z.log2_up (Qceiling y)) in *.
    assert (Hk : 0 < k) by (apply Z.log2_up_pos; exact Hc).
    assert (HK : (y <= pow2 k)%Q).
    { rewrite pow2_nonneg_Z by lia. rewrite Zle_Qle in Hhi. lra. }
    assert (HK' : (pow2 (k - 1) < y)%Q).
    { rewrite pow2_nonneg_Z by lia.
      replace (Z.pred k) with (k - 1) in Hlo by lia.
      assert (Hlo' : 2 ^ (k - 1) <= Qceiling y - 1) by lia.
      rewrite Zle_Qle in Hlo'. lra. }
    pose proof (pow2_opp k) as Ho. pose proof (pow2_opp (k - 1)) as Ho'.
    replace (- (k - 1)) with (- k + 1) in Ho' by lia.
    pose proof (pow2_pos (- k)). pose proof (pow2_pos (- k + 1)).
    pose proof (pow2_pos k). pose proof (pow2_pos (k - 1)).
    split.
    + apply (Qmult_le_r _ _ y); [lra|]. nra.
    + apply (Qmult_lt_r _ _ y); [lra|]. nra.
Qed.

Lemma ilog2_ge (x : Q) (k : Z) : (pow2 k <= x)%Q -> k <= ilog2 x.
Proof.
  intros H. assert (Hx : (0 < x)%Q) by (pose proof (pow2_pos k); lra).
  destruct (ilog2_spec x Hx) as [_ Hu].
  assert (Hlt : (pow2 k < pow2 (ilog2 x + 1))%Q) by lra.
  apply pow2_lt_inv in Hlt. lia.
Qed.

Lemma ilog2_lt (x : Q) (k : Z) : (0 < x)%Q -> (x < pow2 k)%Q -> ilog2 x < k.
Proof.
  intros Hx H. destruct (ilog2_spec x Hx) as [Hl _].
  assert (Hlt : (pow2 (ilog2 x) < pow2 k)%Q) by lra.
  now apply pow2_lt_inv in Hlt.
Qed.

(** Rounding to the nearest integer. *)
Lemma rne_cases (y : Q) :
  (rne y = Qfloor y /\ (y - inject_Z (Qfloor y) <= 1 # 2)%Q) \/
  (rne y = Qfloor y + 1 /\ (1 # 2 <= y - inject_Z (Qfloor y))%Q).
Proof.
  unfold rne.
  destruct (Qcompare_spec (y - inject_Z (Qfloor y)) (1 # 2)) as [H|H|H].
  - destruct (Z.even (Qfloor y)); [left|right]; split; auto; lra.
  - left. split; auto. lra.
  - right. split; auto. lra.
Qed.

Lemma rne_le_int (y : Q) (n : Z) : (y <= inject_Z n)%Q -> rne y <= n.
Proof.
  intros H. pose proof (Qfloor_le y) as Hf.
  destruct (rne_cases y) as [[-> _]|[-> Hh]].
  - rewrite Zle_Qle. lra.
  - assert (Hlt : Qfloor y < n) by (rewrite Zlt_Qlt; lra). lia.
Qed.

Lemma rne_ge_int (y : Q) (n : Z) : (inject_Z n <= y)%Q -> n <= rne y.
Proof.
  intros H. pose proof (Qlt_floor y) as Hf.
  assert (Hlt : n < Qfloor y + 1) by (rewrite Zlt_Qlt; lra).
  destruct (rne_cases y) as [[-> _]|[-> _]]; lia.
Qed.

Lemma rne_le_half (y : Q) : (inject_Z (rne y) <= y + (1 # 2))%Q.
Proof.
  pose proof (Qfloor_le y) as Hf.
  destruct (rne_cases y) as [[-> _]|[-> Hh]].
  - lra.
  - rewrite inject_Z_plus. change (inject_Z 1) with 1%Q. lra.
Qed.

Lemma rne_int (y : Q) (n : Z) : (y == inject_Z n)%Q -> rne y = n.
Proof.
  intros H. pose proof (rne_le_int y n). pose proof (rne_ge_int y n).
  assert (rne y <= n) by (apply H0; lra).
  assert (n <= rne y) by (apply H1; lra). lia.
Qed.

Lemma pow2_53 : pow2 53 = inject_Z (2 ^ 53).
Proof. reflexivity. Qed.

Lemma scale_int (b E E' : Z) :
  E' <= E ->
  (inject_Z b * pow2 E == inject_Z (b * 2 ^ (E - E')) * pow2 E')%Q.
Proof.
  intros H. replace E with ((E - E') + E') at 1 by lia.
  rewrite pow2_add, (pow2_nonneg_Z (E - E')) by lia.
  rewrite inject_Z_mult. ring.
Qed.

Lemma below_next_binade (x : Q) (b E : Z) :
  b < 2 ^ f64_prec -> (x <= inject_Z b * pow2 E)%Q ->
  (x < pow2 (f64_prec + E))%Q.
Proof.
  intros Hb Hx. rewrite pow2_add. change (pow2 f64_prec) with (inject_Z (2 ^ 53)).
  unfold f64_prec in Hb. rewrite Zlt_Qlt in Hb. pose proof (pow2_pos E). nra.
Qed.

Lemma ulp_exp_le (x : Q) (E : Z) :
  (0 < x)%Q -> (x < pow2 (f64_prec + E))%Q -> f64_emin <= E -> ulp_exp x <= E.
Proof.
  intros Hx Hlt HE. apply ilog2_lt in Hlt; [|exact Hx].
  unfold ulp_exp, f64_prec in *. lia.
Qed.

Lemma Qdiv_pow2 (x : Q) (E : Z) : (x / pow2 E * pow2 E == x)%Q.
Proof.
  pose proof (pow2_pos E). field. lra.
Qed.

(** Upper bound: rounding does not go past a float64 above. *)
Lemma round64_pos_le (x B : Q) (b E : Z) :
  (0 < x)%Q -> (x <= B)%Q -> (B == inject_Z b * pow2 E)%Q ->
  b < 2 ^ f64_prec -> f64_emin <= E ->
  (round64_pos x <= B)%Q.
Proof.
  intros Hx HxB HB Hb HE.
  assert (Hlt : (x < pow2 (f64_prec + E))%Q).
  { apply (below_next_binade x b E Hb). lra. }
  pose proof (ulp_exp_le x E Hx Hlt HE) as HEx.
  unfold round64_pos. set (Ex := ulp_exp x) in *.
  pose proof (pow2_pos Ex) as HP.
  rewrite (scale_int b E Ex HEx) in HB.
  set (n := b * 2 ^ (E - Ex)) in *.
  assert (Hy : (x / pow2 Ex <= inject_Z n)%Q).
  { apply Qle_shift_div_r; [exact HP|]. lra. }
  apply rne_le_int in Hy. rewrite Zle_Qle in Hy. rewrite HB. nra.
Qed.

(** Rounding to nearest is at most half a unit in the last place up. *)
Lemma round64_pos_half (x : Q) :
  (0 < x)%Q -> (round64_pos x <= x + pow2 (ulp_exp x) * (1 # 2))%Q.
Proof.
  intros Hx. unfold round64_pos. set (Ex := ulp_exp x).
  pose proof (pow2_pos Ex) as HP.
  pose proof (rne_le_half (x / pow2 Ex)) as Hh.
  pose proof (Qdiv_pow2 x Ex) as Hd. nra.
Qed.

(** Lower bound: rounding does not go below a power of two below. *)
Lemma round64_pos_ge_pow2 (x : Q) (k : Z) :
  f64_emin <= k -> (pow2 k <= x)%Q -> (pow2 k <= round64_pos x)%Q.
Proof.
  intros Hk Hx. pose proof (pow2_pos k) as Hpk.
  pose proof (ilog2_ge x k Hx) as Hil.
  destruct (ilog2_spec x ltac:(lra)) as [Hlo _].
  unfold round64_pos. set (Ex := ulp_exp x).
  assert (HEx : Ex <= ilog2 x) by (unfold Ex, ulp_exp, f64_prec; lia).
  pose proof (pow2_pos Ex) as HP.
  pose proof (scale_int 1 (ilog2 x) Ex HEx) as Hs.
  change (inject_Z 1) with 1%Q in Hs. rewrite Qmult_1_l in Hs.
  set (n := 1 * 2 ^ (ilog2 x - Ex)) in *.
  assert (Hy : (inject_Z n <= x / pow2 Ex)%Q).
  { apply Qle_shift_div_l; [exact HP|]. lra. }
  apply rne_ge_int in Hy. rewrite Zle_Qle in Hy.
  pose proof (pow2_le k (ilog2 x) Hil). nra.
Qed.

(** A float64 rounds to itself. *)
Lemma round64_pos_exact (x : Q) (b E : Z) :
  0 < b < 2 ^ f64_prec -> f64_emin <= E -> (x == inject_Z b * pow2 E)%Q ->
  (round64_pos x == x)%Q.
Proof.
  intros [Hb0 Hb] HE Hx. pose proof (pow2_pos E) as HPE.
  assert (Hpos : (0 < x)%Q).
  { rewrite Zlt_Qlt in Hb0. change (inject_Z 0) with 0%Q in Hb0. nra. }
  assert (Hlt : (x < pow2 (f64_prec + E))%Q).
  { apply (below_next_binade x b E Hb). lra. }
  pose proof (ulp_exp_le x E Hpos Hlt HE) as HEx.
  unfold round64_pos. set (Ex := ulp_exp x) in *.
  pose proof (pow2_pos Ex) as HP.
  rewrite (scale_int b E Ex HEx) in Hx.
  set (n := b * 2 ^ (E - Ex)) in *.
  assert (Hy : (x / pow2 Ex == inject_Z n)%Q).
  { rewrite Hx. field. lra. }
  rewrite (rne_int _ _ Hy). symmetry. exact Hx.
Qed.

Lemma round64_pos_nonneg (x : Q) : (0 < x)%Q -> (0 <= round64_pos x)%Q.
Proof.
  intros Hx. unfold round64_pos. set (Ex := ulp_exp x).
  pose proof (pow2_pos Ex) as HP.
  assert (Hy : (inject_Z 0 <= x / pow2 Ex)%Q).
  { apply Qle_shift_div_l; [exact HP|]. change (inject_Z 0) with 0%Q. lra. }
  apply rne_ge_int in Hy. rewrite Zle_Qle in Hy.
  change (inject_Z 0) with 0%Q in Hy. nra.
Qed.

(** The operations respect the equality of rationals. *)
Lemma ilog2_comp (x y : Q) : (x == y)%Q -> ilog2 x = ilog2 y.
Proof.
  intros H. unfold ilog2.
  assert (Hb : Qle_bool 1 x = Qle_bool 1 y).
  { destruct (Qle_bool 1 y) eqn:B.
    - apply Qle_bool_iff. apply Qle_bool_iff in B. lra.
    - destruct (Qle_bool 1 x) eqn:A; auto. apply Qle_bool_iff in A.
      assert (Qle_bool 1 y = true) by (apply Qle_bool_iff; lra). congruence. }
  rewrite Hb. destruct (Qle_bool 1 y); now rewrite H.
Qed.

Lemma rne_comp (x y : Q) : (x == y)%Q -> rne x = rne y.
Proof.
  intros H. unfold rne. cbv zeta.
  rewrite (Qfloor_comp x y H).
  assert (Hc : (x - inject_Z (Qfloor y) ?= 1 # 2)%Q
             = (y - inject_Z (Qfloor y) ?= 1 # 2)%Q).
  { apply Qcompare_comp; [|reflexivity]. now apply Qplus_comp. }
  now rewrite Hc.
Qed.

Lemma round64_pos_comp (x y : Q) :
  (x == y)%Q -> (round64_pos x == round64_pos y)%Q.
Proof.
  intros H. unfold round64_pos, ulp_exp. rewrite (ilog2_comp x y H).
  assert (Hr : rne (x / pow2 (Z.max (ilog2 y - (f64_prec - 1)) f64_emin))
             = rne (y / pow2 (Z.max (ilog2 y - (f64_prec - 1)) f64_emin))).
  { apply rne_comp. now rewrite H. }
  now rewrite Hr.
Qed.

Lemma round64_of_pos (x : Q) : (0 < x)%Q -> round64 x = round64_pos x.
Proof.
  intros H. unfold round64.
  destruct (Qcompare_spec x 0); try reflexivity; lra.
Qed.

Lemma round64_of_zero (x : Q) : (x == 0)%Q -> round64 x = 0%Q.
Proof.
  intros H. unfold round64.
  destruct (Qcompare_spec x 0); try reflexivity; lra.
Qed.

Lemma round64_of_neg (x : Q) : (x < 0)%Q -> round64 x = (- round64_pos (- x))%Q.
Proof.
  intros H. unfold round64.
  destruct (Qcompare_spec x 0); try reflexivity; lra.
Qed.

Lemma round64_comp (x y : Q) : (x == y)%Q -> (round64 x == round64 y)%Q.
Proof.
  intros H. destruct (Qcompare_spec x 0) as [H0|H0|H0].
  - rewrite (round64_of_zero x H0), (round64_of_zero y); [reflexivity|].
    now rewrite <- H.
  - rewrite (round64_of_neg x H0), (round64_of_neg y) by (now rewrite <- H).
    apply Qopp_comp. apply round64_pos_comp. now rewrite H.
  - rewrite (round64_of_pos x H0), (round64_of_pos y) by (now rewrite <- H).
    now apply round64_pos_comp.
Qed.

Lemma round64_nonneg (x : Q) : (0 <= x)%Q -> (0 <= round64 x)%Q.
Proof.
  intros H. destruct (Qcompare_spec x 0) as [H0|H0|H0].
  - rewrite (round64_of_zero x H0). lra.
  - lra.
  - rewrite (round64_of_pos x H0). now apply round64_pos_nonneg.
Qed.

Lemma round64_nonpos (x : Q) : (x <= 0)%Q -> (round64 x <= 0)%Q.
Proof.
  intros H. destruct (Qcompare_spec x 0) as [H0|H0|H0].
  - rewrite (round64_of_zero x H0). lra.
  - rewrite (round64_of_neg x H0).
    pose proof (round64_pos_nonneg (- x) ltac:(lra)). lra.
  - lra.
Qed.

Lemma round64_int (n : Z) :
  Z.abs n < 2 ^ f64_prec -> (round64 (inject_Z n) == inject_Z n)%Q.
Proof.
  intros Hn. destruct (Z.lt_trichotomy n 0) as [Hneg|[->|Hpos]].
  - assert (H0 : (inject_Z n < 0)%Q).
    { rewrite Zlt_Qlt in Hneg. exact Hneg. }
    rewrite (round64_of_neg _ H0).
    rewrite (round64_pos_exact (- inject_Z n) (- n) 0); [ring|lia|unfold f64_emin; lia|].
    rewrite inject_Z_opp. change (pow2 0) with 1%Q. ring.
  - reflexivity.
  - assert (H0 : (0 < inject_Z n)%Q).
    { rewrite Zlt_Qlt in Hpos. exact Hpos. }
    rewrite (round64_of_pos _ H0).
    apply (round64_pos_exact _ n 0); [lia|unfold f64_emin; lia|].
    change (pow2 0) with 1%Q. ring.
Qed.

Lemma round64_le (x B : Q) (b E : Z) :
  (x <= B)%Q -> (B == inject_Z b * pow2 E)%Q ->
  0 <= b < 2 ^ f64_prec -> f64_emin <= E ->
  (round64 x <= B)%Q.
Proof.
  intros HxB HB [Hb0 Hb] HE.
  assert (HB0 : (0 <= B)%Q).
  { rewrite Zle_Qle in Hb0. change (inject_Z 0) with 0%Q in Hb0.
    pose proof (pow2_pos E). nra. }
  destruct (Qlt_le_dec 0 x) as [Hx|Hx].
  - rewrite (round64_of_pos x Hx). eapply round64_pos_le; eauto.
  - pose proof (round64_nonpos x Hx). lra.
Qed.

Lemma round64_ge_pow2 (x : Q) (k : Z) :
  f64_emin <= k -> (pow2 k <= x)%Q -> (pow2 k <= round64 x)%Q.
Proof.
  intros Hk Hx. pose proof (pow2_pos k).
  rewrite (round64_of_pos x) by lra. now apply round64_pos_ge_pow2.
Qed.

Lemma Qdiv_nonneg (a c : Q) : (0 <= a)%Q -> (0 < c)%Q -> (0 <= a / c)%Q.
Proof.
  intros Ha Hc. apply Qle_shift_div_l; [exact Hc|]. lra.
Qed.

Lemma Qdiv_nonpos (a c : Q) : (a <= 0)%Q -> (0 < c)%Q -> (a / c <= 0)%Q.
Proof.
  intros Ha Hc. apply Qle_shift_div_r; [exact Hc|]. lra.
Qed.

Lemma float64_of_int_billion :
  (float64_of_int 1000000000 == inject_Z 1000000000)%Q.
Proof. apply round64_int. reflexivity. Qed.

(** [Seconds] of a duration that is not positive is not positive. *)
Lemma Seconds_nonpos (j : Duration) : j <= 0 -> (Seconds j <= 0)%Q.
Proof.
  intros Hj. unfold Seconds, fadd, fdiv, float64_of_int.
  assert (Hsec : Z.quot j Second <= 0).
  { replace j with (- - j) by lia. rewrite Z.quot_opp_l by discriminate.
    pose proof (Z.quot_pos (- j) Second ltac:(lia) ltac:(reflexivity)). lia. }
  assert (Hnsec : Z.rem j Second <= 0).
  { replace j with (- - j) by lia. rewrite Z.rem_opp_l by discriminate.
    pose proof (Z.rem_nonneg (- j) Second ltac:(discriminate) ltac:(lia)). lia. }
  rewrite Zle_Qle in Hsec, Hnsec. change (inject_Z 0) with 0%Q in *.
  pose proof (round64_nonpos _ Hsec) as H1.
  pose proof (round64_nonpos _ Hnsec) as H2.
  pose proof float64_of_int_billion as H3. unfold float64_of_int in H3.
  apply round64_nonpos.
  assert (H4 : (round64 (round64 (inject_Z (Z.rem j Second))
                         / round64 (inject_Z 1000000000)) <= 0)%Q).
  { apply round64_nonpos. apply Qdiv_nonpos; [exact H2|].
    rewrite H3. reflexivity. }
  lra.
Qed.

(** [Seconds] of a positive duration: between [2^-30] and the next
    whole second, and exact on whole seconds. *)
Lemma Seconds_pos (j : Duration) :
  0 < j <= MaxInt64 ->
  (pow2 (-30) <= Seconds j)%Q /\
  (Seconds j <= inject_Z (j / Second + 1))%Q /\
  (j mod Second = 0 -> (Seconds j == inject_Z (j / Second))%Q).
Proof.
  intros [Hj0 Hj]. unfold MaxInt64 in Hj.
  unfold Seconds, fadd, fdiv.
  rewrite Z.quot_div_nonneg, Z.rem_mod_nonneg by (try reflexivity; lia).
  set (sec := j / Second). set (nsec := j mod Second).
  assert (Hdm : j = Second * sec + nsec) by (apply Z.div_mod; discriminate).
  assert (Hn : 0 <= nsec < Second) by (apply Z.mod_pos_bound; reflexivity).
  assert (Hs0 : 0 <= sec) by (apply Z.div_pos; [lia|reflexivity]).
  assert (Hs1 : sec < 9223372037).
  { unfold sec. apply Z.div_lt_upper_bound; [reflexivity|].
    unfold Second. lia. }
  unfold Second in Hn, Hdm.
  pose proof (round64_int sec ltac:(unfold f64_prec; lia)) as H1.
  pose proof (round64_int nsec ltac:(unfold f64_prec; lia)) as H2.
  pose proof float64_of_int_billion as H3.
  fold (float64_of_int sec) in H1. fold (float64_of_int nsec) in H2.
  set (q := round64 (float64_of_int nsec / float64_of_int 1000000000)).
  assert (Hq : (q == round64 (inject_Z nsec / inject_Z 1000000000))%Q).
  { unfold q. apply round64_comp. now rewrite H2, H3. }
  assert (Hfrac0 : (0 <= inject_Z nsec / inject_Z 1000000000)%Q).
  { apply Qdiv_nonneg; [|reflexivity].
    destruct Hn as [Hn0 _]. rewrite Zle_Qle in Hn0. exact Hn0. }
  assert (Hfrac1 : (inject_Z nsec / inject_Z 1000000000 <= 1)%Q).
  { apply Qle_shift_div_r; [reflexivity|].
    destruct Hn as [_ Hn1]. rewrite Zlt_Qlt in Hn1. lra. }
  assert (Hq0 : (0 <= q)%Q) by (rewrite Hq; now apply round64_nonneg).
  assert (Hq1 : (q <= 1)%Q).
  { rewrite Hq. apply (round64_le _ 1 1 0); auto.
    - reflexivity.
    - unfold f64_prec; lia.
    - unfold f64_emin; lia. }
  assert (Hsum : (round64 (float64_of_int sec + q)
                  == round64 (inject_Z sec + q))%Q).
  { apply round64_comp. now rewrite H1. }
  rewrite !Hsum.
  assert (HsecQ : (0 <= inject_Z sec)%Q).
  { rewrite Zle_Qle in Hs0. exact Hs0. }
  split; [|split].
  - apply round64_ge_pow2; [unfold f64_emin; lia|].
    destruct (Z.eq_dec sec 0) as [Hz|Hnz].
    + assert (Hn1 : 1 <= nsec) by lia.
      assert (Hq30 : (pow2 (-30) <= q)%Q).
      { rewrite Hq. apply round64_ge_pow2; [unfold f64_emin; lia|].
        apply Qle_shift_div_l; [reflexivity|].
        rewrite Zle_Qle in Hn1.
        assert (Hc : (pow2 (-30) * inject_Z 1000000000 <= 1)%Q) by (vm_compute; discriminate).
        change (inject_Z 1) with 1%Q in Hn1. lra. }
      lra.
    + assert (Hs : 1 <= sec) by lia. rewrite Zle_Qle in Hs.
      change (inject_Z 1) with 1%Q in Hs.
      assert (Hc : (pow2 (-30) <= 1)%Q) by (vm_compute; discriminate).
      lra.
  - apply (round64_le _ _ (sec + 1) 0).
    + rewrite inject_Z_plus. change (inject_Z 1) with 1%Q. lra.
    + change (pow2 0) with 1%Q. ring.
    + unfold f64_prec. lia.
    + unfold f64_emin. lia.
  - intros Hmod.
    assert (Hq00 : (q == 0)%Q).
    { rewrite Hq. fold nsec in Hmod. rewrite Hmod.
      rewrite round64_of_zero; reflexivity. }
    rewrite <- (round64_int sec) at 2 by (unfold f64_prec; lia).
    apply round64_comp. rewrite Hq00. ring.
Qed.

(** The largest float64 below 1 is [1 - 2^-53]. *)
Lemma draw_le (f : F64) :
  is_random_draw f -> (f <= 1 - pow2 (-53))%Q.
Proof.
  intros [(m & E & Hm & HE & Hf) [Hf0 Hf1]].
  pose proof (pow2_pos E) as HPE.
  assert (Hp53 : (pow2 (-53) <= 1 # 2)%Q) by (vm_compute; discriminate).
  destruct (Z_le_gt_dec m 0) as [Hm0|Hm0].
  - rewrite Zle_Qle in Hm0. change (inject_Z 0) with 0%Q in Hm0. nra.
  - destruct (Z_lt_le_dec E (-53)) as [HE53|HE53].
    + assert (Hlt : (f < pow2 (f64_prec + E))%Q).
      { apply (below_next_binade f m E); [lia|]. rewrite Hf. lra. }
      pose proof (pow2_le (f64_prec + E) (-1) ltac:(unfold f64_prec; lia)) as Hle.
      change (pow2 (-1)) with (1 # 2)%Q in Hle. lra.
    + pose proof (pow2_opp E) as Ho. pose proof (pow2_pos (- E)) as HPN.
      assert (Hmlt : (inject_Z m < pow2 (- E))%Q).
      { apply (Qmult_lt_r _ _ (pow2 E)); [exact HPE|]. lra. }
      destruct (Z_le_gt_dec 0 E) as [HE0|HE0].
      * pose proof (pow2_le (- E) 0 ltac:(lia)) as Hle.
        change (pow2 0) with 1%Q in Hle.
        assert (H1 : 1 <= m) by lia. rewrite Zle_Qle in H1.
        change (inject_Z 1) with 1%Q in H1. lra.
      * rewrite (pow2_nonneg_Z (- E)) in Hmlt, Ho by lia.
        rewrite <- Zlt_Qlt in Hmlt.
        assert (Hm1 : m + 1 <= 2 ^ (- E)) by lia.
        rewrite Zle_Qle, inject_Z_plus in Hm1.
        change (inject_Z 1) with 1%Q in Hm1.
        pose proof (pow2_le (-53) E HE53) as Hle.
        nra.
Qed.

(** The product of a float64 [x >= 2^-30] and a float64 in [0, 1),
    rounded, is below [x]. *)
Lemma fmul_lt (x f : Q) :
  (pow2 (-30) <= x)%Q -> (0 <= f)%Q -> (f <= 1 - pow2 (-53))%Q ->
  (fmul x f < x)%Q.
Proof.
  intros Hx Hf0 Hf1. unfold fmul.
  assert (Hx0 : (0 < x)%Q) by (pose proof (pow2_pos (-30)); lra).
  destruct (Qlt_le_dec 0 f) as [Hfpos|Hfz].
  - assert (Hv : (0 < x * f)%Q) by nra.
    rewrite (round64_of_pos _ Hv).
    pose proof (round64_pos_half _ Hv) as Hh.
    destruct (ilog2_spec _ Hv) as [Hlo Hhi].
    set (v := (x * f)%Q) in *. set (p := pow2 (-53)) in *.
    assert (Hp : (0 < p)%Q) by apply pow2_pos.
    assert (Hvx : (v <= x * (1 - p))%Q) by (unfold v; nra).
    unfold ulp_exp in Hh.
    destruct (Z_le_gt_dec f64_emin (ilog2 v - (f64_prec - 1))) as [Hn|Hs].
    + rewrite Z.max_l in Hh by lia.
      replace (ilog2 v - (f64_prec - 1)) with (ilog2 v + -52) in Hh
        by (unfold f64_prec; lia).
      rewrite pow2_add in Hh.
      assert (Hc : (pow2 (-52) * (1 # 2) == p)%Q) by reflexivity.
      pose proof (pow2_pos (ilog2 v)) as HPv.
      assert (Hu : (round64_pos v <= v * (1 + p))%Q) by nra.
      assert (Hw : (v * (1 + p) <= x * (1 - p) * (1 + p))%Q).
      { apply Qmult_le_compat_r; lra. }
      assert (Hxp : (0 < x * p)%Q) by (apply Qmult_lt_0_compat; lra).
      assert (Hxpp : (0 < x * p * p)%Q) by (apply Qmult_lt_0_compat; lra).
      assert (He : (x * (1 - p) * (1 + p) == x - x * p * p)%Q) by ring.
      lra.
    + rewrite Z.max_r in Hh by lia.
      pose proof (pow2_le (ilog2 v + 1) (-32)
                    ltac:(unfold f64_emin, f64_prec in *; lia)) as H1.
      pose proof (pow2_le f64_emin (-32) ltac:(unfold f64_emin; lia)) as H2.
      assert (Hc : (pow2 (-32) + pow2 (-32) * (1 # 2) < pow2 (-30))%Q)
        by reflexivity.
      pose proof (pow2_pos f64_emin). lra.
  - rewrite round64_of_zero; [exact Hx0|]. nra.
Qed.

Lemma fgt0_true (x : Q) : (0 < x)%Q -> fgt0 x = true.
Proof.
  intros H. unfold fgt0. destruct (Qcompare_spec x 0); try reflexivity; lra.
Qed.

Lemma fgt0_false (x : Q) : (x <= 0)%Q -> fgt0 x = false.
Proof.
  intros H. unfold fgt0. destruct (Qcompare_spec x 0); try reflexivity; lra.
Qed.

Lemma Qtrunc_nonneg (x : Q) : (0 <= x)%Q -> Qtrunc x = Qfloor x.
Proof.
  intros H. unfold Qtrunc. apply Qle_bool_iff in H. now rewrite H.
Qed.

(** The jitter of a positive bound: the whole seconds of the rounded
    product, below the bound. *)
Lemma jitterDelay_pos (j : Duration) (f : F64) :
  0 < j <= MaxInt64 -> is_random_draw f ->
  let t := Qtrunc (fmul (Seconds j) f) in
  jitterDelay j f = t * Second /\
  0 <= t /\ t <= j / Second /\ t * Second < j.
Proof.
  intros Hj Hf t. pose proof (draw_le f Hf) as Hf1.
  destruct Hf as [_ [Hf0 _]].
  destruct (Seconds_pos j Hj) as (Hlo & Hhi & Hex).
  pose proof (fmul_lt (Seconds j) f Hlo Hf0 Hf1) as Hlt.
  assert (Hp0 : (0 <= fmul (Seconds j) f)%Q).
  { unfold fmul. apply round64_nonneg.
    pose proof (pow2_pos (-30)). nra. }
  unfold t. rewrite (Qtrunc_nonneg _ Hp0).
  set (p := fmul (Seconds j) f) in *.
  pose proof (Qfloor_le p) as Hfl.
  assert (Ht0 : 0 <= Qfloor p).
  { change 0 with (Qfloor 0). now apply Qfloor_resp_le. }
  assert (Hdm : j = Second * (j / Second) + j mod Second)
    by (apply Z.div_mod; discriminate).
  assert (Hn : 0 <= j mod Second < Second)
    by (apply Z.mod_pos_bound; reflexivity).
  assert (Ht1 : Qfloor p <= j / Second).
  { assert (H : Qfloor p < j / Second + 1) by (rewrite Zlt_Qlt; lra). lia. }
  assert (Ht2 : Qfloor p * Second < j).
  { destruct (Z.eq_dec (j mod Second) 0) as [Hz|Hnz].
    - specialize (Hex Hz).
      assert (H : Qfloor p < j / Second) by (rewrite Zlt_Qlt; lra).
      unfold Second in *. lia.
    - unfold Second in *. lia. }
  split; [|auto].
  unfold jitterDelay, int64_of_float. fold p.
  rewrite (Qtrunc_nonneg _ Hp0).
  destruct Hj as [_ Hj]. unfold MaxInt64 in Hj.
  rewrite (wrap64_id (Qfloor p))
    by (unfold in_int64, MinInt64, MaxInt64, Second in *; lia).
  apply wrap64_id. unfold in_int64, MinInt64, MaxInt64, Second in *. lia.
Qed.

(** On the sample durations and draws the model computes the seconds
    and the jitter that the binary64 operations of [SpecFloat] give. *)
Example float64_model_agrees_with_SpecFloat :
  forallb (fun j => Qeq_bool (SF2Q (Seconds_sf j)) (Seconds j))
          sample_durations = true /\
  forallb (fun j =>
             forallb (fun f => is_random_drawb (SF2Q f)
                               && (jitterDelay_sf j f =? jitterDelay j (SF2Q f)))
                     sample_draws)
          sample_durations = true.
Proof. split; vm_compute; reflexivity. Qed.

(** The executable test of a draw is sound. *)
Lemma is_random_drawb_sound (f : F64) :
  is_random_drawb f = true -> is_random_draw f.
Proof.
  unfold is_random_drawb, is_float64b. intros H.
  apply andb_prop in H. destruct H as [H Hlt1].
  apply andb_prop in H. destruct H as [Hfix H0].
  apply Qeq_bool_iff in Hfix. apply Qle_bool_iff in H0.
  assert (H1 : (f < 1)%Q).
  { apply Qnot_le_lt. intros Hle. apply Qle_bool_iff in Hle.
    rewrite Hle in Hlt1. discriminate. }
  split; [|split; assumption].
  destruct (Qlt_le_dec 0 f) as [Hpos|Hz].
  - rewrite (round64_of_pos f Hpos) in Hfix. unfold round64_pos in Hfix.
    set (Ex := ulp_exp f) in *. pose proof (pow2_pos Ex) as HP.
    exists (rne (f / pow2 Ex)), Ex. split; [|split].
    + destruct (ilog2_spec f Hpos) as [_ Hhi].
      assert (Hle : ilog2 f + 1 <= f64_prec + Ex)
        by (unfold Ex, ulp_exp, f64_prec; lia).
      pose proof (pow2_le _ _ Hle) as Hp.
      pose proof (pow2_add f64_prec Ex) as Ha.
      change (pow2 f64_prec) with (inject_Z (2 ^ 53)) in Ha.
      assert (Hy0 : (inject_Z 0 <= f / pow2 Ex)%Q).
      { apply Qle_shift_div_l; [exact HP|]. change (inject_Z 0) with 0%Q. lra. }
      apply rne_ge_int in Hy0.
      assert (Hlt : (inject_Z (rne (f / pow2 Ex)) < inject_Z (2 ^ 53))%Q).
      { apply (Qmult_lt_r _ _ (pow2 Ex)); [exact HP|]. lra. }
      rewrite <- Zlt_Qlt in Hlt. unfold f64_prec. lia.
    + unfold Ex, ulp_exp. lia.
    + symmetry. exact Hfix.
  - exists 0, 0. split; [reflexivity|]. split; [unfold f64_emin; lia|].
    change (inject_Z 0) with 0%Q. lra.
Qed.

Lemma half_is_random_draw : is_random_draw (1 # 2).
Proof.
  split; [|split].
  - exists 1, (-1). split; [reflexivity|]. split; [discriminate|reflexivity].
  - discriminate.
  - reflexivity.
Qed.

Lemma startDelay_skip (c : RunnerConfig) (f : F64) :
  InitDelayJitterDuration c <= 0 ->
  startDelay c f = wrap64 (wrap64 (1 * Second) + InitDelayDuration c).
Proof.
  intros Hj. unfold startDelay.
  now rewrite (fgt0_false _ (Seconds_nonpos _ Hj)).
Qed.

(** C9 (amended). For every runner whose initial delay [d] and jitter
    bound [j] are such that [1s + d + max(0, j)] does not overflow a
    [Duration], and for every value drawn by the random source, the
    start delay is at least [1s + d] and at most [1s + d + max(0, j)]:
    a jitter bound that is not positive adds nothing. *)
Theorem startDelay_bounds (c : RunnerConfig) (f : F64) :
  is_random_draw f ->
  in_int64 (InitDelayDuration c) ->
  in_int64 (InitDelayJitterDuration c) ->
  Second + InitDelayDuration c + Z.max 0 (InitDelayJitterDuration c)
  <= MaxInt64 ->
  Second + InitDelayDuration c <= startDelay c f
  <= Second + InitDelayDuration c + Z.max 0 (InitDelayJitterDuration c).
Proof.
  intros Hf Hd Hj Hmax.
  set (d := InitDelayDuration c) in *.
  set (j := InitDelayJitterDuration c) in *.
  assert (Hbase : wrap64 (wrap64 (1 * Second) + d) = Second + d).
  { change (wrap64 (1 * Second)) with Second. apply wrap64_id.
    unfold in_int64, MinInt64, MaxInt64, Second in *. lia. }
  destruct (Z_le_gt_dec j 0) as [Hneg|Hpos].
  - rewrite (startDelay_skip c f Hneg). fold d. rewrite Hbase. lia.
  - assert (Hjr : 0 < j <= MaxInt64) by (unfold in_int64 in Hj; lia).
    destruct (jitterDelay_pos j f Hjr Hf) as (Hjd & Ht0 & _ & Htj).
    destruct (Seconds_pos j Hjr) as (Hlo & _).
    unfold startDelay. fold j d.
    rewrite fgt0_true by (pose proof (pow2_pos (-30)); lra).
    rewrite Hbase, Hjd.
    rewrite wrap64_id;
      unfold in_int64, MinInt64, MaxInt64, Second in *; lia.
Qed.

Lemma addedJitter_pos (j : Duration) (f : F64) :
  0 < j <= MaxInt64 -> addedJitter j f = jitterDelay j f.
Proof.
  intros Hj. unfold addedJitter.
  destruct (Seconds_pos j Hj) as (Hlo & _).
  now rewrite fgt0_true by (pose proof (pow2_pos (-30)); lra).
Qed.

Lemma addedJitter_nonpos (j : Duration) (f : F64) :
  j <= 0 -> addedJitter j f = 0.
Proof.
  intros Hj. unfold addedJitter.
  now rewrite (fgt0_false _ (Seconds_nonpos _ Hj)).
Qed.

(** C10 (amended). The jitter added to the start delay is a whole
    number of seconds: the product of the jitter bound in seconds and
    the random fraction, rounded to a float64 and truncated toward
    zero, times one second, or nothing when the branch is skipped.  For
    every jitter bound below one second it is zero, and for every
    jitter bound other than zero it is never the jitter bound itself. *)
Theorem addedJitter_whole_seconds (j : Duration) (f : F64) :
  in_int64 j -> is_random_draw f ->
  (exists t, 0 <= t /\ addedJitter j f = t * Second /\
             (0 < j -> t = Qtrunc (fmul (Seconds j) f)) /\
             (j <= 0 -> t = 0)) /\
  (j < Second -> addedJitter j f = 0) /\
  (j <> 0 -> addedJitter j f <> j).
Proof.
  intros Hj Hf. destruct (Z_le_gt_dec j 0) as [Hneg|Hpos].
  - rewrite (addedJitter_nonpos j f Hneg). split; [|split].
    + exists 0. repeat split; auto; lia.
    + reflexivity.
    + lia.
  - assert (Hjr : 0 < j <= MaxInt64) by (unfold in_int64 in Hj; lia).
    rewrite (addedJitter_pos j f Hjr).
    destruct (jitterDelay_pos j f Hjr Hf) as (Hjd & Ht0 & Ht1 & Htj).
    split; [|split].
    + exists (Qtrunc (fmul (Seconds j) f)). repeat split; auto; lia.
    + intros Hlt. rewrite Hjd.
      assert (Hz : j / Second = 0)
        by (apply Z.div_small; lia).
      rewrite Hz in Ht1.
      replace (Qtrunc (fmul (Seconds j) f)) with 0 by lia. reflexivity.
    + intros _. rewrite Hjd. lia.
Qed.

Lemma startDelay_bounds_witness :
  is_random_draw (1 # 2) /\
  Second + InitDelayDuration exampleConfig
  <= startDelay exampleConfig (1 # 2)
  <= Second + InitDelayDuration exampleConfig
     + Z.max 0 (InitDelayJitterDuration exampleConfig).
Proof.
  split; [exact half_is_random_draw|].
  apply (startDelay_bounds exampleConfig (1 # 2) half_is_random_draw);
    repeat split; vm_compute; discriminate.
Defined.

(** C9 as stated fails for a negative jitter bound: with [d = 0] and
    [j = -1s] the branch of line 62 is skipped, the start delay is
    [1s], and [1 + d + j] is [0]. *)
Lemma startDelay_negative_jitter_counterexample :
  is_random_draw (1 # 2) /\
  startDelay negativeJitterConfig (1 # 2) = Second /\
  ~ (startDelay negativeJitterConfig (1 # 2)
     <= Second + InitDelayDuration negativeJitterConfig
        + InitDelayJitterDuration negativeJitterConfig).
Proof.
  split; [exact half_is_random_draw|]. split; [reflexivity|].
  vm_compute. intros H. now apply H.
Qed.

Lemma addedJitter_whole_seconds_witness :
  in_int64 (10 * Second) /\ is_random_draw (1 # 2) /\
  addedJitter (10 * Second) (1 # 2) = 5 * Second /\
  addedJitter (10 * Second) (1 # 2) <> 10 * Second.
Proof.
  assert (Hr : in_int64 (10 * Second)) by (vm_compute; split; discriminate).
  split; [exact Hr|]. split; [exact half_is_random_draw|].
  split; [reflexivity|].
  apply (proj2 (proj2 (addedJitter_whole_seconds (10 * Second) (1 # 2) Hr
                         half_is_random_draw))).
  discriminate.
Defined.

(** C10 as stated fails for the jitter bound zero (the zero value of
    the configuration field): the branch is skipped, the added jitter
    is zero, and zero is the jitter bound itself. *)
Lemma addedJitter_zero_bound_counterexample :
  is_random_draw (1 # 2) /\
  addedJitter (InitDelayJitterDuration noJitterConfig) (1 # 2)
  = InitDelayJitterDuration noJitterConfig.
Proof.
  split; [exact half_is_random_draw|]. reflexivity.
Qed.

(** ** Further properties of the Runner *)

Lemma count_if_le_one_unique {A : Type} (p : A -> bool) (l : list A) :
  count_if p l <= 1 ->
  forall i j t u, nth_error l i = Some t -> nth_error l j = Some u ->
                  p t = true -> p u = true -> i = j.
Proof.
  induction l as [|z l IH]; intros H i j t u Hi Hj Ht Hu.
  - destruct i; discriminate.
  - rewrite count_if_cons in H. pose proof (count_if_nonneg p l) as Hnn.
    destruct i as [|i], j as [|j]; cbn [nth_error] in Hi, Hj.
    + reflexivity.
    + injection Hi as ->. rewrite Ht in H. cbn [Z.b2z] in H.
      pose proof (count_if_pos p l j u Hj Hu). lia.
    + injection Hj as ->. rewrite Hu in H. cbn [Z.b2z] in H.
      pose proof (count_if_pos p l i t Hi Ht). lia.
    + f_equal. apply (IH ltac:(destruct (p z); cbn [Z.b2z] in H; lia)
                         i j t u Hi Hj Ht Hu).
Qed.

Lemma count_if_mono {A : Type} (p q : A -> bool) (l : list A) :
  (forall t, p t = true -> q t = true) -> count_if p l <= count_if q l.
Proof.
  intros Hpq. induction l as [|z l IH].
  - reflexivity.
  - rewrite !count_if_cons. specialize (Hpq z).
    destruct (p z), (q z); cbn [Z.b2z]; try lia;
      specialize (Hpq eq_refl); discriminate.
Qed.



Lemma move_keeps_config (s s' : State) :
  move s s' ->
  config (runner s') = config (runner s) /\
  now s <= now s' /\
  (isStopping (runner s) = true -> isStopping (runner s') = true).
Proof.
  intros Hm.
  destruct Hm as [i ch t t' r' out new Hn Hs|i pc w c t' r' out new Hn Hs
                 |dt Hdt|t Ht]; cbn [runner now].
  - thread_cases Hs;
      cbn [config isStopping set_mutex set_isStopping set_nWorkers set_wg];
      repeat split; auto; lia.
  - thread_cases Hs; repeat split; auto; lia.
  - repeat split; auto; lia.
  - repeat split; auto; lia.
Qed.

(** X2. The stopping flag is set for good, the configuration of the runner
    never changes and the clock never goes back. *)
Theorem stopping_is_permanent (s s' : State) :
  reaches s s' ->
  config (runner s') = config (runner s) /\
  now s <= now s' /\
  (isStopping (runner s) = true -> isStopping (runner s') = true).
Proof.
  intros Hr.
  apply (reaches_invariant
           (fun x => config (runner x) = config (runner s) /\
                     now s <= now x /\
                     (isStopping (runner s) = true ->
                      isStopping (runner x) = true))) with (s := s);
    [| |exact Hr].
  - intros s1 a s2 (H1 & H2 & H3) Ha.
    destruct (move_keeps_config s1 s2 (do_action_move _ _ _ Ha))
      as (K1 & K2 & K3).
    split; [congruence|]. split; [lia|]. auto.
  - split; [reflexivity|]. split; [lia|auto].
Qed.

Lemma stopping_is_permanent_witness :
  reaches state_second_stop state_third_stop /\
  config (runner state_third_stop) = config (runner state_second_stop) /\
  now state_second_stop <= now state_third_stop /\
  (isStopping (runner state_second_stop) = true ->
   isStopping (runner state_third_stop) = true).
Proof.
  assert (Hr : reaches state_second_stop state_third_stop).
  { exists (steps_of 1 3 ++ [ActCallStop]). reflexivity. }
  split; [exact Hr|].
  exact (stopping_is_permanent state_second_stop state_third_stop Hr).
Defined.

Lemma count_if_mono_strict {A : Type} (p q : A -> bool) (l : list A)
  (i : nat) (t : A) :
  (forall x, p x = true -> q x = true) ->
  nth_error l i = Some t ->
  count_if p l + Z.b2z (q t && negb (p t)) <= count_if q l.
Proof.
  intros Hpq. revert i. induction l as [|z l IH]; intros [|i] Hn;
    cbn [nth_error] in Hn; try discriminate; rewrite !count_if_cons.
  - injection Hn as ->. pose proof (count_if_mono p q l Hpq).
    specialize (Hpq t). destruct (p t), (q t); cbn [Z.b2z andb negb];
      try lia; specialize (Hpq eq_refl); discriminate.
  - specialize (IH i Hn). specialize (Hpq z).
    destruct (p z), (q z); cbn [Z.b2z]; try lia;
      specialize (Hpq eq_refl); discriminate.
Qed.

Lemma at_set_holds (t : Thread) : at_set t = true -> holds_mutex t = true.
Proof. destruct t as [pc|[] w c|pc]; cbn; congruence. Qed.

Lemma stop_once_ok_move (s s' : State) :
  mutex_ok s -> stop_once_ok s -> move s s' -> stop_once_ok s'.
Proof.
  unfold mutex_ok, holders, stop_once_ok. intros Hok (H1 & H2 & H3) Hm.
  destruct Hm as [i ch t t' r' out new Hn Hs|i pc w c t' r' out new Hn Hs
                 |dt Hdt|t Ht].
  - pose proof (count_if_mono_strict at_set holds_mutex _ i t
                  at_set_holds Hn) as Hstrict.
    pose proof (count_if_pos at_set _ _ _ Hn) as Hposa.
    thread_cases Hs;
      cbn [runner threads isStopping set_mutex set_isStopping
             set_nWorkers set_wg];
      rewrite !count_if_app, !(count_if_set_nth _ _ _ _ _ Hn);
      cbn [at_set past_set holds_mutex negb andb Z.b2z] in *;
      change (count_if at_set []) with 0;
      change (count_if past_set []) with 0;
      change (count_if at_set [TWorker W_Init]) with 0;
      change (count_if past_set [TWorker W_Init]) with 0;
      try specialize (Hposa eq_refl);
      destruct (isStopping (runner s)) eqn:Hst; try discriminate;
      try specialize (H2 eq_refl); try specialize (H3 eq_refl);
      destruct (mutex (runner s)) eqn:Hmx; try discriminate;
      cbn [Z.b2z] in Hok;
      (split; [|split]); intros; try discriminate; try lia.
  - cbn [runner threads].
    rewrite !count_if_app, !(count_if_set_nth _ _ _ _ _ Hn).
    thread_cases Hs;
      destruct pc as [| | | | | | | | | |[[]|]]; cbn;
      (split; [lia | split; intros Hf;
                     [specialize (H2 Hf) | specialize (H3 Hf)]; lia]).
  - auto.
  - cbn [runner threads]. rewrite !count_if_app.
    destruct Ht as [-> | ->]; cbn;
      (split; [lia | split; intros Hf;
                     [specialize (H2 Hf) | specialize (H3 Hf)]; lia]).
Qed.

Lemma stop_once_reachable (s : State) :
  reachable s -> mutex_ok s /\ stop_once_ok s.
Proof.
  intros [c Hr].
  apply (reaches_invariant (fun x => mutex_ok x /\ stop_once_ok x))
    with (s := init_state c); [| |exact Hr].
  - intros s1 a s2 [Ha Hb] Hact. apply do_action_move in Hact. split.
    + eapply mutex_ok_move; eauto.
    + eapply stop_once_ok_move; eauto.
  - split; [unfold mutex_ok, holders; cbn; lia|].
    unfold stop_once_ok. cbn. repeat split; intros; lia.
Qed.

Lemma effective_cases (t : Thread) :
  Z.b2z (effective t) = Z.b2z (at_set t) + Z.b2z (past_set t).
Proof.
  destruct t as [pc|[| | | | | | | | | |[[]|]] w c|pc]; reflexivity.
Qed.

Lemma count_if_effective (l : list Thread) :
  count_if effective l = count_if at_set l + count_if past_set l.
Proof.
  induction l as [|z l IH]; [reflexivity|].
  rewrite !count_if_cons, IH, effective_cases. lia.
Qed.

(** X3. At most one call of [Stop] ever finds the flag unset: two calls
    that have got past the test of line 95 are the same call, and once
    a call has set the flag (or returned nil or the timeout error) the
    runner is stopping. *)
Theorem Stop_takes_effect_once (s : State) :
  reachable s ->
  (forall i j t u,
      nth_error (threads s) i = Some t -> nth_error (threads s) j = Some u ->
      effective t = true -> effective u = true -> i = j) /\
  (forall i t, nth_error (threads s) i = Some t -> past_set t = true ->
               isStopping (runner s) = true).
Proof.
  intros Hr. destruct (stop_once_reachable s Hr) as [_ (H1 & H2 & _)].
  split.
  - intros i j t u Hi Hj Ht Hu.
    eapply (count_if_le_one_unique effective); eauto.
    now rewrite count_if_effective.
  - intros i t Hi Ht.
    pose proof (count_if_pos past_set _ _ _ Hi Ht) as Hpos.
    destruct (isStopping (runner s)); [reflexivity|].
    specialize (H2 eq_refl). lia.
Qed.

Lemma Stop_takes_effect_once_witness :
  reachable state_third_stop /\
  isStopping (runner state_third_stop) = true.
Proof.
  assert (Hr : reachable state_third_stop).
  { exists exampleConfig, sched_third_stop. reflexivity. }
  split; [exact Hr|].
  apply (proj2 (Stop_takes_effect_once state_third_stop Hr) 0%nat
               (TStop (S_Returned None) Wt_Exit false)); reflexivity.
Defined.

(** Where the thread at an index comes from: it was there before the
    move, or the move has just created it. *)
Lemma move_thread_origin (s s' : State) (i : nat) (t' : Thread) :
  move s s' -> nth_error (threads s') i = Some t' ->
  (exists t, nth_error (threads s) i = Some t) \/
  t' = TWorker W_Init \/ t' = TStop S_Lock Wt_None false \/ t' = TStart N_Lock.
Proof.
  intros Hm Hi. destruct (nth_error (threads s) i) as [t|] eqn:Hold.
  { left. now exists t. }
  right.
  destruct Hm as [j ch u u' r' out new Hn Hs|j pc w c u' r' out new Hn Hs
                 |dt Hdt|u Hu]; cbn [threads] in Hi.
  - pose proof (nth_error_new _ _ _ _ _ _ Hold Hi) as Hin.
    thread_cases Hs; cbn [In] in Hin; try contradiction.
    destruct Hin as [<-|[]]. now left.
  - pose proof (nth_error_new _ _ _ _ _ _ Hold Hi) as Hin.
    thread_cases Hs; cbn [In] in Hin; contradiction.
  - congruence.
  - apply nth_error_None in Hold. rewrite nth_error_app2 in Hi by exact Hold.
    apply nth_error_In in Hi. cbn [In] in Hi. destruct Hi as [<-|[]].
    destruct Hu as [-> | ->]; auto.
Qed.

Lemma stop_results_ok_move (s s' : State) :
  stop_results_ok s -> move s s' -> stop_results_ok s'.
Proof.
  unfold stop_results_ok. intros Hok Hm i e w c Hi.
  destruct (move_keeps_config s s' Hm) as (Hcfg & _ & _). rewrite Hcfg.
  destruct (move_thread_origin s s' i _ Hm Hi) as [[t Ht]|[H|[H|H]]];
    try discriminate.
  destruct (move_thread_at s s' Hm i t Ht)
    as [Hsame|[(ch & r' & t' & out & new & Hs & Ht' & Hr)
              |(pc0 & w0 & c0 & r' & t' & out & new & Hpc & Hs & Ht' & Hr)]].
  - rewrite Hsame in Hi. injection Hi as ->. eapply Hok; eauto.
  - rewrite Ht' in Hi. injection Hi as ->.
    unfold stop_error_ok.
    destruct t as [[]|[] w1 c1|[]];
      cbn [thread_step worker_step stop_step start_step] in Hs;
      repeat match type of Hs with
             | context [match ?x with _ => _ end] => destruct x eqn:?
             end;
      try discriminate; inversion Hs; subst; auto.
  - rewrite Ht' in Hi. injection Hi as ->. subst t.
    destruct w0; cbn [waiter_step] in Hs;
      repeat match type of Hs with
             | context [match ?x with _ => _ end] => destruct x eqn:?
             end;
      try discriminate; inversion Hs; subst;
      eapply Hok; eauto.
Qed.

(** X4. What a call of [Stop] returns is nil, the "already stopping" error
    or the timeout error that carries [MaximumCleanUpDuration] of the
    runner's configuration; and when it is nil or the timeout error,
    the runner is stopping. *)
Theorem Stop_returns_one_of_three (s : State) :
  reachable s ->
  forall i e w c,
    nth_error (threads s) i = Some (TStop (S_Returned e) w c) ->
    stop_error_ok (config (runner s)) e /\
    (e <> Some ErrAlreadyStopping -> isStopping (runner s) = true).
Proof.
  intros Hr i e w c Hi. split.
  - destruct Hr as [cfg Hr].
    assert (H : stop_results_ok s).
    { apply (reaches_invariant stop_results_ok) with (s := init_state cfg);
        [| |exact Hr].
      - intros s1 a s2 H1 Ha. eapply stop_results_ok_move;
          eauto using do_action_move.
      - intros k e0 w0 c0 Hk. destruct k; discriminate. }
    eapply H; eauto.
  - intros Hne.
    assert (Hok : stop_error_ok (config (runner s)) e).
    { destruct Hr as [cfg Hr].
      assert (H : stop_results_ok s).
      { apply (reaches_invariant stop_results_ok) with (s := init_state cfg);
          [| |exact Hr].
        - intros s1 a s2 H1 Ha. eapply stop_results_ok_move;
            eauto using do_action_move.
        - intros k e0 w0 c0 Hk. destruct k; discriminate. }
      eapply H; eauto. }
    destruct (stop_once_reachable s Hr) as [_ (_ & H2 & _)].
    assert (Hp : past_set (TStop (S_Returned e) w c) = true).
    { destruct Hok as [->|[->| ->]]; try reflexivity. congruence. }
    pose proof (count_if_pos past_set _ _ _ Hi Hp) as Hpos.
    destruct (isStopping (runner s)); [reflexivity|].
    specialize (H2 eq_refl). lia.
Qed.

Lemma Stop_returns_one_of_three_witness :
  reachable state_third_stop /\
  stop_error_ok (config (runner state_third_stop)) (Some ErrAlreadyStopping).
Proof.
  assert (Hr : reachable state_third_stop).
  { exists exampleConfig, sched_third_stop. reflexivity. }
  split; [exact Hr|].
  apply (proj1 (Stop_returns_one_of_three state_third_stop Hr 1%nat
                  (Some ErrAlreadyStopping) Wt_None false eq_refl)).
Defined.

Lemma deadlines_ok_move (s s' : State) :
  deadlines_ok s -> move s s' -> deadlines_ok s'.
Proof.
  unfold deadlines_ok. intros Hok Hm i dl w c Hi.
  destruct (move_keeps_config s s' Hm) as (Hcfg & Hnow & _). rewrite Hcfg.
  destruct (move_thread_origin s s' i _ Hm Hi) as [[t Ht]|[H|[H|H]]];
    try discriminate.
  destruct (move_thread_at s s' Hm i t Ht)
    as [Hsame|[(ch & r' & t' & out & new & Hs & Ht' & Hr)
              |(pc0 & w0 & c0 & r' & t' & out & new & Hpc & Hs & Ht' & Hr)]].
  - rewrite Hsame in Hi. injection Hi as ->.
    specialize (Hok _ _ _ _ Ht). lia.
  - rewrite Ht' in Hi. injection Hi as ->.
    destruct t as [[]|[] w1 c1|[]];
      cbn [thread_step worker_step stop_step start_step] in Hs;
      repeat match type of Hs with
             | context [match ?x with _ => _ end] => destruct x eqn:?
             end;
      try discriminate; inversion Hs; subst. lia.
  - rewrite Ht' in Hi. injection Hi as ->. subst t.
    destruct w0; cbn [waiter_step] in Hs;
      repeat match type of Hs with
             | context [match ?x with _ => _ end] => destruct x eqn:?
             end;
      try discriminate; inversion Hs; subst;
      specialize (Hok _ _ _ _ Ht); lia.
Qed.

(** X5. A call of [Stop] in its [select] never has more than
    [MaximumCleanUpDuration] left to wait: its deadline is at most that
    far from the present, and once the clock has moved on by that much
    the call can take the timeout case. *)
Theorem Stop_waits_at_most_the_window (s : State) :
  reachable s ->
  forall i deadline w c,
    nth_error (threads s) i = Some (TStop (S_Select deadline) w c) ->
    let D := MaximumCleanUpDuration (config (runner s)) in
    deadline <= now s + D /\
    forall dt s1,
      D <= dt -> do_action s (ActTick dt) = Some s1 ->
      do_action s1 (ActThread i ChTimeout) <> None.
Proof.
  intros [cfg Hr] i dl w c Hi D.
  assert (H : deadlines_ok s).
  { apply (reaches_invariant deadlines_ok) with (s := init_state cfg);
      [| |exact Hr].
    - intros s1 a s2 H1 Ha. eapply deadlines_ok_move;
        eauto using do_action_move.
    - intros k d0 w0 c0 Hk. destruct k; discriminate. }
  specialize (H _ _ _ _ Hi). fold D in H. split; [exact H|].
  intros dt s1 Hdt Htick. cbn [do_action] in Htick.
  destruct (0 <=? dt) eqn:H0; [|discriminate]. injection Htick as <-.
  cbn [do_action threads now runner]. rewrite Hi.
  cbn [thread_step stop_step].
  replace (dl <=? now s + dt) with true by (symmetry; apply Z.leb_le; lia).
  discriminate.
Qed.

Lemma Stop_waits_at_most_the_window_witness :
  reachable state_in_select /\
  30 * Second <= now state_in_select
                 + MaximumCleanUpDuration (config (runner state_in_select)).
Proof.
  assert (Hr : reachable state_in_select).
  { exists exampleConfig,
      (sched_worker_started ++ ActCallStop :: steps_of 2 7). reflexivity. }
  split; [exact Hr|].
  exact (proj1 (Stop_waits_at_most_the_window state_in_select Hr 2%nat
                  (30 * Second) Wt_Wait false eq_refl)).
Defined.

Lemma in_flight_counted (t : Thread) : in_flight t = true -> counted t = true.
Proof. destruct t as [[]|[] w c|[]]; cbn; congruence. Qed.

(** X6. The counter of the wait group is never negative (so [wg.Done] never
    panics): it is the number of invocations of the work function in
    flight, which is at most the number of workers that the runner
    counts. *)
Theorem wait_group_never_negative (s : State) :
  reachable s ->
  wg (runner s) = count_if in_flight (threads s) /\
  0 <= wg (runner s) <= count_if counted (threads s).
Proof.
  intros Hr. rewrite (wg_counts_runs_in_flight s Hr).
  split; [reflexivity|]. split.
  - apply count_if_nonneg.
  - apply count_if_mono. exact in_flight_counted.
Qed.

Lemma wait_group_never_negative_witness :
  reachable state_worker_started /\
  0 <= wg (runner state_worker_started) <= 1.
Proof.
  assert (Hr : reachable state_worker_started).
  { exists exampleConfig, sched_worker_started. reflexivity. }
  split; [exact Hr|].
  exact (proj2 (wait_group_never_negative state_worker_started Hr)).
Defined.

(** X7. The test of line 62 on the float64 [Seconds()] of the jitter bound
    selects exactly the positive jitter bounds: rounding never turns a
    positive duration into zero seconds. *)
Theorem jitter_branch_taken_iff_positive (j : Duration) :
  in_int64 j -> fgt0 (Seconds j) = true <-> 0 < j.
Proof.
  intros Hj. split.
  - intros H. destruct (Z_le_gt_dec j 0) as [Hle|Hgt]; [|lia].
    rewrite (fgt0_false _ (Seconds_nonpos j Hle)) in H. discriminate.
  - intros Hpos.
    destruct (Seconds_pos j) as (Hlo & _).
    { unfold in_int64 in Hj. lia. }
    apply fgt0_true. pose proof (pow2_pos (-30)). lra.
Qed.

Lemma jitter_branch_taken_iff_positive_witness :
  in_int64 1 /\ fgt0 (Seconds 1) = true.
Proof.
  assert (H : in_int64 1) by (vm_compute; split; discriminate).
  split; [exact H|].
  apply (proj2 (jitter_branch_taken_iff_positive 1 H)). reflexivity.
Defined.

Lemma Stop_returns_at_once_when_idle_witness :
  run state_stop_called (stop_at_once 2)
  = Some {| runner := set_isStopping true (runner state_stop_called);
            now := now state_stop_called;
            threads := set_nth 2 (TStop (S_Returned None) Wt_Exit false)
                               (threads state_stop_called);
            logs := logs state_stop_called
                    ++ [LogStoppingRunner 1; LogWaitgroupEmpty] |} /\
  nWorkers (runner state_stop_called) = 1.
Proof.
  split; [|reflexivity].
  apply (Stop_returns_at_once_when_idle state_stop_called 2); reflexivity.
Defined.

(** ** Further properties of the Service *)

Lemma adds_bind {A B : Type} (p : Event -> bool) (m : Proc A)
  (k : A -> Proc B) :
  adds p m -> (forall a, adds p (k a)) -> adds p (bind m k).
Proof.
  intros Hm Hk tr. unfold bind. destruct (Hm tr) as [tr1 [H1 P1]].
  destruct (m tr) as [[a|code|] tr2]; simpl in H1; subst tr2.
  - destruct (Hk a (tr ++ tr1)) as [tr2 [H2 P2]]. exists (tr1 ++ tr2).
    rewrite H2, app_assoc, forallb_app, P1, P2. auto.
  - exists tr1. auto.
  - exists tr1. auto.
Qed.

Lemma adds_emit (p : Event -> bool) (e : Event) :
  p e = true -> adds p (emit e).
Proof. intros H tr. exists [e]. simpl. rewrite H. auto. Qed.

Lemma adds_ret {A : Type} (p : Event -> bool) (a : A) : adds p (ret a).
Proof. intros tr. exists []. simpl. now rewrite app_nil_r. Qed.

Lemma adds_block {A : Type} (p : Event -> bool) : adds p (@block A).
Proof. intros tr. exists []. simpl. now rewrite app_nil_r. Qed.

Lemma adds_osExit {A : Type} (p : Event -> bool) (code : Z) :
  p (EvExit code) = true -> adds p (@osExit A code).
Proof. intros H tr. exists [EvExit code]. simpl. rewrite H. auto. Qed.

Lemma adds_callStop (p : Event -> bool) (w : World) (i : nat) :
  p (EvStopCall i) = true -> (forall e, p (EvStopReturn i e) = true) ->
  adds p (callStop w i).
Proof.
  intros H1 H2. unfold callStop. apply adds_bind; [now apply adds_emit|].
  intros _. destruct (stopReturns w i).
  - apply adds_bind; [apply adds_emit, H2|]. intros _. apply adds_ret.
  - apply adds_block.
Qed.

Lemma adds_stopRunners (p : Event -> bool) (w : World) (k : nat) :
  (forall i, (i < k)%nat -> p (EvStopCall i) = true) ->
  (forall i e, (i < k)%nat -> p (EvStopReturn i e) = true) ->
  forall err, adds p (stopRunners w k err).
Proof.
  induction k as [|i IH]; intros H1 H2 err; simpl.
  - apply adds_ret.
  - apply adds_bind.
    + apply adds_callStop; [apply H1; lia|]. intros e. apply H2. lia.
    + intros a. apply IH; intros; [apply H1|apply H2]; lia.
Qed.

Lemma adds_callCleanUp (p : Event -> bool) (w : World) :
  p EvCleanUpCall = true -> (forall e, p (EvCleanUpReturn e) = true) ->
  adds p (callCleanUp w).
Proof.
  intros H1 H2. unfold callCleanUp. apply adds_bind; [now apply adds_emit|].
  intros _. destruct (cleanUpReturns w).
  - apply adds_bind; [apply adds_emit, H2|]. intros _. apply adds_ret.
  - apply adds_block.
Qed.

(** The loop of lines 157-162 either comes to its end or blocks in a
    call of [Stop] that never returns. *)
Lemma stopRunners_cases (w : World) (k : nat) :
  forall err tr,
    (exists e tr', stopRunners w k err tr = (Continue e, tr')) \/
    ((exists i, (i < k)%nat /\ stopReturns w i = None) /\
     exists tr', stopRunners w k err tr = (Blocked, tr')).
Proof.
  induction k as [|i IH]; intros err tr; simpl.
  - left. exists err, tr. reflexivity.
  - unfold bind at 1. unfold callStop. unfold bind at 1. unfold emit at 1.
    destruct (stopReturns w i) as [e|] eqn:Hi.
    + unfold bind at 1. unfold emit at 1. unfold ret at 1.
      destruct (IH (match e with Some _ => e | None => err end)
                   ((tr ++ [EvStopCall i]) ++ [EvStopReturn i e]))
        as [[e' [tr' H]]|[[j [Hj Hn]] [tr' H]]].
      * left. exists e', tr'. exact H.
      * right. split; [exists j; split; [lia|exact Hn]|].
        exists tr'. exact H.
    + right. split; [exists i; split; [lia|exact Hi]|].
      exists (tr ++ [EvStopCall i]). reflexivity.
Qed.

(** X9. [RunWithCleanUp] never returns to its caller.  The process exits
    with status 0 or 1, or the main goroutine blocks for ever, and it
    blocks only if no signal arrives, if a call of [Stop] on one of the
    runners never returns, or if the clean-up function never returns. *)
Theorem RunWithCleanUp_never_returns (w : World) (s : Service)
  (tr : list Event) :
  match fst (RunWithCleanUp w s tr) with
  | Continue _ => False
  | Exited code => code = 0 \/ code = 1
  | Blocked =>
      signal w = None \/
      (exists i, (i < List.length (runners s))%nat /\ stopReturns w i = None) \/
      cleanUpReturns w = None
  end.
Proof.
  unfold RunWithCleanUp.
  destruct ((0 <? Z.of_nat (List.length (runners s)))
            && (countNTotalWorkers s <? 1)).
  - cbn. auto.
  - unfold bind at 1. unfold ret at 1.
    unfold bind at 1. unfold emit at 1.
    unfold bind at 1. unfold receiveSignal.
    destruct (signal w) as [sig|]; [|cbn; auto].
    unfold bind at 1. unfold emit at 1. unfold ret at 1.
    unfold bind at 1. unfold logPrintf at 1. unfold emit at 1.
    unfold bind at 1. rewrite goListeners_trace.
    unfold bind at 1.
    match goal with
    | |- context [stopRunners w ?k ?e ?t] =>
        destruct (stopRunners_cases w k e t)
          as [[e' [tr' H]]|[Hex [tr' H]]]; rewrite H
    end.
    + unfold bind at 1. unfold callCleanUp. unfold bind at 1.
      unfold emit at 1.
      destruct (cleanUpReturns w) as [c|]; [|cbn; auto].
      unfold bind at 1. unfold emit at 1. unfold ret at 1. cbv zeta.
      unfold bind at 1. unfold logPrintf, emit.
      destruct (match c with Some _ => c | None => e' end); cbn; auto.
    + cbn. auto.
Qed.

(** X10. After the signal, every interrupt listener is started exactly
    once, in the order of registration, right after the log line of
    line 140 and before anything of the shutdown: whatever follows (the
    calls of [Stop], the clean-up, the exit, or a call that hangs)
    starts no listener. *)
Theorem interrupt_listeners_started_in_order (w : World) (s : Service)
  (sig : Signal) :
  startupCheckPasses s = true ->
  signal w = Some sig ->
  exists rest,
    snd (RunWithCleanUp w s [])
    = [EvSignalNotify; EvSignalReceived sig;
       EvLog (LogReceivedSignal sig
                (Z.of_nat (List.length (interruptListeners s)))
                (Z.of_nat (List.length (runners s))))]
      ++ map EvGoListener (interruptListeners s) ++ rest /\
    forallb (fun e => negb (is_listener_event e)) rest = true.
Proof.
  intros Hcheck Hsig. unfold RunWithCleanUp.
  rewrite (startup_passes w s _ _ Hcheck).
  unfold bind at 1. unfold emit at 1.
  unfold bind at 1. unfold receiveSignal. rewrite Hsig.
  unfold bind at 1. unfold emit at 1. unfold ret at 1.
  unfold bind at 1. unfold logPrintf at 1. unfold emit at 1.
  unfold bind at 1. rewrite goListeners_trace.
  match goal with
  | |- context [bind ?m ?k ?t] =>
      assert (Ha : adds (fun e => negb (is_listener_event e)) (bind m k))
  end.
  { apply adds_bind; [apply adds_stopRunners; reflexivity|]. intros err.
    apply adds_bind; [apply adds_callCleanUp; reflexivity|]. intros c.
    cbv zeta. apply adds_bind; [apply adds_emit; reflexivity|]. intros _.
    destruct (match c with Some _ => c | None => err end);
      apply adds_osExit; reflexivity. }
  match goal with
  | |- context [bind ?m ?k ?t] => destruct (Ha t) as [rest [Hrest Hp]]
  end.
  exists rest. split; [|exact Hp].
  rewrite Hrest. cbn [app]. reflexivity.
Qed.

Lemma interrupt_listeners_started_in_order_witness :
  startupCheckPasses svc3 = true /\ signal world_hang = Some SIGINT /\
  exists rest,
    snd (RunWithCleanUp world_hang svc3 [])
    = [EvSignalNotify; EvSignalReceived SIGINT;
       EvLog (LogReceivedSignal SIGINT 1 3)]
      ++ map EvGoListener [7%nat] ++ rest /\
    forallb (fun e => negb (is_listener_event e)) rest = true.
Proof.
  split; [reflexivity|]. split; [reflexivity|].
  exact (interrupt_listeners_started_in_order world_hang svc3 SIGINT
           eq_refl eq_refl).
Defined.

(** The loop of lines 157-162 from index [k - 1] down, when the call of
    [Stop] on the runner at index [i < k] never returns: the loop blocks
    and has only called [Stop] on the runners at [i] and above. *)
Lemma stopRunners_hang (w : World) (i : nat) :
  stopReturns w i = None ->
  forall k err tr, (i < k)%nat ->
    exists tr',
      stopRunners w k err tr = (Blocked, tr ++ tr') /\
      forallb (stop_event_from i) tr' = true.
Proof.
  intros Hi. induction k as [|j IH]; intros err tr Hk; [lia|].
  simpl. unfold bind at 1. unfold callStop. unfold bind at 1.
  unfold emit at 1.
  destruct (Nat.eq_dec i j) as [<-|Hne].
  - rewrite Hi. exists [EvStopCall i]. split; [reflexivity|].
    simpl. rewrite Nat.leb_refl. reflexivity.
  - destruct (stopReturns w j) as [e|].
    + unfold bind at 1. unfold emit at 1. unfold ret at 1.
      destruct (IH (match e with Some _ => e | None => err end)
                   ((tr ++ [EvStopCall j]) ++ [EvStopReturn j e])
                   ltac:(lia)) as [tr' [H P]].
      exists ([EvStopCall j; EvStopReturn j e] ++ tr'). split.
      * rewrite H. rewrite <- !app_assoc. reflexivity.
      * rewrite forallb_app, P. simpl.
        assert (Hle : (i <=? j)%nat = true) by (apply Nat.leb_le; lia).
        rewrite Hle. reflexivity.
    + exists [EvStopCall j]. split; [reflexivity|]. simpl.
      assert (Hle : (i <=? j)%nat = true) by (apply Nat.leb_le; lia).
      rewrite Hle. reflexivity.
Qed.

(** X11. A call of [Stop] that never returns holds up the whole shutdown.
    If the call on the runner at index [i] never returns, the main
    goroutine blocks for ever: the runners registered before that one
    are never asked to stop, the clean-up function is never called, and
    the process never exits. *)
Theorem hanging_Stop_blocks_shutdown (w : World) (s : Service)
  (sig : Signal) (i : nat) :
  startupCheckPasses s = true ->
  signal w = Some sig ->
  (i < List.length (runners s))%nat ->
  stopReturns w i = None ->
  fst (RunWithCleanUp w s []) = Blocked /\
  (forall j, (j < i)%nat -> ~ In (EvStopCall j) (snd (RunWithCleanUp w s []))) /\
  ~ In EvCleanUpCall (snd (RunWithCleanUp w s [])) /\
  (forall code, ~ In (EvExit code) (snd (RunWithCleanUp w s []))).
Proof.
  intros Hcheck Hsig Hi Hnone.
  assert (Hrun : exists tr',
            RunWithCleanUp w s []
            = (Blocked,
               [EvSignalNotify; EvSignalReceived sig;
                EvLog (LogReceivedSignal sig
                         (Z.of_nat (List.length (interruptListeners s)))
                         (Z.of_nat (List.length (runners s))))]
               ++ map EvGoListener (interruptListeners s) ++ tr') /\
            forallb (stop_event_from i) tr' = true).
  { unfold RunWithCleanUp.
    rewrite (startup_passes w s _ _ Hcheck).
    unfold bind at 1. unfold emit at 1.
    unfold bind at 1. unfold receiveSignal. rewrite Hsig.
    unfold bind at 1. unfold emit at 1. unfold ret at 1.
    unfold bind at 1. unfold logPrintf at 1. unfold emit at 1.
    unfold bind at 1. rewrite goListeners_trace.
    unfold bind at 1.
    match goal with
    | |- context [stopRunners w ?k ?e ?t] =>
        destruct (stopRunners_hang w i Hnone k e t Hi) as [tr' [H P]];
        rewrite H
    end.
    exists tr'. split; [|exact P]. cbn [app]. reflexivity. }
  destruct Hrun as [tr' [Hrun P]]. rewrite Hrun. cbn [fst snd].
  split; [reflexivity|].
  assert (Hin : forall e, In e tr' -> stop_event_from i e = true).
  { intros e He. rewrite forallb_forall in P. now apply P. }
  assert (Hsplit : forall e,
            In e ([EvSignalNotify; EvSignalReceived sig;
                   EvLog (LogReceivedSignal sig
                     (Z.of_nat (List.length (interruptListeners s)))
                     (Z.of_nat (List.length (runners s))))] ++
                  map EvGoListener (interruptListeners s) ++ tr') ->
            e = EvSignalNotify \/ e = EvSignalReceived sig \/
            (exists a b, e = EvLog (LogReceivedSignal sig a b)) \/
            (exists l, e = EvGoListener l) \/ stop_event_from i e = true).
  { intros e He. cbn [app] in He.
    destruct He as [<-|[<-|[<-|He]]]; auto.
    - right. right. left. eauto.
    - apply in_app_or in He. destruct He as [He|He].
      + apply in_map_iff in He. destruct He as [l [<- _]].
        right. right. right. left. eauto.
      + right. right. right. right. auto. }
  split; [|split].
  - intros j Hj He. apply Hsplit in He.
    destruct He as [He|[He|[[a [b He]]|[[l He]|He]]]]; try discriminate.
    cbn in He. apply Nat.leb_le in He. lia.
  - intros He. apply Hsplit in He.
    destruct He as [He|[He|[[a [b He]]|[[l He]|He]]]]; discriminate.
  - intros code He. apply Hsplit in He.
    destruct He as [He|[He|[[a [b He]]|[[l He]|He]]]]; discriminate.
Qed.

Lemma hanging_Stop_blocks_shutdown_witness :
  startupCheckPasses svc3 = true /\ signal world_hang = Some SIGINT /\
  (1 < List.length (runners svc3))%nat /\ stopReturns world_hang 1 = None /\
  fst (RunWithCleanUp world_hang svc3 []) = Blocked /\
  (forall j, (j < 1)%nat ->
             ~ In (EvStopCall j) (snd (RunWithCleanUp world_hang svc3 []))) /\
  ~ In EvCleanUpCall (snd (RunWithCleanUp world_hang svc3 [])) /\
  (forall code, ~ In (EvExit code) (snd (RunWithCleanUp world_hang svc3 []))).
Proof.
  split; [reflexivity|]. split; [reflexivity|].
  split; [simpl; lia|]. split; [reflexivity|].
  apply (hanging_Stop_blocks_shutdown world_hang svc3 SIGINT 1%nat);
    [reflexivity | reflexivity | simpl; lia | reflexivity].
Defined.

Lemma NewRunnerIn_runners (cs : list RunnerConfig) (s : Service) :
  runners (fold_left NewRunnerIn cs s) = runners s ++ map NewRunner cs.
Proof.
  revert s. induction cs as [|c cs IH]; intros s; simpl.
  - now rewrite app_nil_r.
  - rewrite IH. simpl. now rewrite <- app_assoc.
Qed.

Lemma count_fresh (cs : list RunnerConfig) :
  fold_left (fun n r => wrap64 (n + nWorkers r)) (map NewRunner cs) 0 = 0.
Proof.
  induction cs as [|c cs IH]; simpl; [reflexivity|exact IH].
Qed.

(** X12. A service whose runners were created with [NewRunner] and never
    given a worker refuses to run: [RunWithCleanUp] logs the error and
    exits with status 1 before it waits for any signal. *)
Theorem fresh_runners_fail_startup_check (w : World) (s0 : Service)
  (cs : list RunnerConfig) :
  runners s0 = [] ->
  cs <> [] ->
  RunWithCleanUp w (fold_left NewRunnerIn cs s0) []
  = (Exited 1, [EvLog LogCannotRun; EvExit 1]).
Proof.
  intros H0 Hcs. unfold RunWithCleanUp, countNTotalWorkers.
  rewrite NewRunnerIn_runners, H0. cbn [app].
  rewrite count_fresh.
  destruct cs as [|c cs]; [congruence|].
  cbn [map List.length].
  replace (0 <? Z.of_nat (S (List.length (map NewRunner cs)))) with true
    by (symmetry; apply Z.ltb_lt; lia).
  reflexivity.
Qed.

Lemma fresh_runners_fail_startup_check_witness :
  RunWithCleanUp world3
    (fold_left NewRunnerIn [exampleConfig; noJitterConfig]
       {| runners := []; interruptListeners := [] |}) []
  = (Exited 1, [EvLog LogCannotRun; EvExit 1]).
Proof.
  apply (fresh_runners_fail_startup_check world3
           {| runners := []; interruptListeners := [] |}
           [exampleConfig; noJitterConfig]); [reflexivity | discriminate].
Defined.

Lemma spawn_ok_move (s s' : State) : spawn_ok s -> move s s' -> spawn_ok s'.
Proof.
  unfold spawn_ok. intros Hok Hm.
  destruct Hm as [i ch t t' r' out new Hn Hs|i pc w c t' r' out new Hn Hs
                 |dt Hdt|t Ht].
  - thread_cases Hs; cbn [threads];
      rewrite !count_if_app, !(count_if_set_nth _ _ _ _ _ Hn); cbn; lia.
  - thread_cases Hs; cbn [threads];
      rewrite !count_if_app, !(count_if_set_nth _ _ _ _ _ Hn); cbn; lia.
  - exact Hok.
  - cbn [threads]. rewrite !count_if_app, Hok.
    destruct Ht as [-> | ->]; reflexivity.
Qed.

Lemma spawn_ok_reachable (s : State) : reachable s -> spawn_ok s.
Proof.
  intros [c Hr].
  apply (reaches_invariant spawn_ok) with (s := init_state c);
    [| |exact Hr].
  - intros s1 a s2 H Ha. apply do_action_move in Ha.
    eapply spawn_ok_move; eauto.
  - reflexivity.
Qed.

Lemma count_if_le_sum {A : Type} (p q r : A -> bool) (l : list A) :
  (forall t, p t = true -> q t = true \/ r t = true) ->
  count_if p l <= count_if q l + count_if r l.
Proof.
  intros H. induction l as [|z l IH]; [reflexivity|].
  rewrite !count_if_cons. specialize (H z).
  destruct (p z), (q z), (r z); cbn [Z.b2z]; try lia;
    destruct (H eq_refl); discriminate.
Qed.

Lemma count_if_le_length {A : Type} (p : A -> bool) (l : list A) :
  count_if p l <= Z.of_nat (List.length l).
Proof.
  unfold count_if. pose proof (filter_length_le p l). lia.
Qed.

(** While the runner is not stopping, its counter is at least the number
    of calls of [StartNewWorker] that have returned. *)
Lemma returned_starts_counted (s : State) :
  reachable s -> isStopping (runner s) = false ->
  Z.of_nat (List.length (threads s)) <= MaxInt64 ->
  count_if start_returned (threads s) <= nWorkers (runner s).
Proof.
  intros Hr Hst Hlen.
  destruct (counters_reachable s Hr) as [Hcount Hpark].
  pose proof (spawn_ok_reachable s Hr) as Hspawn.
  unfold count_ok in Hcount. unfold spawn_ok in Hspawn.
  specialize (Hpark Hst).
  pose proof (count_if_le_sum is_worker counted past_check (threads s)) as Hle.
  pose proof (count_if_le_length counted (threads s)) as Hcl.
  pose proof (count_if_nonneg counted (threads s)) as Hnn.
  rewrite Hcount, wrap64_id by (unfold in_int64, MinInt64 in *; lia).
  rewrite Hspawn. rewrite Hpark in Hle. rewrite Z.add_0_r in Hle.
  apply Hle. intros [pc| |] Ht; try discriminate.
  destruct pc; cbn; auto.
Qed.

Lemma sum_ge_length (l : list Runner) :
  (forall r, In r l -> 1 <= nWorkers r) ->
  Z.of_nat (List.length l) <= fold_right Z.add 0 (map nWorkers l).
Proof.
  induction l as [|r l IH]; intros H; [reflexivity|].
  cbn [map fold_right List.length].
  pose proof (H r (or_introl eq_refl)).
  specialize (IH (fun r' Hr' => H r' (or_intror Hr'))). lia.
Qed.

(** X13. A service passes the startup check of [RunWithCleanUp] when on
    each of its runners [StartNewWorker] has returned at least once and
    [Stop] has not been called: each runner then counts at least one
    worker, whatever its goroutines have done since (the total of the
    counters is assumed to fit an [int]). *)
Theorem started_runners_pass_startup_check (ss : list State)
  (ls : list nat) :
  (forall s, In s ss -> started s) ->
  totalWorkers {| runners := map runner ss; interruptListeners := ls |}
    <= MaxInt64 ->
  startupCheckPasses {| runners := map runner ss; interruptListeners := ls |}
  = true.
Proof.
  intros Hss Hmax.
  assert (Hone : forall r, In r (map runner ss) -> 1 <= nWorkers r).
  { intros r Hr. apply in_map_iff in Hr. destruct Hr as [s [<- Hs]].
    destruct (Hss s Hs) as (Hr & Hst & Hlen & Hret).
    pose proof (returned_starts_counted s Hr Hst Hlen). lia. }
  unfold startupCheckPasses.
  rewrite countNTotalWorkers_total;
    [|cbn [runners]; intros r Hr; specialize (Hone r Hr); lia|exact Hmax].
  unfold totalWorkers in *. cbn [runners] in *.
  pose proof (sum_ge_length _ Hone) as Hsum.
  destruct ss as [|s ss]; [reflexivity|].
  cbn [map List.length] in *.
  apply negb_true_iff, andb_false_iff. right. apply Z.ltb_ge. lia.
Qed.

Lemma started_runners_pass_startup_check_witness :
  started state_worker_started /\ started state_worker_looping /\
  startupCheckPasses
    {| runners := map runner [state_worker_started; state_worker_looping];
       interruptListeners := [] |} = true.
Proof.
  assert (H1 : started state_worker_started).
  { split; [exists exampleConfig, sched_worker_started; reflexivity|].
    split; [reflexivity|]. split; vm_compute; discriminate. }
  assert (H2 : started state_worker_looping).
  { split; [exists exampleConfig,
              (sched_worker_started
                 ++ [ActTick (16 * Second); ActThread 1 ChNone]);
            reflexivity|].
    split; [reflexivity|]. split; vm_compute; discriminate. }
  split; [exact H1|]. split; [exact H2|].
  apply (started_runners_pass_startup_check
           [state_worker_started; state_worker_looping] []).
  - intros s [<-|[<-|[]]]; assumption.
  - vm_compute. discriminate.
Defined.

(** ** The example runner *)

Lemma float64_of_int_5 : (float64_of_int 5 == inject_Z 5)%Q.
Proof. apply round64_int. vm_compute. reflexivity. Qed.

Lemma busyWork_floor (f : F64) :
  is_random_draw f ->
  busyWork f = Qfloor (fmul (float64_of_int 5) f) /\ 0 <= busyWork f <= 4.
Proof.
  intros Hf. pose proof (draw_le f Hf) as Hle.
  destruct Hf as (_ & H0 & _).
  pose proof float64_of_int_5 as H5.
  assert (Hlow : (pow2 (-30) <= float64_of_int 5)%Q).
  { rewrite H5. vm_compute. discriminate. }
  pose proof (fmul_lt _ f Hlow H0 Hle) as Hlt.
  assert (Hnn : (0 <= fmul (float64_of_int 5) f)%Q).
  { apply round64_nonneg. apply Qmult_le_0_compat; [|exact H0].
    rewrite H5. vm_compute. discriminate. }
  unfold busyWork, int64_of_float. rewrite (Qtrunc_nonneg _ Hnn).
  assert (Hfl : 0 <= Qfloor (fmul (float64_of_int 5) f) <= 4).
  { split.
    - change 0 with (Qfloor 0). now apply Qfloor_resp_le.
    - assert (Qfloor (fmul (float64_of_int 5) f) < 5); [|lia].
      rewrite Zlt_Qlt. eapply Qle_lt_trans; [apply Qfloor_le|].
      rewrite <- H5. exact Hlt. }
  rewrite wrap64_id by (unfold in_int64, MinInt64, MaxInt64; lia).
  auto.
Qed.

(** X14. An invocation of the work function of the example runner keeps
    busy for a whole number of seconds from 0 to 4, never 5, and returns
    nil; each of the five values is drawn by some value of
    [rand.Float64()]. *)
Theorem ExampleRunner_work_busy_seconds (f : F64) :
  is_random_draw f ->
  (exists k, 0 <= k <= 4 /\ work f = (k * Second, None)) /\
  (forall k, 0 <= k <= 4 ->
             exists g, is_random_draw g /\ work g = (k * Second, None)).
Proof.
  intros Hf. split.
  - destruct (busyWork_floor f Hf) as [_ Hr].
    exists (busyWork f). split; [exact Hr|].
    unfold work, busySleep.
    rewrite wrap64_id; [reflexivity|].
    unfold in_int64, MinInt64, MaxInt64, Second. lia.
  - intros k Hk.
    assert (Hcases : k = 0 \/ k = 1 \/ k = 2 \/ k = 3 \/ k = 4) by lia.
    destruct Hcases as [->|[->|[->|[->| ->]]]].
    + exists 0%Q. split; [apply is_random_drawb_sound|]; reflexivity.
    + exists (1 # 4)%Q. split; [apply is_random_drawb_sound|]; reflexivity.
    + exists (1 # 2)%Q. split; [apply is_random_drawb_sound|]; reflexivity.
    + exists (3 # 4)%Q. split; [apply is_random_drawb_sound|]; reflexivity.
    + exists (7 # 8)%Q. split; [apply is_random_drawb_sound|]; reflexivity.
Qed.

Lemma ExampleRunner_work_busy_seconds_witness :
  is_random_draw (1 # 2) /\
  (exists k, 0 <= k <= 4 /\ work (1 # 2) = (k * Second, None)).
Proof.
  split; [exact half_is_random_draw|].
  exact (proj1 (ExampleRunner_work_busy_seconds (1 # 2) half_is_random_draw)).
Defined.

(** X15. The example runner is tuned as its comment asks.  From the call
    of [StartNewWorker] to the end of the sleep that follows the first
    invocation of the work function there are at least 13 and at most 26
    seconds of delay, busy work and sleep, which is below the 30 seconds
    that [Stop] waits. *)
Theorem ExampleRunner_first_turn_within_window (id : string) (f g : F64) :
  is_random_draw f -> is_random_draw g ->
  let c := exampleRunnerConfig id in
  let turn := startDelay c f + fst (work g) + WorkerSleepDuration c in
  13 * Second <= turn <= 26 * Second /\
  26 * Second < MaximumCleanUpDuration c.
Proof.
  intros Hf Hg c turn.
  destruct (busyWork_floor g Hg) as [_ Hb].
  assert (Hj : 0 < 10 * Second <= MaxInt64) by (vm_compute; split; [reflexivity|discriminate]).
  destruct (jitterDelay_pos (10 * Second) f Hj Hf) as (Hjd & Ht0 & _ & Htlt).
  cbv zeta in Hjd, Ht0, Htlt.
  destruct (Seconds_pos (10 * Second) Hj) as (Hlow & _).
  assert (Hgt : fgt0 (Seconds (10 * Second)) = true).
  { apply fgt0_true. eapply Qlt_le_trans; [apply (pow2_pos (-30))|exact Hlow]. }
  assert (Hsd : startDelay c f
                = 11 * Second + Qtrunc (fmul (Seconds (10 * Second)) f) * Second).
  { unfold startDelay, c, exampleRunnerConfig.
    cbn [InitDelayDuration InitDelayJitterDuration].
    rewrite Hgt, Hjd.
    rewrite (wrap64_id (1 * Second)) by (vm_compute; split; discriminate).
    rewrite (wrap64_id (1 * Second + 10 * Second))
      by (vm_compute; split; discriminate).
    rewrite wrap64_id; [unfold Second; lia|].
    unfold in_int64, MinInt64, MaxInt64, Second in *. lia. }
  unfold turn. rewrite Hsd. unfold work, busySleep. cbn [fst].
  rewrite wrap64_id
    by (unfold in_int64, MinInt64, MaxInt64, Second; lia).
  unfold c, exampleRunnerConfig.
  cbn [WorkerSleepDuration MaximumCleanUpDuration].
  unfold Second in *. lia.
Qed.

Lemma ExampleRunner_first_turn_within_window_witness :
  is_random_draw (1 # 2) /\
  13 * Second
  <= startDelay (exampleRunnerConfig "r0") (1 # 2) + fst (work (1 # 2))
     + WorkerSleepDuration (exampleRunnerConfig "r0")
  <= 26 * Second.
Proof.
  split; [exact half_is_random_draw|].
  exact (proj1 (ExampleRunner_first_turn_within_window "r0" (1 # 2) (1 # 2)
                  half_is_random_draw half_is_random_draw)).
Defined.

(* ================================================================== *)
(** ** Part D: configuration, version, flags and the constructor *)

Lemma runs_bind {A B : Type} (p : StartupEvent -> bool) (q : Z -> bool)
  (r1 : A -> bool) (r : B -> bool) (m : Startup A) (k : A -> Startup B) :
  runs p q r1 m -> (forall a, r1 a = true -> runs p q r (k a)) ->
  runs p q r (sbind m k).
Proof.
  intros Hm Hk tr. unfold sbind. destruct (Hm tr) as [tr1 (H1 & P1 & O1)].
  destruct (m tr) as [[a|code|] tr2]; cbn [fst snd] in *; subst tr2.
  - destruct (Hk a O1 (tr ++ tr1)) as [tr2 (H2 & P2 & O2)].
    exists (tr1 ++ tr2). rewrite H2, app_assoc, forallb_app, P1, P2. auto.
  - exists tr1. auto.
  - contradiction.
Qed.

Lemma runs_seq {A B : Type} (p : StartupEvent -> bool) (q : Z -> bool)
  (r : B -> bool) (m : Startup A) (k : A -> Startup B) :
  runs p q (fun _ => true) m -> (forall a, runs p q r (k a)) ->
  runs p q r (sbind m k).
Proof. intros Hm Hk. eapply runs_bind; [exact Hm|]. intros a _. apply Hk. Qed.

Lemma runs_final {A B : Type} (p : StartupEvent -> bool) (q : Z -> bool)
  (r : B -> bool) (m : Startup A) (k : A -> Startup B) :
  runs p q (fun _ => false) m -> runs p q r (sbind m k).
Proof. intros Hm. eapply runs_bind; [exact Hm|]. discriminate. Qed.

Lemma runs_sret {A : Type} (p : StartupEvent -> bool) (q : Z -> bool)
  (r : A -> bool) (a : A) : r a = true -> runs p q r (sret a).
Proof. intros H tr. exists []. cbn. rewrite app_nil_r. auto. Qed.

Lemma runs_semit (p : StartupEvent -> bool) (q : Z -> bool)
  (r : unit -> bool) (e : StartupEvent) :
  p e = true -> r tt = true -> runs p q r (semit e).
Proof. intros H Hr tr. exists [e]. cbn. rewrite H. auto. Qed.

Lemma runs_sExit {A : Type} (p : StartupEvent -> bool) (q : Z -> bool)
  (r : A -> bool) (code : Z) :
  p (SExit code) = true -> q code = true -> runs p q r (@sExit A code).
Proof. intros H Hq tr. exists [SExit code]. cbn. rewrite H. auto. Qed.

Lemma runs_weaken {A : Type} (p : StartupEvent -> bool) (q : Z -> bool)
  (r r' : A -> bool) (m : Startup A) :
  (forall a, r a = true -> r' a = true) -> runs p q r m -> runs p q r' m.
Proof.
  intros Hr Hm tr. destruct (Hm tr) as [tr' (H & P & O)].
  exists tr'. split; [exact H|]. split; [exact P|].
  destruct (fst (m tr)); auto.
Qed.

Lemma HasProperty_true (f : Flags) :
  Property f <> ""%string -> HasProperty f = true.
Proof.
  unfold HasProperty. destruct (Property f); [congruence|reflexivity].
Qed.

Lemma HasProperty_false (f : Flags) :
  Property f = ""%string -> HasProperty f = false.
Proof. unfold HasProperty. intros ->. reflexivity. Qed.

Lemma runs_sPanic {A : Type} (p : StartupEvent -> bool) (q : Z -> bool)
  (r : A -> bool) :
  p SPanic = true -> q 2 = true -> runs p q r (@sPanic A).
Proof. intros H Hq tr. exists [SPanic]. cbn. rewrite H. auto. Qed.

(** Walks through a piece of startup: a step that never returns ends
    the walk, any other step is followed by the rest. *)
Ltac runs_go :=
  cbv beta iota zeta;
  unfold slog, println, Version_LogSummary, Config_LogSummary, RunWithFlagger;
  lazymatch goal with
  | H : runs ?p ?q ?r ?m |- runs ?p ?q ?r ?m => exact H
  | H : runs ?p ?q (fun _ => false) ?m |- runs ?p ?q _ ?m =>
      apply (runs_weaken p q (fun _ => false)); [discriminate | exact H]
  | |- runs _ _ _ (sret _) => apply runs_sret; reflexivity
  | |- runs _ _ _ (semit _) => apply runs_semit; reflexivity
  | |- runs _ _ _ (sExit _) => apply runs_sExit; reflexivity
  | |- runs _ _ _ sPanic => apply runs_sPanic; reflexivity
  | |- runs _ _ _ (sbind _ _) =>
      first [ apply runs_final; solve [runs_go]
            | apply runs_seq; [solve [runs_go] | intros ?; runs_go] ]
  | |- runs _ _ _ (match ?x with _ => _ end) => destruct x; runs_go
  end.

Lemma RunWithConfigurer_quiet (h : Host) (f : Flags) (c : Config)
  (configurer : option Configurer) :
  HasProperty f = true ->
  runs (fun e => negb (is_log_event e)) zero_or_one (fun _ => false)
       (RunWithConfigurer h f c configurer).
Proof.
  intros Hp. unfold RunWithConfigurer. rewrite Hp.
  destruct (Config_ReadProperty h c (Property f)) as [value [e|]];
    destruct configurer as [cf|]; cbn [is_error andb negb]; runs_go.
Qed.

Lemma Flags_Run_quiet (h : Host) (f : Flags) (v : Version) :
  runs (fun e => negb (is_log_event e)) zero_or_one (fun _ => true)
       (Flags_Run h f v).
Proof. unfold Flags_Run. runs_go. Qed.

(** X17. With the flag [-property] the constructor never returns a
    service and writes no log line: whatever the other flags, the files
    and the options are, the process ends with status 0 or 1, and
    nothing goes to the log (the output is left to the value read). *)
Theorem NewService_property_flag_is_quiet (h : Host)
  (packageFS : option (string -> string + error)) (options : ServiceOptions) :
  propertyFlag h <> ""%string ->
  (exists code, fst (NewServiceWithOptions h packageFS options []) = Exited code
                /\ (code = 0 \/ code = 1)) /\
  forallb (fun e => negb (is_log_event e))
          (snd (NewServiceWithOptions h packageFS options [])) = true.
Proof.
  intros Hp.
  assert (Hruns : runs (fun e => negb (is_log_event e)) zero_or_one
                       (fun _ => false)
                       (NewServiceWithOptions h packageFS options)).
  { unfold NewServiceWithOptions.
    pose proof (HasProperty_true (Flags_Parse h) Hp) as Hhas.
    pose proof (RunWithConfigurer_quiet h (Flags_Parse h)) as Hrun.
    pose proof (Flags_Run_quiet h (Flags_Parse h)) as Hflags.
    rewrite !Hhas. cbn [negb].
    destruct (NewVersion (decodeVersion h) packageFS) as [v [e|]];
      destruct (Config_Load h Config_zero) as [c [e'|]];
      specialize (Hrun c (AdditionalConfigurer options) Hhas);
      specialize (Hflags v);
      runs_go. }
  destruct (Hruns []) as [tr' (Htr & Hp' & Hout)].
  cbn [app] in Htr. rewrite Htr. split; [|exact Hp'].
  destruct (fst (NewServiceWithOptions h packageFS options []))
    as [a|code|]; try discriminate; try contradiction.
  exists code. split; [reflexivity|].
  unfold zero_or_one in Hout. lia.
Qed.

Lemma NewService_property_flag_is_quiet_witness :
  propertyFlag (host_example "production" (false, true, "env"%string, false)) <> ""%string /\
  (exists code,
     fst (NewServiceWithOptions (host_example "production" (false, true, "env"%string, false))
            None no_options []) = Exited code /\ (code = 0 \/ code = 1)) /\
  forallb (fun e => negb (is_log_event e))
    (snd (NewServiceWithOptions (host_example "production" (false, true, "env"%string, false))
            None no_options [])) = true.
Proof.
  split; [discriminate|].
  apply (NewService_property_flag_is_quiet
           (host_example "production" (false, true, "env"%string, false)) None no_options).
  discriminate.
Defined.

(** X18. Without its platform configuration the constructor serves
    nothing.  If [Config.Load] returns an error the process ends with
    status 1 before any one-shot flag is looked at: nothing is printed
    (not the version, not the build information, not a property), and
    neither the additional configurer nor the [Run] of the additional
    flagger is called. *)
Theorem NewService_needs_platform_configuration (h : Host)
  (packageFS : option (string -> string + error)) (options : ServiceOptions)
  (e : error) :
  snd (Config_Load h Config_zero) = Some e ->
  fst (NewServiceWithOptions h packageFS options []) = Exited 1 /\
  forallb serves_nothing
          (snd (NewServiceWithOptions h packageFS options [])) = true.
Proof.
  intros Herr.
  assert (Hruns : runs serves_nothing (fun code => code =? 1)
                       (fun _ => false)
                       (NewServiceWithOptions h packageFS options)).
  { unfold NewServiceWithOptions.
    destruct (NewVersion (decodeVersion h) packageFS) as [v [e0|]];
      destruct (Config_Load h Config_zero) as [c [e'|]];
      try discriminate; runs_go. }
  destruct (Hruns []) as [tr' (Htr & Hp' & Hout)].
  cbn [app] in Htr. rewrite Htr. split; [|exact Hp'].
  destruct (fst (NewServiceWithOptions h packageFS options []))
    as [a|code|]; try discriminate; try contradiction.
  apply Z.eqb_eq in Hout. now subst code.
Qed.

Lemma NewService_needs_platform_configuration_witness :
  snd (Config_Load (host_example "staging" (false, true, ""%string, true))
         Config_zero)
  = Some (ErrOther "no such file") /\
  fst (NewServiceWithOptions
         (host_example "staging" (false, true, ""%string, true))
         None no_options []) = Exited 1 /\
  forallb serves_nothing
    (snd (NewServiceWithOptions
            (host_example "staging" (false, true, ""%string, true))
            None no_options [])) = true.
Proof.
  split; [reflexivity|].
  apply (NewService_needs_platform_configuration
           (host_example "staging" (false, true, ""%string, true))
           None no_options (ErrOther "no such file")).
  reflexivity.
Defined.

Lemma Flags_Run_prints_no_build (h : Host) (f : Flags) (v : Version) :
  runs prints_no_build (fun _ => true) (fun _ => true) (Flags_Run h f v).
Proof. unfold Flags_Run. destruct (readBuildInfo h); runs_go. Qed.

Lemma RunWithConfigurer_prints_no_build (h : Host) (f : Flags) (c : Config)
  (configurer : option Configurer) :
  runs prints_no_build (fun _ => true) (fun _ => true)
       (RunWithConfigurer h f c configurer).
Proof.
  unfold RunWithConfigurer.
  destruct (HasProperty f); [|runs_go].
  destruct (Config_ReadProperty h c (Property f)) as [value [e|]];
    destruct configurer as [cf|]; cbn [is_error andb negb]; runs_go.
Qed.

(** X19. The flag [-build-info] never prints the build information.  No
    run of the constructor prints a build that is not nil; with the flag
    set and the configuration loaded, the process ends with status 1 and
    the line "unable to read build info from debug runtime" exactly when
    the runtime has the build information, and with status 0 after
    printing a nil build when it has none. *)
Theorem build_info_flag_never_prints_build_info (h : Host)
  (packageFS : option (string -> string + error)) (options : ServiceOptions) :
  forallb prints_no_build
          (snd (NewServiceWithOptions h packageFS options [])) = true /\
  (buildInfoFlag h = true ->
   snd (Config_Load h Config_zero) = None ->
   (forall cf, AdditionalConfigurer options = Some cf ->
               configurerLoad cf = None) ->
   fst (NewServiceWithOptions h packageFS options [])
   = Exited (match readBuildInfo h with Some _ => 1 | None => 0 end) /\
   printed (snd (NewServiceWithOptions h packageFS options []))
   = [match readBuildInfo h with
      | Some _ => LineText "unable to read build info from debug runtime"
      | None => LineBuild None
      end]).
Proof.
  split.
  - assert (Hruns : runs prints_no_build (fun _ => true) (fun _ => true)
                         (NewServiceWithOptions h packageFS options)).
    { unfold NewServiceWithOptions.
      pose proof (RunWithConfigurer_prints_no_build h (Flags_Parse h)) as Hrun.
      pose proof (Flags_Run_prints_no_build h (Flags_Parse h)) as Hflags.
      destruct (NewVersion (decodeVersion h) packageFS) as [v [e|]];
        destruct (Config_Load h Config_zero) as [c [e'|]];
        specialize (Hrun c (AdditionalConfigurer options));
        specialize (Hflags v);
        runs_go. }
    destruct (Hruns []) as [tr' (Htr & Hp' & _)].
    cbn [app] in Htr. rewrite Htr. exact Hp'.
  - intros Hflag Hload Hadd. unfold NewServiceWithOptions, Flags_Run.
    destruct (NewVersion (decodeVersion h) packageFS) as [v [e|]];
      destruct (Config_Load h Config_zero) as [c [e'|]];
      cbn [snd] in Hload; try discriminate.
    all: destruct options as [[cf|] [fl|]];
      cbn [AdditionalConfigurer AdditionalFlagger] in *;
      try rewrite (Hadd cf eq_refl).
    all: unfold Flags_Parse, HasProperty;
      cbn [BuildInfo DoesShowTimestamp Property Flags_Version];
      rewrite Hflag;
      destruct (doesShowTimestampFlag h);
      destruct (propertyFlag h);
      destruct (readBuildInfo h); split; reflexivity.
Qed.

Lemma build_info_flag_never_prints_build_info_witness :
  fst (NewServiceWithOptions
         (host_example "production" (true, true, ""%string, false))
         None no_options [])
  = Exited 1 /\
  printed (snd (NewServiceWithOptions
                  (host_example "production" (true, true, ""%string, false))
                  None no_options []))
  = [LineText "unable to read build info from debug runtime"].
Proof.
  apply (proj2 (build_info_flag_never_prints_build_info
                  (host_example "production" (true, true, ""%string, false))
                  None no_options));
    [reflexivity | reflexivity | discriminate].
Defined.

Lemma Flags_Run_any (h : Host) (f : Flags) (v : Version) :
  runs any_event any_status (fun _ => true) (Flags_Run h f v).
Proof. unfold Flags_Run. runs_go. Qed.

Lemma Flags_Run_one_shot (h : Host) (f : Flags) (v : Version) :
  BuildInfo f = true \/ Flags_Version f = true ->
  runs any_event any_status (fun _ => false) (Flags_Run h f v).
Proof.
  intros [Hf|Hf]; unfold Flags_Run; rewrite Hf.
  - destruct (readBuildInfo h); runs_go.
  - destruct (BuildInfo f); [destruct (readBuildInfo h)|]; runs_go.
Qed.

Lemma RunWithConfigurer_any (h : Host) (f : Flags) (c : Config)
  (configurer : option Configurer) :
  runs any_event any_status (fun _ => true)
       (RunWithConfigurer h f c configurer).
Proof.
  unfold RunWithConfigurer.
  destruct (HasProperty f); [|runs_go].
  destruct (Config_ReadProperty h c (Property f)) as [value [e|]];
    destruct configurer as [cf|]; cbn [is_error andb negb]; runs_go.
Qed.

Lemma RunWithConfigurer_one_shot (h : Host) (f : Flags) (c : Config)
  (configurer : option Configurer) :
  HasProperty f = true ->
  runs any_event any_status (fun _ => false)
       (RunWithConfigurer h f c configurer).
Proof.
  intros Hp. unfold RunWithConfigurer. rewrite Hp.
  destruct (Config_ReadProperty h c (Property f)) as [value [e|]];
    destruct configurer as [cf|]; cbn [is_error andb negb]; runs_go.
Qed.

Ltac constructor_cases h packageFS :=
  unfold NewServiceWithOptions;
  destruct (NewVersion (decodeVersion h) packageFS) as [?v [?e|]];
  destruct (Config_Load h Config_zero) as [?c [?e|]].

(** Each of a one-shot flag, a configuration that does not load and an
    additional flagger that ends the process keeps the constructor from
    returning. *)
Lemma NewService_does_not_return (h : Host)
  (packageFS : option (string -> string + error)) (options : ServiceOptions) :
  buildInfoFlag h = true \/ versionFlag h = true \/
  propertyFlag h <> ""%string \/
  snd (Config_Load h Config_zero) <> None \/
  (exists cf e, AdditionalConfigurer options = Some cf /\
                configurerLoad cf = Some e) \/
  (exists fl code, AdditionalFlagger options = Some fl /\
                   flaggerRun fl = Some code) ->
  runs any_event any_status (fun _ => false)
       (NewServiceWithOptions h packageFS options).
Proof.
  intros H.
  pose proof (Flags_Run_any h (Flags_Parse h)) as Hflags.
  pose proof (RunWithConfigurer_any h (Flags_Parse h)) as Hrun.
  destruct H as [H|[H|[H|[H|[H|H]]]]].
  - pose proof (Flags_Run_one_shot h (Flags_Parse h)) as Hone.
    constructor_cases h packageFS;
      specialize (Hflags v); specialize (Hrun c (AdditionalConfigurer options));
      specialize (Hone v (or_introl H)); runs_go.
  - pose proof (Flags_Run_one_shot h (Flags_Parse h)) as Hone.
    constructor_cases h packageFS;
      specialize (Hflags v); specialize (Hrun c (AdditionalConfigurer options));
      specialize (Hone v (or_intror H)); runs_go.
  - pose proof (RunWithConfigurer_one_shot h (Flags_Parse h)) as Hone.
    pose proof (HasProperty_true (Flags_Parse h) H) as Hhas.
    constructor_cases h packageFS;
      specialize (Hflags v);
      specialize (Hone c (AdditionalConfigurer options) Hhas);
      clear Hrun; runs_go.
  - constructor_cases h packageFS; cbn [snd] in H; try congruence;
      specialize (Hflags v); specialize (Hrun c (AdditionalConfigurer options));
      runs_go.
  - destruct H as (cf & e & Hcf & He).
    constructor_cases h packageFS; rewrite Hcf, He;
      specialize (Hflags v); specialize (Hrun c (Some cf));
      runs_go.
  - destruct H as (fl & code & Hfl & Hcode).
    constructor_cases h packageFS; rewrite Hfl; unfold RunWithFlagger;
      rewrite Hcode;
      specialize (Hflags v); specialize (Hrun c (AdditionalConfigurer options));
      runs_go.
Qed.

Lemma not_starts (h : Host) (options : ServiceOptions) :
  ~ starts h options ->
  buildInfoFlag h = true \/ versionFlag h = true \/
  propertyFlag h <> ""%string \/
  snd (Config_Load h Config_zero) <> None \/
  (exists cf e, AdditionalConfigurer options = Some cf /\
                configurerLoad cf = Some e) \/
  (exists fl code, AdditionalFlagger options = Some fl /\
                   flaggerRun fl = Some code).
Proof.
  intros Hn. unfold starts in Hn.
  destruct (buildInfoFlag h); [auto|].
  destruct (versionFlag h); [auto|].
  destruct (string_dec (propertyFlag h) "") as [Hp|Hp]; [|auto].
  destruct (snd (Config_Load h Config_zero)) as [e|]; [right; right; right; left; discriminate|].
  destruct (AdditionalConfigurer options) as [cf|] eqn:Hcf.
  - destruct (configurerLoad cf) as [e|] eqn:He;
      [right; right; right; right; left; eauto|].
    destruct (AdditionalFlagger options) as [fl|] eqn:Hfl.
    + destruct (flaggerRun fl) as [code|] eqn:Hcode;
        [right; right; right; right; right; eauto|].
      exfalso. apply Hn. repeat split; auto; congruence.
    + exfalso. apply Hn. repeat split; auto; congruence.
  - destruct (AdditionalFlagger options) as [fl|] eqn:Hfl.
    + destruct (flaggerRun fl) as [code|] eqn:Hcode;
        [right; right; right; right; right; eauto|].
      exfalso. apply Hn. repeat split; auto; congruence.
    + exfalso. apply Hn. repeat split; auto; congruence.
Qed.

(** A start that succeeds, event by event. *)
Lemma NewService_starts (h : Host)
  (packageFS : option (string -> string + error)) (options : ServiceOptions) :
  starts h options ->
  NewServiceWithOptions h packageFS options []
  = (Continue
       {| serviceConfig := fst (Config_Load h Config_zero);
          serviceFlags := Flags_Parse h;
          serviceVersion := fst (NewVersion (decodeVersion h) packageFS);
          service := {| runners := []; interruptListeners := [] |} |},
     [SFlagParse]
     ++ match AdditionalFlagger options with
        | Some _ => [SFlaggerParse]
        | None => []
        end
     ++ [SLogSetFlags (doesShowTimestampFlag h)]
     ++ match snd (NewVersion (decodeVersion h) packageFS) with
        | Some e => [SLog (LogVersionWarning e)]
        | None => []
        end
     ++ match AdditionalConfigurer options with
        | Some _ => [SConfigurerLoad]
        | None => []
        end
     ++ match AdditionalFlagger options with
        | Some _ => [SFlaggerRun]
        | None => []
        end
     ++ [SLog LogBanner;
         SLog (LogVersionSummary (program h)
                 (VersionHash (fst (NewVersion (decodeVersion h) packageFS))));
         SLog LogConfigSummary;
         SLog (LogConfigEnvironment (Env (fst (Config_Load h Config_zero))));
         SLog (LogConfigVerbose
                 (VerboseLogging (fst (Config_Load h Config_zero))))]).
Proof.
  intros (Hb & Hv & Hp & Hload & Hcf & Hfl).
  unfold NewServiceWithOptions, Flags_Run, RunWithConfigurer, RunWithFlagger,
    HasProperty, Flags_Parse.
  cbn [BuildInfo DoesShowTimestamp Property Flags_Version].
  rewrite Hb, Hv, Hp.
  destruct (NewVersion (decodeVersion h) packageFS) as [v [e|]];
    destruct (Config_Load h Config_zero) as [c [e'|]];
    cbn [snd] in Hload; try discriminate.
  all: destruct options as [[cf|] [fl|]];
    cbn [AdditionalConfigurer AdditionalFlagger] in *;
    try rewrite (Hcf cf eq_refl); try rewrite (Hfl fl eq_refl);
    destruct (doesShowTimestampFlag h); reflexivity.
Qed.

(** X16. When the constructor returns.  [NewServiceWithOptions] returns a
    service exactly when no one-shot flag is set ([-build-info],
    [-version], [-property]), the platform configuration and the
    additional one load, and the [Run] of an additional flagger
    returns; in every other case the process ends inside the
    constructor.  The service that it returns has the configuration and
    the version that were loaded (the zero version when the version
    file could not be read, after a warning), nothing was printed, the
    log ends with the banner, the version summary and the three lines
    of the configuration summary, and the service has no runner yet: on
    a signal, [Run] on it ends the process with status 0. *)
Theorem NewService_returns_iff_it_starts (h : Host)
  (packageFS : option (string -> string + error)) (options : ServiceOptions) :
  ((exists r tr,
      NewServiceWithOptions h packageFS options [] = (Continue r, tr))
   <-> starts h options) /\
  (forall r tr,
     NewServiceWithOptions h packageFS options [] = (Continue r, tr) ->
     serviceConfig r = fst (Config_Load h Config_zero) /\
     serviceVersion r = fst (NewVersion (decodeVersion h) packageFS) /\
     serviceFlags r = Flags_Parse h /\
     printed tr = [] /\
     logged tr
     = match snd (NewVersion (decodeVersion h) packageFS) with
       | Some e => [LogVersionWarning e]
       | None => []
       end
       ++ [LogBanner;
           LogVersionSummary (program h) (VersionHash (serviceVersion r));
           LogConfigSummary;
           LogConfigEnvironment (Env (serviceConfig r));
           LogConfigVerbose (VerboseLogging (serviceConfig r))] /\
     runners (service r) = [] /\ interruptListeners (service r) = [] /\
     forall w sig, signal w = Some sig ->
                   fst (Run w (service r) []) = Exited 0).
Proof.
  assert (Hfwd : forall r tr,
             NewServiceWithOptions h packageFS options [] = (Continue r, tr) ->
             starts h options).
  { intros r tr Hret.
    assert (Hdec : starts h options \/ ~ starts h options).
    { unfold starts.
      destruct (buildInfoFlag h); [right; intros (H & _); discriminate|].
      destruct (versionFlag h); [right; intros (_ & H & _); discriminate|].
      destruct (string_dec (propertyFlag h) "") as [Hp|Hp];
        [|right; intros (_ & _ & H & _); contradiction].
      destruct (snd (Config_Load h Config_zero)) as [e|];
        [right; intros (_ & _ & _ & H & _); discriminate|].
      destruct (AdditionalConfigurer options) as [cf|].
      - destruct (configurerLoad cf) as [e|] eqn:He.
        + right. intros (_ & _ & _ & _ & H & _).
          specialize (H cf eq_refl). congruence.
        + destruct (AdditionalFlagger options) as [fl|].
          * destruct (flaggerRun fl) as [code|] eqn:Hc.
            -- right. intros (_ & _ & _ & _ & _ & H).
               specialize (H fl eq_refl). congruence.
            -- left. repeat split; auto; intros ? [= <-]; assumption.
          * left. repeat split; auto; try intros ? [= <-]; try assumption;
              discriminate.
      - destruct (AdditionalFlagger options) as [fl|].
        + destruct (flaggerRun fl) as [code|] eqn:Hc.
          * right. intros (_ & _ & _ & _ & _ & H).
            specialize (H fl eq_refl). congruence.
          * left. repeat split; auto; try intros ? [= <-]; try assumption;
              discriminate.
        + left. repeat split; auto; discriminate. }
    destruct Hdec as [Hs|Hn]; [exact Hs|].
    pose proof (NewService_does_not_return h packageFS options
                  (not_starts h options Hn) []) as [tr' (_ & _ & Hout)].
    rewrite Hret in Hout. discriminate. }
  split.
  - split.
    + intros (r & tr & Hret). exact (Hfwd r tr Hret).
    + intros Hs. rewrite (NewService_starts h packageFS options Hs). eauto.
  - intros r tr Hret.
    rewrite (NewService_starts h packageFS options (Hfwd r tr Hret)) in Hret.
    injection Hret as <- <-.
    cbn [serviceConfig serviceVersion serviceFlags service runners
         interruptListeners].
    split; [reflexivity|]. split; [reflexivity|]. split; [reflexivity|].
    split; [|split; [|split; [reflexivity|split; [reflexivity|]]]].
    + destruct (AdditionalFlagger options), (AdditionalConfigurer options),
        (snd (NewVersion (decodeVersion h) packageFS)); reflexivity.
    + destruct (AdditionalFlagger options), (AdditionalConfigurer options),
        (snd (NewVersion (decodeVersion h) packageFS)); reflexivity.
    + intros w sig Hsig. unfold Run, RunWithCleanUp.
      cbn [runners interruptListeners List.length Z.of_nat Z.ltb Z.compare
           andb].
      unfold receiveSignal. cbn [signal]. rewrite Hsig. reflexivity.
Qed.

Lemma NewService_returns_iff_it_starts_witness :
  starts (host_example "production" (false, true, ""%string, false))
         no_options /\
  exists r tr,
    NewServiceWithOptions
      (host_example "production" (false, true, ""%string, false))
      None no_options [] = (Continue r, tr).
Proof.
  assert (Hs : starts (host_example "production" (false, true, ""%string, false))
                      no_options).
  { repeat split; try reflexivity; discriminate. }
  split; [exact Hs|].
  exact (proj2 (proj1 (NewService_returns_iff_it_starts
                         (host_example "production" (false, true, ""%string, false))
                         None no_options)) Hs).
Defined.

(** X20. What [-property] answers.  [RunWithConfigurer] with a property to
    read always ends the process after printing exactly one line, and
    never calls a nil configurer.  The platform configuration takes
    precedence: if it has the property, its value is printed, the status
    is 0 and the additional configurer is not asked.  Otherwise, without
    an additional configurer the empty line is printed and the status is
    1; with one, the value that it returns is printed and the status is
    0 exactly when it returns no error. *)
Theorem RunWithConfigurer_platform_takes_precedence (h : Host) (f : Flags)
  (c : Config) (configurer : option Configurer) :
  HasProperty f = true ->
  let out := RunWithConfigurer h f c configurer [] in
  ~ In SPanic (snd out) /\
  match readConfigProperty h c (Property f), configurer with
  | inl value, _ =>
      out = (Exited 0, [SPrintln (LineText value); SExit 0])
  | inr _, None =>
      out = (Exited 1, [SPrintln (LineText ""); SExit 1])
  | inr _, Some cf =>
      let '(value, err) := configurerReadProperty cf (Property f) in
      out = (Exited (if is_error err then 1 else 0),
             [SConfigurerReadProperty (Property f); SPrintln (LineText value);
              SExit (if is_error err then 1 else 0)])
  end.
Proof.
  intros Hp out. unfold out, RunWithConfigurer, Config_ReadProperty.
  rewrite Hp.
  destruct (readConfigProperty h c (Property f)) as [value|e];
    destruct configurer as [cf|];
    try destruct (configurerReadProperty cf (Property f)) as [value' [e'|]];
    cbn; (split; [|reflexivity]); intuition discriminate.
Qed.

Lemma RunWithConfigurer_platform_takes_precedence_witness :
  HasProperty (Flags_Parse (host_example "production"
                              (false, true, "port"%string, false))) = true /\
  RunWithConfigurer
    (host_example "production" (false, true, "port"%string, false))
    (Flags_Parse (host_example "production" (false, true, "port"%string, false)))
    Config_zero (Some configurer_example) []
  = (Exited 0, [SConfigurerReadProperty "port"; SPrintln (LineText "8080");
                SExit 0]).
Proof.
  split; [reflexivity|].
  exact (proj2 (RunWithConfigurer_platform_takes_precedence
                  (host_example "production" (false, true, "port"%string, false))
                  (Flags_Parse (host_example "production"
                                  (false, true, "port"%string, false)))
                  Config_zero (Some configurer_example) eq_refl)).
Defined.

(** X21. Which files [LoadConfig] layers.  It returns nil exactly when:
    for the environment [development] (also when [GO_ENV] is not set)
    [config-production.json] is decoded first and
    [config-development.json] on top of it, for any other environment
    the one file of that environment is decoded, every decoding
    succeeds, and [Validate] then accepts the result, which is the
    configuration that is left. *)
Theorem LoadConfig_layers_development_over_production (Cfg : Type)
  (decodeJson : string -> Cfg -> Cfg * option error)
  (Validate : Cfg -> option error) (goEnv : string) (c c' : Cfg) :
  LoadConfig Cfg decodeJson Validate goEnv c = (c', None) <->
  if (goEnv =? "")%string || (goEnv =? "development")%string
  then exists c1,
         decodeJson "config-production.json"%string c = (c1, None) /\
         decodeJson "config-development.json"%string c1 = (c', None) /\
         Validate c' = None
  else decodeJson ("config-" ++ goEnv ++ ".json")%string c = (c', None) /\
       Validate c' = None.
Proof.
  unfold LoadConfig.
  assert (Hdev : forall env,
            (let '(c0, err) := decodeJson "config-production.json"%string c in
             match err with
             | Some e => (c0, Some e)
             | None =>
                 let '(c1, err0) :=
                   decodeJson ("config-" ++ env ++ ".json")%string c0 in
                 match err0 with
                 | Some e => (c1, Some e)
                 | None => (c1, Validate c1)
                 end
             end) = (c', None) <->
            exists c1,
              decodeJson "config-production.json"%string c = (c1, None) /\
              decodeJson ("config-" ++ env ++ ".json")%string c1 = (c', None) /\
              Validate c' = None).
  { intros env.
    destruct (decodeJson "config-production.json"%string c) as [c0 [e|]].
    - split; [discriminate|]. intros (c1 & H & _). discriminate.
    - destruct (decodeJson ("config-" ++ env ++ ".json")%string c0)
        as [c1 [e|]] eqn:H1.
      + split; [discriminate|]. intros (c2 & [= <-] & H & _).
        rewrite H1 in H. discriminate.
      + split.
        * intros [= <- Hv]. exists c0. auto.
        * intros (c2 & [= <-] & H & Hv). rewrite H1 in H.
          injection H as <-. now rewrite Hv. }
  destruct goEnv as [|a s].
  - cbn [String.length Nat.ltb Nat.leb String.eqb orb]. apply Hdev.
  - assert (Hl : (String.length (String a s) <? 1)%nat = false)
      by reflexivity.
    assert (He : (String a s =? "")%string = false) by reflexivity.
    rewrite Hl, He. cbn [orb].
    destruct (String.eqb (String a s) "development") eqn:E.
    + apply String.eqb_eq in E. rewrite E. apply Hdev.
    + destruct (decodeJson ("config-" ++ String a s ++ ".json")%string c)
        as [c1 [e|]].
      * split; [discriminate|]. intros [H _]. discriminate.
      * split.
        -- intros [= <- Hv]. auto.
        -- intros [[= <-] Hv]. now rewrite Hv.
Qed.

Lemma string_of_uint_digits (u : Decimal.uint) :
  all_digits (NilEmpty.string_of_uint u) = true.
Proof.
  induction u; cbn [NilEmpty.string_of_uint all_digits]; rewrite ?IHu;
    reflexivity.
Qed.

Lemma digits_then_dash (a b x y : string) :
  all_digits a = true -> all_digits b = true ->
  (a ++ String "-" x = b ++ String "-" y)%string -> a = b /\ x = y.
Proof.
  revert b. induction a as [|c a IH]; intros [|d b] Ha Hb H;
    cbn [String.append all_digits] in *.
  - injection H as ->. auto.
  - injection H as <- _. apply andb_prop in Hb. destruct Hb as [Hb _].
    discriminate.
  - injection H as -> _. apply andb_prop in Ha. destruct Ha as [Ha _].
    discriminate.
  - injection H as -> H. apply andb_prop in Ha. apply andb_prop in Hb.
    destruct (IH b (proj2 Ha) (proj2 Hb) H) as [-> ->]. auto.
Qed.

Lemma string_of_uint_inj (u1 u2 : Decimal.uint) :
  NilEmpty.string_of_uint u1 = NilEmpty.string_of_uint u2 -> u1 = u2.
Proof.
  intros H. pose proof (NilEmpty.usu u1) as H1. rewrite H in H1.
  rewrite NilEmpty.usu in H1. now injection H1.
Qed.

(** The decimal text of an [int]: digits, after a minus sign when the
    number is negative; there is at least one digit. *)
Lemma sprintf_d_shape (n : Z) :
  exists (sign : bool) (u : Decimal.uint),
    Z.to_int n = (if sign then Decimal.Neg u else Decimal.Pos u) /\
    sprintf_d n
    = ((if sign then "-"%string else ""%string)
       ++ NilEmpty.string_of_uint u)%string /\
    exists c rest, NilEmpty.string_of_uint u = String c rest /\
                   is_digit c = true.
Proof.
  assert (Hnn : forall p, exists c rest,
             NilEmpty.string_of_uint (Pos.to_uint p) = String c rest /\
             is_digit c = true).
  { intros p. pose proof (Unsigned.to_uint_nonnil p) as Hn.
    pose proof (string_of_uint_digits (Pos.to_uint p)) as Hd.
    destruct (Pos.to_uint p); try congruence;
      cbn [NilEmpty.string_of_uint all_digits] in *;
      apply andb_prop in Hd; destruct Hd as [Hd _]; eauto. }
  destruct n as [|p|p].
  - exists false, Decimal.zero. repeat split. exists "0"%char, ""%string.
    split; reflexivity.
  - exists false, (Pos.to_uint p). repeat split. apply Hnn.
  - exists true, (Pos.to_uint p). repeat split. apply Hnn.
Qed.

(** X22. The build hash identifies the build.  Two builds have the same
    [BuildHash] (the text "<number>-<short hash>") only if they have
    the same build number and the same short hash. *)
Theorem BuildHash_identifies_build (b1 b2 : Build) :
  BuildHash b1 = BuildHash b2 ->
  BuildNumber b1 = BuildNumber b2 /\ ShortHash b1 = ShortHash b2.
Proof.
  unfold BuildHash. intros H.
  destruct (sprintf_d_shape (BuildNumber b1))
    as (s1 & u1 & Hi1 & Hs1 & c1 & r1 & Hc1 & Hd1).
  destruct (sprintf_d_shape (BuildNumber b2))
    as (s2 & u2 & Hi2 & Hs2 & c2 & r2 & Hc2 & Hd2).
  rewrite Hs1, Hs2 in H.
  assert (Hsame : s1 = s2 /\ u1 = u2 /\ ShortHash b1 = ShortHash b2).
  { destruct s1, s2; cbn [String.append] in H.
    - injection H as H.
      destruct (digits_then_dash _ _ _ _ (string_of_uint_digits u1)
                  (string_of_uint_digits u2) H) as [Hu Hh].
      apply string_of_uint_inj in Hu. auto.
    - rewrite Hc2 in H. cbn [String.append] in H. injection H as <- _.
      discriminate.
    - rewrite Hc1 in H. cbn [String.append] in H. injection H as -> _.
      discriminate.
    - destruct (digits_then_dash _ _ _ _ (string_of_uint_digits u1)
                  (string_of_uint_digits u2) H) as [Hu Hh].
      apply string_of_uint_inj in Hu. auto. }
  destruct Hsame as (-> & -> & Hh). split; [|exact Hh].
  rewrite <- (DecimalZ.of_to (BuildNumber b1)),
          <- (DecimalZ.of_to (BuildNumber b2)).
  now rewrite Hi1, Hi2.
Qed.

Lemma BuildHash_identifies_build_witness :
  BuildHash {| BuildNumber := 42; Hash := "0123abcd"; ShortHash := "0123" |}
  = "42-0123"%string /\
  BuildNumber {| BuildNumber := 42; Hash := "0123abcd"; ShortHash := "0123" |}
  = BuildNumber {| BuildNumber := 42; Hash := "ffff"; ShortHash := "0123" |}.
Proof.
  split; [reflexivity|].
  exact (proj1 (BuildHash_identifies_build
                  {| BuildNumber := 42; Hash := "0123abcd"; ShortHash := "0123" |}
                  {| BuildNumber := 42; Hash := "ffff"; ShortHash := "0123" |}
                  eq_refl)).
Defined.
